(** * Comment Wizard: keyword highlighting inside comments

    A shallow embedding of [src/extension.js] and the properties of its
    keyword validation, keyword matcher, error logger and theme
    import/export.

    Modelling conventions.
    - A JavaScript string is a [string]; its code units are the 8-bit
      characters of [ascii] (document text is restricted to code units
      below 256).  Offsets into a string are [nat].
    - A JavaScript number is the rational value of a double, an infinity
      or NaN; counts, lengths and offsets are [nat].
    - A JavaScript object used as a mapping is the list of its entries in
      the order [Object.entries] enumerates them.
    - Global variables of the module and the host's observable state are
      the fields of one record, [World], threaded through every call.
    - The regular-expression engine of the host is embedded as the
      backtracking matcher of the ECMAScript specification
      (continuation passing, as in its section on pattern semantics),
      for the fragment of the pattern syntax described at [parsePattern]. *)

From Stdlib Require Import Bool Arith Lia List String Ascii ZArith NArith.
From Stdlib Require Import Decimal DecimalString.
From Stdlib Require Import QArith Qround.
Import ListNotations.
Open Scope string_scope.
Open Scope list_scope.
Open Scope nat_scope.

(* ================================================================== *)
(** * Part I: definitions *)
(* ================================================================== *)

(** ** Characters and strings *)

Definition code (c : ascii) : nat := nat_of_ascii c.

Definition chars (s : string) : list ascii := list_ascii_of_string s.

Definition in_range (lo hi : nat) (c : ascii) : bool :=
  (lo <=? code c) && (code c <=? hi).

Definition isDigit (c : ascii) : bool := in_range 48 57 c.
Definition isUpper (c : ascii) : bool := in_range 65 90 c.
Definition isLower (c : ascii) : bool := in_range 97 122 c.

(** [\w]: the basic word characters [A-Za-z0-9_]. *)
Definition IsWordCharacter (c : ascii) : bool :=
  isLower c || isUpper c || isDigit c || (code c =? 95).

(** Line terminators below 256: LF and CR. *)
Definition isLineTerminator (c : ascii) : bool :=
  (code c =? 10) || (code c =? 13).

(** [\s]: white space and line terminators below 256
    (TAB, LF, VT, FF, CR, SP, NBSP). *)
Definition isWhiteSpace (c : ascii) : bool :=
  in_range 9 13 c || (code c =? 32) || (code c =? 160).

(** Simple case mapping on Latin-1.  The characters whose upper case lies
    outside Latin-1 or is not a single code unit (U+00B5, U+00DF, U+00FF)
    have no case partner below 256. *)
Definition toUpper (c : ascii) : ascii :=
  if isLower c || (in_range 224 254 c && negb (code c =? 247))
  then ascii_of_nat (code c - 32) else c.

Definition toLower (c : ascii) : ascii :=
  if isUpper c || (in_range 192 222 c && negb (code c =? 215))
  then ascii_of_nat (code c + 32) else c.

Fixpoint dropWhile {A : Type} (f : A -> bool) (l : list A) : list A :=
  match l with
  | [] => []
  | x :: rest => if f x then dropWhile f rest else l
  end.

(** [value.trim()] *)
Definition trim (s : string) : string :=
  string_of_list_ascii
    (List.rev (dropWhile isWhiteSpace
                 (List.rev (dropWhile isWhiteSpace (chars s))))).

(** ** Regular expressions: abstract syntax *)

Inductive ClassAtom : Type :=
| CAChar (c : ascii)
| CARange (lo hi : ascii)
| CADigit (complement : bool)      (* \d  \D *)
| CAWord (complement : bool)       (* \w  \W *)
| CASpace (complement : bool).     (* \s  \S *)

Inductive regex : Type :=
| Empty
| Char (c : ascii)
| Dot
| Class (invert : bool) (atoms : list ClassAtom)
| AssertStart                       (* ^ *)
| AssertEnd                         (* $ *)
| WordBoundary (negated : bool)     (* \b  \B *)
| Seq (r1 r2 : regex)
| Alt (r1 r2 : regex)
| Quant (min : nat) (max : option nat) (greedy : bool) (r : regex)
| Group (r : regex).

Record Flags : Type := mkFlags {
  global : bool;
  ignoreCase : bool;
  multiline : bool
}.

(** ** Regular expressions: matching *)

Definition classAtomMem (a : ClassAtom) (c : ascii) : bool :=
  match a with
  | CAChar x => Ascii.eqb x c
  | CARange lo hi => in_range (code lo) (code hi) c
  | CADigit cpl => xorb cpl (isDigit c)
  | CAWord cpl => xorb cpl (IsWordCharacter c)
  | CASpace cpl => xorb cpl (isWhiteSpace c)
  end.

Definition classMem (atoms : list ClassAtom) (c : ascii) : bool :=
  existsb (fun a => classAtomMem a c) atoms.

Definition MatcherContinuation : Type := nat -> option nat.
Definition Matcher : Type := nat -> MatcherContinuation -> option nat.

(** [RepeatMatcher m min max greedy x c].  An iteration that matches the
    empty string once [min] is exhausted is rejected, so every recursive
    call lowers [min + (List.length Input - x)]; [fuel] starts above it. *)
Fixpoint RepeatMatcher (m : Matcher) (fuel min : nat) (max : option nat)
  (greedy : bool) (x : nat) (c : MatcherContinuation) {struct fuel}
  : option nat :=
  match fuel with
  | 0 => None
  | S fuel' =>
      match max with
      | Some 0 => c x
      | _ =>
          let d : MatcherContinuation := fun y =>
            if (min =? 0) && (y =? x) then None
            else RepeatMatcher m fuel' (pred min) (option_map pred max)
                               greedy y c in
          if negb (min =? 0) then m x d
          else if greedy then
            match m x d with
            | Some z => Some z
            | None => c x
            end
          else
            match c x with
            | Some z => Some z
            | None => m x d
            end
      end
  end.

Section Semantics.

Variable Input : list ascii.
Variable fl : Flags.

(** A set of characters contains [ch] when one of its members has the
    canonical form of [ch].  Without [ignoreCase] the canonical form of a
    character is the character; with it, it is the upper case, so below
    256 the candidates are [ch] and its case partner. *)
Definition found (mem : ascii -> bool) (ch : ascii) : bool :=
  if ignoreCase fl then mem ch || mem (toUpper ch) || mem (toLower ch)
  else mem ch.

Definition CharacterSetMatcher (mem : ascii -> bool) (invert : bool)
  : Matcher := fun x c =>
  match nth_error Input x with
  | None => None
  | Some ch => if xorb invert (found mem ch) then c (S x) else None
  end.

Definition IsWordChar (e : nat) (before : bool) : bool :=
  if before then
    match e with
    | 0 => false
    | S p => match nth_error Input p with
             | Some ch => IsWordCharacter ch
             | None => false
             end
    end
  else
    match nth_error Input e with
    | Some ch => IsWordCharacter ch
    | None => false
    end.

Definition assertStart (x : nat) : bool :=
  match x with
  | 0 => true
  | S p => multiline fl &&
           match nth_error Input p with
           | Some ch => isLineTerminator ch
           | None => false
           end
  end.

Definition assertEnd (x : nat) : bool :=
  match nth_error Input x with
  | None => List.length Input <=? x
  | Some ch => multiline fl && isLineTerminator ch
  end.

Fixpoint CompileSubpattern (r : regex) : Matcher :=
  match r with
  | Empty => fun x c => c x
  | Char a => CharacterSetMatcher (Ascii.eqb a) false
  | Dot => CharacterSetMatcher (fun ch => negb (isLineTerminator ch)) false
  | Class invert atoms => CharacterSetMatcher (classMem atoms) invert
  | AssertStart => fun x c => if assertStart x then c x else None
  | AssertEnd => fun x c => if assertEnd x then c x else None
  | WordBoundary negated => fun x c =>
      let a := IsWordChar x true in
      let b := IsWordChar x false in
      if xorb negated (xorb a b) then c x else None
  | Seq r1 r2 => fun x c =>
      CompileSubpattern r1 x (fun y => CompileSubpattern r2 y c)
  | Alt r1 r2 => fun x c =>
      match CompileSubpattern r1 x c with
      | Some z => Some z
      | None => CompileSubpattern r2 x c
      end
  | Quant min max greedy r0 => fun x c =>
      RepeatMatcher (CompileSubpattern r0)
                    (S (min + (List.length Input - x))) min max greedy x c
  | Group r0 => CompileSubpattern r0
  end.

(** The matcher of a whole pattern, tried at one start index: the end
    index of the match, if any. *)
Definition matchAt (r : regex) (index : nat) : option nat :=
  CompileSubpattern r index (fun y => Some y).

(** The search loop of [RegExpBuiltinExec] (not sticky): the first index
    from [lastIndex] on at which the pattern matches. *)
Fixpoint search (r : regex) (fuel lastIndex : nat) : option (nat * nat) :=
  match matchAt r lastIndex with
  | Some e => Some (lastIndex, e)
  | None =>
      match fuel with
      | 0 => None
      | S fuel' => search r fuel' (S lastIndex)
      end
  end.

End Semantics.

(** A regular-expression object: its compiled pattern, its flags and the
    mutable [lastIndex] cursor. *)
Record RegExp : Type := mkRegExp {
  source : regex;
  flags : Flags;
  lastIndex : nat
}.

Definition setLastIndex (R : RegExp) (i : nat) : RegExp :=
  mkRegExp (source R) (flags R) i.

(** A successful match: where it starts and where it ends. *)
Record MatchResult : Type := mkMatch {
  index : nat;
  endIndex : nat
}.

(** [R.exec(str)] ([RegExpBuiltinExec]).  For a global pattern the search
    starts at [lastIndex]; a failure resets [lastIndex] to 0, a success
    moves it to the end of the match.  Without the global flag the
    search starts at 0 and [lastIndex] is left alone. *)
Definition exec (R : RegExp) (str : list ascii)
  : option MatchResult * RegExp :=
  let start := if global (flags R) then lastIndex R else 0 in
  if List.length str <? start then (None, setLastIndex R 0)
  else
    match search str (flags R) (source R) (List.length str - start) start with
    | None => (None, setLastIndex R 0)
    | Some (i, e) =>
        (Some (mkMatch i e),
         if global (flags R) then setLastIndex R e else R)
    end.

(** [R.test(str)]. *)
Definition test (R : RegExp) (str : list ascii) : bool :=
  match fst (exec R str) with
  | Some _ => true
  | None => false
  end.

(** ** Regular expressions: the pattern parser

    [new RegExp(pattern, flags)] parses [pattern] with the grammar of the
    ECMAScript specification and its web-compatibility annex, without the
    unicode flag.  The fragment embedded here:
    - alternatives [|], groups [(...)] and [(?:...)];
    - the assertions [^], [$], [\b], [\B];
    - the quantifiers [*], [+], [?], [{n}], [{n,}], [{n,m}], each with an
      optional lazy [?]; a brace that does not open a well-formed
      quantifier is an ordinary character, and so are [}] and a stray []];
    - [.], character classes with ranges and negation, the class escapes
      [\d \D \s \S \w \W], the control escapes [\t \n \v \f \r], [\0] and
      identity escapes.
    Look-around, back-references, named groups and the escapes [\c], [\x],
    [\u] and legacy octal escapes are outside the fragment: a pattern that
    uses one is not compiled by this model.  A parser that gives [None]
    found a syntax error or one of these constructs; [outsideFragment]
    tells which. *)

Definition eqc (a b : ascii) : bool := Ascii.eqb a b.

Fixpoint parseDigits (s : list ascii) (acc : nat) (seen : bool)
  : option (nat * list ascii) :=
  match s with
  | c :: rest =>
      if isDigit c then parseDigits rest (10 * acc + (code c - 48)) true
      else if seen then Some (acc, s) else None
  | [] => if seen then Some (acc, s) else None
  end.

(** The text after an opening brace, when it is a well-formed quantifier:
    the bounds and what follows the closing brace. *)
Definition parseBraces (s : list ascii)
  : option (nat * option nat * list ascii) :=
  match parseDigits s 0 false with
  | Some (lo, c :: rest) =>
      if eqc c "}" then Some (lo, Some lo, rest)
      else if eqc c "," then
        match rest with
        | c' :: rest' =>
            if eqc c' "}" then Some (lo, None, rest')
            else
              match parseDigits rest 0 false with
              | Some (hi, c'' :: rest'') =>
                  if eqc c'' "}" then Some (lo, Some hi, rest'') else None
              | _ => None
              end
        | [] => None
        end
      else None
  | _ => None
  end.

Inductive QuantifierPrefix : Type :=
| NoQuantifier
| BadQuantifier                        (* numbers out of order *)
| Quantifier (min : nat) (max : option nat) (rest : list ascii).

Definition parseQuantifierPrefix (s : list ascii) : QuantifierPrefix :=
  match s with
  | c :: rest =>
      if eqc c "*" then Quantifier 0 None rest
      else if eqc c "+" then Quantifier 1 None rest
      else if eqc c "?" then Quantifier 0 (Some 1) rest
      else if eqc c "{" then
        match parseBraces rest with
        | Some (lo, Some hi, rest') =>
            if hi <? lo then BadQuantifier else Quantifier lo (Some hi) rest'
        | Some (lo, None, rest') => Quantifier lo None rest'
        | None => NoQuantifier
        end
      else NoQuantifier
  | [] => NoQuantifier
  end.

(** An atom followed by its optional quantifier. *)
Definition withQuantifier (atom : regex) (s : list ascii)
  : option (regex * list ascii) :=
  match parseQuantifierPrefix s with
  | NoQuantifier => Some (atom, s)
  | BadQuantifier => None
  | Quantifier min max rest =>
      match rest with
      | c :: rest' =>
          if eqc c "?" then Some (Quant min max false atom, rest')
          else Some (Quant min max true atom, rest)
      | [] => Some (Quant min max true atom, rest)
      end
  end.

Definition controlEscape (c : ascii) : option ascii :=
  if eqc c "t" then Some (ascii_of_nat 9)
  else if eqc c "n" then Some (ascii_of_nat 10)
  else if eqc c "v" then Some (ascii_of_nat 11)
  else if eqc c "f" then Some (ascii_of_nat 12)
  else if eqc c "r" then Some (ascii_of_nat 13)
  else None.

Definition classEscape (c : ascii) : option ClassAtom :=
  if eqc c "d" then Some (CADigit false)
  else if eqc c "D" then Some (CADigit true)
  else if eqc c "s" then Some (CASpace false)
  else if eqc c "S" then Some (CASpace true)
  else if eqc c "w" then Some (CAWord false)
  else if eqc c "W" then Some (CAWord true)
  else None.

(** Escapes outside the fragment. *)
Definition unsupportedEscape (c : ascii) (rest : list ascii) : bool :=
  in_range 49 57 c || eqc c "c" || eqc c "x" || eqc c "u" ||
  (eqc c "0" && match rest with
               | d :: _ => isDigit d
               | [] => false
               end).

(** The character an escape denotes, for the escapes that denote one. *)
Definition characterEscape (c : ascii) (rest : list ascii) : option ascii :=
  if unsupportedEscape c rest then None
  else
    match controlEscape c with
    | Some ch => Some ch
    | None => if eqc c "0" then Some (ascii_of_nat 0) else Some c
    end.

(** An atom escape, after the backslash. *)
Definition parseAtomEscape (c : ascii) (rest : list ascii) : option regex :=
  if eqc c "b" then Some (WordBoundary false)
  else if eqc c "B" then Some (WordBoundary true)
  else
    match classEscape c with
    | Some a => Some (Class false [a])
    | None => option_map Char (characterEscape c rest)
    end.

(** One atom of a character class. *)
Definition parseClassAtom (s : list ascii) : option (ClassAtom * list ascii) :=
  match s with
  | [] => None
  | c :: rest =>
      if eqc c "\" then
        match rest with
        | [] => None
        | e :: rest' =>
            match classEscape e with
            | Some a => Some (a, rest')
            | None =>
                if eqc e "b" then Some (CAChar (ascii_of_nat 8), rest')
                else
                  match characterEscape e rest' with
                  | Some ch => Some (CAChar ch, rest')
                  | None => None
                  end
            end
        end
      else Some (CAChar c, rest)
  end.

(** The members of a class up to the closing bracket. *)
Fixpoint parseClassRanges (fuel : nat) (s : list ascii)
  : option (list ClassAtom * list ascii) :=
  match fuel with
  | 0 => None
  | S fuel' =>
      match s with
      | [] => None
      | c :: rest =>
          if eqc c "]" then Some ([], rest)
          else
            match parseClassAtom s with
            | None => None
            | Some (a, rest1) =>
                let single :=
                  match parseClassRanges fuel' rest1 with
                  | Some (atoms, rest') => Some (a :: atoms, rest')
                  | None => None
                  end in
                match rest1 with
                | dash :: c2 :: rest2 =>
                    if eqc dash "-" && negb (eqc c2 "]") then
                      match parseClassAtom (c2 :: rest2) with
                      | None => None
                      | Some (b, rest3) =>
                          match parseClassRanges fuel' rest3 with
                          | None => None
                          | Some (atoms, rest') =>
                              match a, b with
                              | CAChar lo, CAChar hi =>
                                  if code hi <? code lo then None
                                  else Some (CARange lo hi :: atoms, rest')
                              | _, _ =>
                                  Some (a :: CAChar "-" :: b :: atoms, rest')
                              end
                          end
                      end
                    else single
                | _ => single
                end
            end
      end
  end.

Definition parseClass (s : list ascii) : option (regex * list ascii) :=
  let '(invert, body) :=
    match s with
    | c :: rest => if eqc c "^" then (true, rest) else (false, s)
    | [] => (false, s)
    end in
  match parseClassRanges (S (List.length body)) body with
  | Some (atoms, rest) => Some (Class invert atoms, rest)
  | None => None
  end.

Fixpoint parseDisjunction (fuel : nat) (s : list ascii)
  : option (regex * list ascii) :=
  match fuel with
  | 0 => None
  | S fuel' =>
      match parseAlternative fuel' s with
      | Some (r1, c :: rest) =>
          if eqc c "|" then
            match parseDisjunction fuel' rest with
            | Some (r2, rest') => Some (Alt r1 r2, rest')
            | None => None
            end
          else Some (r1, c :: rest)
      | other => other
      end
  end
with parseAlternative (fuel : nat) (s : list ascii)
  : option (regex * list ascii) :=
  match fuel with
  | 0 => None
  | S fuel' =>
      match s with
      | [] => Some (Empty, [])
      | c :: _ =>
          if eqc c "|" || eqc c ")" then Some (Empty, s)
          else
            match parseTerm fuel' s with
            | Some (t, rest) =>
                match parseAlternative fuel' rest with
                | Some (r, rest') => Some (Seq t r, rest')
                | None => None
                end
            | None => None
            end
      end
  end
with parseTerm (fuel : nat) (s : list ascii)
  : option (regex * list ascii) :=
  match fuel with
  | 0 => None
  | S fuel' =>
      match s with
      | [] => None
      | c :: rest =>
          if eqc c "^" then Some (AssertStart, rest)
          else if eqc c "$" then Some (AssertEnd, rest)
          else if eqc c "\" then
            match rest with
            | [] => None
            | e :: rest' =>
                match parseAtomEscape e rest' with
                | Some (WordBoundary n) => Some (WordBoundary n, rest')
                | Some atom => withQuantifier atom rest'
                | None => None
                end
            end
          else if eqc c "." then withQuantifier Dot rest
          else if eqc c "[" then
            match parseClass rest with
            | Some (cls, rest') => withQuantifier cls rest'
            | None => None
            end
          else if eqc c "(" then
            let '(capturing, body) :=
              match rest with
              | q :: c2 :: rest' =>
                  if eqc q "?" && eqc c2 ":" then (false, rest')
                  else (true, rest)
              | _ => (true, rest)
              end in
            match body with
            | q :: _ => if eqc q "?" then None else
                match parseDisjunction fuel' body with
                | Some (r, c2 :: rest') =>
                    if eqc c2 ")" then
                      withQuantifier (if capturing then Group r else r) rest'
                    else None
                | _ => None
                end
            | [] => None
            end
          else if eqc c "*" || eqc c "+" || eqc c "?" || eqc c ")" || eqc c "|"
          then None
          else if eqc c "{" then
            match parseBraces rest with
            | Some _ => None
            | None => withQuantifier (Char c) rest
            end
          else withQuantifier (Char c) rest
      end
  end.

Definition parsePattern (p : string) : option regex :=
  let s := chars p in
  match parseDisjunction (3 * List.length s + 4) s with
  | Some (r, []) => Some r
  | _ => None
  end.

Fixpoint parseFlags (s : list ascii) (fl : Flags) : option Flags :=
  match s with
  | [] => Some fl
  | c :: rest =>
      if eqc c "g" then
        if global fl then None
        else parseFlags rest (mkFlags true (ignoreCase fl) (multiline fl))
      else if eqc c "i" then
        if ignoreCase fl then None
        else parseFlags rest (mkFlags (global fl) true (multiline fl))
      else if eqc c "m" then
        if multiline fl then None
        else parseFlags rest (mkFlags (global fl) (ignoreCase fl) true)
      else None
  end.

(** Whether a pattern holds a construct outside the fragment: a
    backslash before the first character of an escape that is not
    embedded, or an opening parenthesis with a question mark and no
    colon after it.  A pattern without one that the parser rejects has
    a syntax error. *)
Fixpoint outsideFragment (s : list ascii) : bool :=
  match s with
  | c :: rest =>
      match rest with
      | d :: rest' =>
          (eqc c "\" && unsupportedEscape d rest')
          || (eqc c "(" && eqc d "?"
              && negb match rest' with
                      | e :: _ => eqc e ":"
                      | [] => false
                      end)
      | [] => false
      end
      || outsideFragment rest
  | [] => false
  end.

(** [new RegExp(pattern, flags)]: a fresh object with [lastIndex] 0, or
    [None] when the model does not compile the pattern: the constructor
    throws, or the pattern lies outside the fragment. *)
Definition RegExp_new (pattern flagString : string) : option RegExp :=
  match parsePattern pattern, parseFlags (chars flagString)
                                         (mkFlags false false false) with
  | Some r, Some fl => Some (mkRegExp r fl 0)
  | _, _ => None
  end.

(** The pattern of a regular-expression literal of the source.  Every
    literal of [extension.js] lies in the embedded fragment, so the
    default is never taken (see [literals_parse]). *)
Definition literalPattern (pattern : string) : regex :=
  match parsePattern pattern with
  | Some r => r
  | None => Empty
  end.

Definition regexLiteral (pattern flagString : string) : RegExp :=
  mkRegExp (literalPattern pattern)
           (match parseFlags (chars flagString) (mkFlags false false false) with
            | Some fl => fl
            | None => mkFlags false false false
            end) 0.

(** ** JavaScript numbers

    A number is a double: NaN, an infinity, or a finite value, which is
    a rational.  The numbers of a JSON document are finite; where a
    rational stands for a number that is printed, it stands for the
    double nearest to it. *)

Inductive Number : Type :=
| NaN
| Infinity (negative : bool)
| Finite (q : Q).

Coercion inject_Z : Z >-> Q.

(** [m * 2^p] *)
Definition scaled (m p : Z) : Q :=
  if (0 <=? p)%Z then inject_Z (m * 2 ^ p)
  else Qmake m (Z.to_pos (2 ^ (- p))).

(** The double nearest to the positive rational [n/d]: round to
    nearest, ties to even.  Its last place has the weight [2^p], with 53
    significant bits, or [2^-1074] for a subnormal value; [None] when
    the result is too large for a double. *)
Definition nearestDouble (n d : positive) : option Q :=
  let e0 := (Z.log2 (Zpos n) - Z.log2 (Zpos d))%Z in
  let above :=
    if (0 <=? e0)%Z then (Zpos d * 2 ^ e0 <=? Zpos n)%Z
    else (Zpos d <=? Zpos n * 2 ^ (- e0))%Z in
  let e := if above then e0 else (e0 - 1)%Z in
  let p := Z.max (e - 52) (-1074) in
  let num := if (0 <=? p)%Z then Zpos n else (Zpos n * 2 ^ (- p))%Z in
  let den := if (0 <=? p)%Z then (Zpos d * 2 ^ p)%Z else Zpos d in
  let m := (num / den)%Z in
  let r := (num mod den)%Z in
  let m' := if (2 * r <? den)%Z then m
            else if (den <? 2 * r)%Z then (m + 1)%Z
            else if Z.even m then m else (m + 1)%Z in
  if (1024 <=? Z.log2 m' + p)%Z then None else Some (scaled m' p).

(** The number value of a rational. *)
Definition roundToDouble (q : Q) : Number :=
  match Qnum q with
  | Z0 => Finite 0
  | Zpos n =>
      match nearestDouble n (Qden q) with
      | Some x => Finite x
      | None => Infinity false
      end
  | Zneg n =>
      match nearestDouble n (Qden q) with
      | Some x => Finite (Qopp x)
      | None => Infinity true
      end
  end.

Definition digitsOfN (n : N) : string :=
  NilEmpty.string_of_uint (N.to_uint n).

(** [10^t * q] *)
Definition shift10 (q : Q) (t : Z) : Q :=
  if (0 <=? t)%Z then Qmult q (inject_Z (10 ^ t))
  else Qdiv q (inject_Z (10 ^ (- t))).

(** The [n] with [10^(n-1) <= x < 10^n], for a positive [x]. *)
Fixpoint magnitudeBelow (fuel : nat) (x : Q) (j : Z) : Z :=
  match fuel with
  | O => j
  | S fuel' =>
      if Qle_bool 1 (shift10 x j) then (1 - j)%Z
      else magnitudeBelow fuel' x (j + 1)
  end.

Definition magnitude (x : Q) : Z :=
  if Qle_bool 1 x
  then Z.of_nat (String.length (digitsOfN (Z.to_N (Qfloor x))))
  else magnitudeBelow 400 x 1.

(** The candidates with [k] digits next to [x]: [s * 10^(n-k)] below and
    above it, as [(s, n)]. *)
Definition candidates (x : Q) (n0 : Z) (k : Z) : list (Z * Z) :=
  let lo := Qfloor (shift10 x (k - n0)) in
  let hi := (lo + 1)%Z in
  [ (lo, n0);
    if (hi =? 10 ^ k)%Z then (10 ^ (k - 1), n0 + 1)%Z else (hi, n0) ].

Definition denotes (x : Q) (k : Z) (c : Z * Z) : bool :=
  let '(s, n) := c in
  (10 ^ (k - 1) <=? s)%Z && (s <? 10 ^ k)%Z
  && match roundToDouble (shift10 (inject_Z s) (n - k)) with
     | Finite y => Qeq_bool y x
     | _ => false
     end.

Definition distance (x : Q) (k : Z) (c : Z * Z) : Q :=
  let '(s, n) := c in
  let d := Qminus (shift10 (inject_Z s) (n - k)) x in
  if Qle_bool 0 d then d else Qopp d.

(** The shortest decimal that denotes the double [x]: the digits [s]
    and the [n] of [Number::toString], with as few digits as possible,
    and then as close to [x] as possible. *)
Fixpoint shortest (fuel : nat) (x : Q) (n0 : Z) (k : Z) : Z * Z :=
  let cs := filter (denotes x k) (candidates x n0 k) in
  match cs with
  | [c] => c
  | [c1; c2] =>
      if Qle_bool (distance x k c1) (distance x k c2)
      then (if Qeq_bool (distance x k c1) (distance x k c2)
            then (if Z.even (fst c1) then c1 else c2) else c1)
      else c2
  | _ =>
      match fuel with
      | O => (Qfloor (shift10 x (k - n0)), n0)
      | S fuel' => shortest fuel' x n0 (k + 1)
      end
  end.

Fixpoint zeros (n : nat) : string :=
  match n with
  | O => ""
  | S n' => String "0" (zeros n')
  end.

(** [Number::toString(x)] for a positive double [x]. *)
Definition positiveToString (x : Q) : string :=
  let '(s, n) := shortest 20 x (magnitude x) 1 in
  let ds := digitsOfN (Z.to_N s) in
  let k := Z.of_nat (String.length ds) in
  if (k <=? n)%Z && (n <=? 21)%Z then
    (ds ++ zeros (Z.to_nat (n - k)))%string
  else if (0 <? n)%Z && (n <=? 21)%Z then
    (substring 0 (Z.to_nat n) ds ++ "."
     ++ substring (Z.to_nat n) (Z.to_nat (k - n)) ds)%string
  else if (-6 <? n)%Z && (n <=? 0)%Z then
    ("0." ++ zeros (Z.to_nat (- n)) ++ ds)%string
  else
    let e := (n - 1)%Z in
    let mantissa :=
      if (k =? 1)%Z then ds
      else (substring 0 1 ds ++ "."
            ++ substring 1 (Z.to_nat (k - 1)) ds)%string in
    (mantissa ++ "e" ++ (if (e <? 0)%Z then "-" else "+")
     ++ digitsOfN (Z.abs_N e))%string.

(** [Number::toString(x)] *)
Definition NumberToString (x : Number) : string :=
  match x with
  | NaN => "NaN"
  | Infinity false => "Infinity"
  | Infinity true => "-Infinity"
  | Finite q =>
      match roundToDouble q with
      | Finite y =>
          match Qnum y with
          | Z0 => "0"
          | Zpos _ => positiveToString y
          | Zneg _ => ("-" ++ positiveToString (Qopp y))%string
          end
      | _ => "Infinity"
      end
  end.


(** ** Strings as numbers: [StringToNumber] *)

Definition digitValue (radix : Z) (c : ascii) : option Z :=
  let v :=
    if isDigit c then Some (Z.of_nat (code c - 48))
    else if in_range 97 102 c then Some (Z.of_nat (code c - 87))
    else if in_range 65 70 c then Some (Z.of_nat (code c - 55))
    else None in
  match v with
  | Some d => if (d <? radix)%Z then Some d else None
  | None => None
  end.

(** The value of a string that consists of digits of the radix. *)
Fixpoint digitsIn (radix : Z) (s : list ascii) (acc : Z) : option Z :=
  match s with
  | [] => Some acc
  | c :: rest =>
      match digitValue radix c with
      | Some d => digitsIn radix rest (radix * acc + d)
      | None => None
      end
  end.

(** The decimal digits a string starts with: their value, how many
    they are, and what follows them. *)
Fixpoint decimalDigits (s : list ascii) (acc : Z) (count : nat)
  : Z * nat * list ascii :=
  match s with
  | c :: rest =>
      if isDigit c
      then decimalDigits rest (10 * acc + Z.of_nat (code c - 48)) (S count)
      else (acc, count, s)
  | [] => (acc, count, s)
  end.

(** [ExponentPart], or nothing, up to the end of the string. *)
Definition exponentPart (s : list ascii) : option Z :=
  match s with
  | [] => Some 0%Z
  | e :: rest =>
      if eqc e "e" || eqc e "E" then
        let '(negative, ds) :=
          match rest with
          | c :: rest' =>
              if eqc c "-" then (true, rest')
              else if eqc c "+" then (false, rest')
              else (false, rest)
          | [] => (false, rest)
          end in
        match ds with
        | [] => None
        | _ :: _ =>
            match digitsIn 10 ds 0 with
            | Some v => Some (if negative then (- v)%Z else v)
            | None => None
            end
        end
      else None
  end.

(** [StrUnsignedDecimalLiteral]: the mathematical value. *)
Definition unsignedDecimal (s : list ascii) : option Q :=
  let '(ip, n1, rest) := decimalDigits s 0 0 in
  match rest with
  | c :: rest1 =>
      if eqc c "." then
        let '(fp, n2, rest2) := decimalDigits rest1 0 0 in
        if (n1 =? 0) && (n2 =? 0) then None
        else
          match exponentPart rest2 with
          | Some e =>
              Some (shift10 (inject_Z (ip * 10 ^ Z.of_nat n2 + fp))
                            (e - Z.of_nat n2))
          | None => None
          end
      else if n1 =? 0 then None
      else option_map (shift10 (inject_Z ip)) (exponentPart rest)
  | [] => if n1 =? 0 then None else Some (inject_Z ip)
  end.

Definition negate (x : Number) : Number :=
  match x with
  | NaN => NaN
  | Infinity negative => Infinity (negb negative)
  | Finite q => Finite (Qopp q)
  end.

(** [StrDecimalLiteral] without its sign. *)
Definition unsignedLiteral (s : list ascii) : Number :=
  if String.eqb (string_of_list_ascii s) "Infinity" then Infinity false
  else
    match unsignedDecimal s with
    | Some q => roundToDouble q
    | None => NaN
    end.

(** [StringToNumber(str)]: white space around the literal is skipped,
    the empty string is 0, a literal is a decimal literal with an
    optional sign or a binary, octal or hexadecimal integer, and any
    other string is NaN. *)
Definition StringToNumber (str : string) : Number :=
  match chars (trim str) with
  | [] => Finite 0
  | c :: rest =>
      let nonDecimal (radix : Z) (ds : list ascii) : Number :=
        match ds with
        | [] => NaN
        | _ :: _ =>
            match digitsIn radix ds 0 with
            | Some v => roundToDouble (inject_Z v)
            | None => NaN
            end
        end in
      if eqc c "-" then negate (unsignedLiteral rest)
      else if eqc c "+" then unsignedLiteral rest
      else
        match rest with
        | x :: ds =>
            if eqc c "0" && (eqc x "x" || eqc x "X") then nonDecimal 16%Z ds
            else if eqc c "0" && (eqc x "o" || eqc x "O") then nonDecimal 8%Z ds
            else if eqc c "0" && (eqc x "b" || eqc x "B") then nonDecimal 2%Z ds
            else unsignedLiteral (c :: rest)
        | [] => unsignedLiteral (c :: rest)
        end
  end.

(** ** JavaScript values

    The values that settings and theme files hold are JSON values; a
    missing property ([undefined]) is [None] at the place where the
    property is read. *)

#[local] Set Warnings "-register-all".

Inductive JSON : Type :=
| JNull
| JBool (b : bool)
| JNum (n : Q)
| JStr (s : string)
| JArr (items : list JSON)
| JObj (props : list (string * JSON)).

Definition Object_ : Type := list (string * JSON).

(** A number is a JSON value. *)
Coercion JNum : Q >-> JSON.

(** [if (v)] for a value that may be [undefined]. *)
Definition truthy (v : option JSON) : bool :=
  match v with
  | None => false
  | Some JNull => false
  | Some (JBool b) => b
  | Some (JNum n) => negb (Qeq_bool n 0)
  | Some (JStr s) => negb (String.eqb s "")
  | Some (JArr _) => true
  | Some (JObj _) => true
  end.

(** [typeof v === 'object'] *)
Definition typeofObject (v : JSON) : bool :=
  match v with
  | JNull | JArr _ | JObj _ => true
  | _ => false
  end.

Fixpoint assoc {A : Type} (k : string) (l : list (string * A)) : option A :=
  match l with
  | [] => None
  | (k', v) :: rest => if String.eqb k k' then Some v else assoc k rest
  end.

(** An array index: the canonical decimal form of an integer below
    2^32 - 1.  Such keys are enumerated first, in ascending order. *)
Fixpoint digitsValue (s : list ascii) (acc : N) : option N :=
  match s with
  | [] => Some acc
  | c :: rest =>
      if isDigit c then digitsValue rest (10 * acc + N.of_nat (code c - 48))%N
      else None
  end.

Definition arrayIndex (k : string) : option N :=
  match chars k with
  | [] => None
  | c :: rest =>
      if eqc c "0" then
        match rest with
        | [] => Some 0%N
        | _ => None
        end
      else
        match digitsValue (c :: rest) 0%N with
        | Some n => if (n <? 4294967295)%N then Some n else None
        | None => None
        end
  end.

(** Whether a new key [k] is enumerated before the existing key [k']. *)
Definition keyBefore (k k' : string) : bool :=
  match arrayIndex k, arrayIndex k' with
  | Some n, Some n' => (n <? n')%N
  | Some _, None => true
  | None, _ => false
  end.

(** [o[k] = v] on an ordinary object: an existing property keeps its
    place; a new one is enumerated after the properties created before
    it, array indices first. *)
Fixpoint obj_set (o : Object_) (k : string) (v : JSON) : Object_ :=
  match o with
  | [] => [(k, v)]
  | (k', v') :: rest =>
      if String.eqb k k' then (k, v) :: rest
      else if keyBefore k k'
              && negb (existsb (fun e => String.eqb k (fst e)) rest)
      then (k, v) :: (k', v') :: rest
      else (k', v') :: obj_set rest k v
  end.

(** The own enumerable properties that [{...v}] copies. *)
Definition ownEntries (v : JSON) : Object_ :=
  match v with
  | JObj props => props
  | JArr items =>
      snd (fold_left
             (fun '(i, acc) x =>
                (S i, acc ++ [(NilEmpty.string_of_uint (Nat.to_uint i), x)]))
             items (0, []))
  | _ => []
  end.

(** [{ ...a, ...b }] *)
Definition spread2 (a b : JSON) : Object_ :=
  fold_left (fun o '(k, v) => obj_set o k v) (ownEntries b)
            (fold_left (fun o '(k, v) => obj_set o k v) (ownEntries a) []).

(** [v.key] for a value [v]; [None] is [undefined].  Reading a property
    of [null] throws, which the callers handle before they get here. *)
Definition getProp (v : JSON) (key : string) : option JSON :=
  match v with
  | JObj props => assoc key props
  | _ => None
  end.

(** ** The state of the extension and of its host *)

Record JSError : Type := mkError {
  errName : string;
  errMessage : string
}.

Definition SyntaxError (msg : string) : JSError := mkError "SyntaxError" msg.
Definition TypeError (msg : string) : JSError := mkError "TypeError" msg.

(** [error.message || error.toString()] *)
Definition errorDetails (e : JSError) : string :=
  if String.eqb (errMessage e) "" then errName e else errMessage e.

Record Position : Type := mkPosition {
  line : nat;
  character : nat
}.

Record Range : Type := mkRange {
  range_start : Position;
  range_end : Position
}.

Inductive Toast : Type :=
| InformationMessage (msg : string)
| WarningMessage (msg : string)
| ErrorMessage (msg : string).

Record TextDocument : Type := mkDocument {
  getText : string;
  languageId : string
}.

(** The handle the renderer gives for a decoration type. *)
Definition DecorationType : Type := nat.

Record TextEditor : Type := mkEditor {
  document : TextDocument;
  decorations : list (DecorationType * list Range)
}.

Record World : Type := mkWorld {
  logger : option (list string);     (* lines of the output channel *)
  console : list string;
  errorCount : nat;
  config : Object_;                  (* the commentWizard settings *)
  decorationTypes : list (string * DecorationType);
  activeTextEditor : option TextEditor;
  files : list (string * option JSON);
  toasts : list Toast;
  scanned : list string              (* ghost: keywords handed to the matcher *)
}.

Definition MAX_ERRORS : nat := 10.

(** A computation on the world. *)
Definition M (A : Type) : Type := World -> A * World.

Definition ret {A : Type} (a : A) : M A := fun w => (a, w).

Definition bind {A B : Type} (m : M A) (f : A -> M B) : M B :=
  fun w => let '(a, w') := m w in f a w'.

Notation "x <- c1 ;; c2" := (bind c1 (fun x => c2))
  (at level 61, c1 at next level, right associativity).
Notation "c1 ;;; c2" := (bind c1 (fun _ => c2))
  (at level 61, right associativity).

Definition appendLine (s : string) : M unit := fun w =>
  (tt, mkWorld (option_map (fun ls => ls ++ [s]) (logger w)) (console w)
               (errorCount w) (config w) (decorationTypes w)
               (activeTextEditor w) (files w) (toasts w) (scanned w)).

Definition console_error (s : string) : M unit := fun w =>
  (tt, mkWorld (logger w) (console w ++ [s]) (errorCount w) (config w)
               (decorationTypes w) (activeTextEditor w) (files w) (toasts w)
               (scanned w)).

Definition incrErrorCount : M nat := fun w =>
  (S (errorCount w),
   mkWorld (logger w) (console w) (S (errorCount w)) (config w)
           (decorationTypes w) (activeTextEditor w) (files w) (toasts w)
           (scanned w)).

Definition showToast (t : Toast) : M unit := fun w =>
  (tt, mkWorld (logger w) (console w) (errorCount w) (config w)
               (decorationTypes w) (activeTextEditor w) (files w)
               (toasts w ++ [t]) (scanned w)).

Definition natToString (n : nat) : string :=
  NilEmpty.string_of_uint (Nat.to_uint n).

(** [logError(message, error)] *)
Definition logError (message : string) (error : option JSError) : M unit :=
  appendLine ("[ERROR] " ++ message) ;;;
  match error with
  | Some e => appendLine ("[ERROR] Details: " ++ errorDetails e)
  | None => ret tt
  end ;;;
  console_error message ;;;
  n <- incrErrorCount ;;
  if MAX_ERRORS <? n then
    appendLine ("[ERROR] Too many errors (" ++ natToString n
                ++ "), stopping logging")
  else ret tt.

(** [config.get(key, defaultValue)] *)
Definition config_get (key : string) (defaultValue : JSON) : M JSON :=
  fun w => (match assoc key (config w) with
            | Some v => v
            | None => defaultValue
            end, w).

(** [config.update(key, value, ConfigurationTarget.Global)] *)
Definition config_update (key : string) (value : JSON) : M unit := fun w =>
  (tt, mkWorld (logger w) (console w) (errorCount w)
               (obj_set (config w) key value) (decorationTypes w)
               (activeTextEditor w) (files w) (toasts w) (scanned w)).

(** ** Keyword validation *)

(** [String(v)] for a JSON value. *)
Fixpoint JSON_toString (v : JSON) : string :=
  match v with
  | JNull => "null"
  | JBool true => "true"
  | JBool false => "false"
  | JNum n => NumberToString (Finite n)
  | JStr s => s
  | JArr items =>
      (fix join (l : list JSON) : string :=
         match l with
         | [] => ""
         | x :: rest =>
             let elt := match x with
                        | JNull => ""
                        | _ => JSON_toString x
                        end in
             match rest with
             | [] => elt
             | _ => (elt ++ "," ++ join rest)%string
             end
         end) items
  | JObj _ => "[object Object]"
  end.

(** [ToNumber(v)]: an array or an object is first made a string. *)
Definition ToNumber (v : JSON) : Number :=
  match v with
  | JNull => Finite 0
  | JBool b => Finite (if b then 1 else 0)
  | JNum n => Finite n
  | JStr s => StringToNumber s
  | JArr _ | JObj _ => StringToNumber (JSON_toString v)
  end.

(** [n < v] for a count or length [n] and any value [v]: the value is
    made a number, and a comparison with NaN is false. *)
Definition lessThan (n : nat) (v : JSON) : bool :=
  match ToNumber v with
  | NaN => false
  | Infinity negative => negb negative
  | Finite q => negb (Qle_bool q (inject_Z (Z.of_nat n)))
  end.

(** [n >= v] *)
Definition atLeast (n : nat) (v : JSON) : bool :=
  match ToNumber v with
  | NaN => false
  | Infinity negative => negative
  | Finite q => Qle_bool q (inject_Z (Z.of_nat n))
  end.

(** [o[k] = v] in the code, for an object [o] that a literal [{}]
    created: as [obj_set], except that [__proto__] names the accessor
    every such object inherits, so that the assignment creates no
    property, unless the object has a property of this name itself. *)
Definition obj_assign (o : Object_) (k : string) (v : JSON) : Object_ :=
  if String.eqb k "__proto__"
     && match assoc k o with
        | Some _ => false
        | None => true
        end
  then o
  else obj_set o k v.

(** [/^#([0-9A-F]{3}|[0-9A-F]{6})$/i.test(color)] *)
Definition isValidColor (color : string) : bool :=
  test (regexLiteral "^#([0-9A-F]{3}|[0-9A-F]{6})$" "i") (chars color).

(** [validateKeyword(keyword, color, minLength)].  The keyword is a
    property name, hence a string; the color is any value. *)
Definition validateKeyword (keyword : string) (color : JSON)
  (minLength : JSON) : M bool :=
  if lessThan (String.length keyword) minLength then
    logError ("Invalid keyword: '" ++ keyword ++ "' (too short)") None ;;;
    ret false
  else if negb (test (regexLiteral "^[a-zA-Z0-9_-]+$" "") (chars keyword)) then
    logError ("Invalid keyword: '" ++ keyword
              ++ "' (contains invalid characters)") None ;;;
    ret false
  else
    match color with
    | JStr c =>
        if isValidColor c then ret true
        else
          logError ("Invalid color for keyword '" ++ keyword ++ "': " ++ c)
                   None ;;;
          ret false
    | _ =>
        logError ("Invalid color for keyword '" ++ keyword ++ "': "
                  ++ JSON_toString color) None ;;;
        ret false
    end.

Arguments validateKeyword keyword color minLength%_Q w.

(** The loop of [validateKeywords] over [Object.entries(keywords)]. *)
Fixpoint validateKeywords_loop (entries : Object_)
  (minLength maxKeywords : JSON) (validKeywords : Object_) (count : nat)
  : M Object_ :=
  match entries with
  | [] => ret validKeywords
  | (keyword, color) :: rest =>
      if atLeast count maxKeywords then
        logError ("Maximum keywords (" ++ JSON_toString maxKeywords
                  ++ ") exceeded, ignoring '" ++ keyword ++ "'") None ;;;
        ret validKeywords
      else
        ok <- validateKeyword keyword color minLength ;;
        if ok then
          validateKeywords_loop rest minLength maxKeywords
                                (obj_assign validKeywords keyword color)
                                (S count)
        else
          validateKeywords_loop rest minLength maxKeywords validKeywords count
  end.

(** [validateKeywords(keywords)].  Nothing in its [try] block throws, so
    the [catch] that falls back to the default keywords is not reached. *)
Definition validateKeywords (keywords : Object_) : M Object_ :=
  minLength <- config_get "minKeywordLength" (JNum 2) ;;
  maxKeywords <- config_get "maxKeywords" (JNum 50) ;;
  validateKeywords_loop keywords minLength maxKeywords [] 0.

Definition getDefaultKeywords : Object_ :=
  [ ("TODO", JStr "#00BFFF");
    ("FIXME", JStr "#FF4500");
    ("NOTE", JStr "#32CD32");
    ("WARNING", JStr "#FFD700");
    ("HACK", JStr "#9932CC");
    ("BUG", JStr "#FF0000");
    ("REVIEW", JStr "#FF69B4");
    ("DEPRECATED", JStr "#808080") ].

(** [safeMergeKeywords(config)] *)
Definition safeMergeKeywords : M Object_ :=
  defaultKeywords <- config_get "keywords" (JObj []) ;;
  customKeywords <- config_get "customKeywords" (JObj []) ;;
  if negb (typeofObject defaultKeywords) || negb (typeofObject customKeywords)
  then
    logError "Keywords are not objects, using defaults" None ;;;
    ret getDefaultKeywords
  else ret (spread2 defaultKeywords customKeywords).

(** [isRegexKeyword(keyword)]: [startsWith('/') && endsWith('/')] and a
    length above 2. *)
Definition isRegexKeyword (keyword : string) : bool :=
  match chars keyword with
  | first :: _ =>
      eqc first "/" && eqc (last (chars keyword) first) "/"
      && (2 <? String.length keyword)
  | [] => false
  end.

(** The acceptance rule as the specification words it: long enough, and
    a literal token or a recognized regex wrapper, and a hex color. *)
Definition spec_validKeyword (keyword : string) (color : JSON) (minLength : Z)
  : bool :=
  (minLength <=? Z.of_nat (String.length keyword))%Z
  && (test (regexLiteral "^[a-zA-Z0-9_-]+$" "") (chars keyword)
      || isRegexKeyword keyword)
  && match color with
     | JStr c => isValidColor c
     | _ => false
     end.

(** ** The comment-pattern table *)

Inductive CommentKind : Type := single | multi.

Record CommentPattern : Type := mkPattern {
  type : CommentKind;
  pattern : RegExp
}.

Definition quote3 : string :=
  let q := String (ascii_of_nat 34) EmptyString in (q ++ q ++ q)%string.

Definition slashLine : CommentPattern :=
  mkPattern single (regexLiteral "\/\/.*$" "gm").
Definition slashStar : CommentPattern :=
  mkPattern multi (regexLiteral "\/\*[\s\S]*?\*\/" "gm").
Definition hashLine : CommentPattern :=
  mkPattern single (regexLiteral "#.*$" "gm").
Definition dashLine : CommentPattern :=
  mkPattern single (regexLiteral "--.*$" "gm").
Definition tripleDouble : CommentPattern :=
  mkPattern multi (regexLiteral (quote3 ++ "[\s\S]*?" ++ quote3) "gm").
Definition tripleSingle : CommentPattern :=
  mkPattern multi (regexLiteral "'''[\s\S]*?'''" "gm").
Definition markup : CommentPattern :=
  mkPattern multi (regexLiteral "<!--[\s\S]*?-->" "gm").
Definition beginEnd : CommentPattern :=
  mkPattern multi (regexLiteral "=begin[\s\S]*?=end" "gm").
Definition luaBlock : CommentPattern :=
  mkPattern multi (regexLiteral "--\[\[[\s\S]*?\]\]" "gm").

Definition patterns : list (string * list CommentPattern) :=
  [ ("javascript", [slashLine; slashStar]);
    ("typescript", [slashLine; slashStar]);
    ("python", [hashLine; tripleDouble; tripleSingle]);
    ("java", [slashLine; slashStar]);
    ("c", [slashLine; slashStar]);
    ("cpp", [slashLine; slashStar]);
    ("csharp", [slashLine; slashStar]);
    ("html", [markup]);
    ("css", [slashStar]);
    ("sql", [dashLine; slashStar]);
    ("php", [slashLine; hashLine; slashStar]);
    ("ruby", [hashLine; beginEnd]);
    ("go", [slashLine; slashStar]);
    ("rust", [slashLine; slashStar]);
    ("kotlin", [slashLine; slashStar]);
    ("swift", [slashLine; slashStar]);
    ("xml", [markup]);
    ("yaml", [hashLine]);
    ("shell", [hashLine]);
    ("bash", [hashLine]);
    ("dockerfile", [hashLine]);
    ("powershell", [hashLine]);
    ("r", [hashLine]);
    ("lua", [dashLine; luaBlock]);
    ("perl", [hashLine]);
    ("dart", [slashLine; slashStar]);
    ("scala", [slashLine; slashStar]) ].

(** [patterns[languageId]] for a [languageId] that is no key of the
    table but names a property that every object inherits: the [length]
    of the value found, [None] for a value without one.  The value is a
    function, or for [__proto__] the prototype object; it counts as
    true, and it has no [forEach]. *)
Definition inheritedLength (languageId : string) : option (option nat) :=
  assoc languageId
    [ ("constructor", Some 1); ("__defineGetter__", Some 2);
      ("__defineSetter__", Some 2); ("hasOwnProperty", Some 1);
      ("__lookupGetter__", Some 1); ("__lookupSetter__", Some 1);
      ("isPrototypeOf", Some 1); ("propertyIsEnumerable", Some 1);
      ("toString", Some 0); ("valueOf", Some 0); ("__proto__", None);
      ("toLocaleString", Some 0) ].

(** [getCommentPatterns(languageId)], where it returns descriptors: they
    are created anew by every call, each pattern with [lastIndex] 0.
    For the name of an inherited property the call returns that
    property, see [inheritedLength]. *)
Definition getCommentPatterns (languageId : string) : list CommentPattern :=
  match assoc languageId patterns with
  | Some ps => ps
  | None => []
  end.

(** ** The keyword matcher *)

(** [document.positionAt(offset)]: the offset is clamped to the text; a
    line ends at LF, CR or CR LF, and an offset inside a line ending is
    the end of its line. *)
Fixpoint positionAt_from (cs : list ascii) (remaining ln col : nat)
  : Position :=
  match remaining with
  | 0 => mkPosition ln col
  | S remaining' =>
      match cs with
      | [] => mkPosition ln col
      | c :: rest =>
          if eqc c (ascii_of_nat 13) then
            match rest, remaining' with
            | c' :: rest', S remaining'' =>
                if eqc c' (ascii_of_nat 10)
                then positionAt_from rest' remaining'' (S ln) 0
                else positionAt_from rest remaining' (S ln) 0
            | c' :: _, 0 =>
                if eqc c' (ascii_of_nat 10) then mkPosition ln col
                else mkPosition (S ln) 0
            | [], _ => mkPosition (S ln) 0
            end
          else if eqc c (ascii_of_nat 10) then
            positionAt_from rest remaining' (S ln) 0
          else positionAt_from rest remaining' ln (S col)
      end
  end.

Definition positionAt (doc : TextDocument) (offset : nat) : Position :=
  positionAt_from (chars (getText doc)) offset 0 0.

Definition isBefore (a b : Position) : bool :=
  (line a <? line b) || ((line a =? line b) && (character a <? character b)).

(** [new vscode.Range(start, end)]: the earlier position first. *)
Definition Range_new (a b : Position) : Range :=
  if isBefore b a then mkRange b a else mkRange a b.

(** How a piece of code ends: normally, by throwing, or not at all; or,
    where it depends on a pattern outside the embedded fragment, in a
    way that the embedding does not tell. *)
Inductive Completion : Type :=
| Normal
| Throws (e : JSError)
| Diverges
| Outside.

Section WhileExec.

Context {St : Type}.
Variable body : MatchResult -> St -> Completion * St.
Variable str : list ascii.

(** [while ((m = R.exec(str)) !== null) { body }].

    Every round in which the cursor of [R] advances brings it closer to
    the end of [str]; [fuel] counts these rounds.  A round that leaves
    the cursor where it was (an empty match at [lastIndex], or a pattern
    without the global flag) is followed by the same round again, for
    ever, when its body ends normally: the bodies used below end the same
    way whatever they have accumulated.  The loop then never exits, and
    the state is the one reached when this is detected. *)
Fixpoint whileExec (fuel : nat) (R : RegExp) (st : St)
  : Completion * RegExp * St :=
  match exec R str with
  | (None, R') => (Normal, R', st)
  | (Some m, R') =>
      match body m st with
      | (Normal, st') =>
          if lastIndex R' <=? lastIndex R then (Diverges, R', st')
          else
            match fuel with
            | 0 => (Diverges, R', st')
            | S fuel' => whileExec fuel' R' st'
            end
      | (c, st') => (c, R', st')
      end
  end.

End WhileExec.

(** [string.replace(/[.*+?^${}()|[\]\\]/g, '\\$&')]: a backslash before
    every character of the class. *)
Definition isSpecial (c : ascii) : bool :=
  existsb (eqc c) (chars ".*+?^${}()|[]\").

Definition escapeRegExp (s : string) : string :=
  string_of_list_ascii
    (flat_map (fun c => if isSpecial c then ["\"%char; c] else [c]) (chars s)).


(** [match[0]]: the matched part of the input. *)
Definition matched (str : list ascii) (m : MatchResult) : list ascii :=
  firstn (endIndex m - index m) (skipn (index m) str).

Definition flagsFor (caseSensitive : bool) : string :=
  if caseSensitive then "g" else "gi".

(** How [new RegExp(pattern, flags)] ends for a pattern that the model
    does not compile. *)
Definition notCompiled (pattern : string) : Completion :=
  if outsideFragment (chars pattern) then Outside
  else Throws (SyntaxError "Invalid regular expression").

(** The inner loop of both matchers over one comment: every match of
    [keywordRegex] in [commentText] pushes a range of [width] code
    units. *)
Definition pushMatches (doc : TextDocument) (commentStart : nat)
  (width : MatchResult -> nat) (keywordRegex : RegExp)
  (commentText : list ascii) (ranges : list Range)
  : Completion * list Range :=
  let '(c, _, ranges') :=
    whileExec
      (fun km rs =>
         (Normal,
          rs ++ [Range_new
                   (positionAt doc (commentStart + index km))
                   (positionAt doc (commentStart + index km + width km))]))
      commentText (List.length commentText) keywordRegex ranges in
  (c, ranges').

(** The body of the outer loop of [findCommentKeywords]: one comment. *)
Definition literalComment (doc : TextDocument) (keyword : string)
  (caseSensitive : bool) (m : MatchResult) (ranges : list Range)
  : Completion * list Range :=
  let commentText := matched (chars (getText doc)) m in
  let commentStart := index m in
  match RegExp_new ("\b" ++ escapeRegExp keyword ++ "\b")
                   (flagsFor caseSensitive) with
  | None => (notCompiled ("\b" ++ escapeRegExp keyword ++ "\b"), ranges)
  | Some keywordRegex =>
      pushMatches doc commentStart (fun _ => String.length keyword)
                  keywordRegex commentText ranges
  end.

(** The body of the outer loop of [findRegexKeywords]: one comment. *)
Definition regexComment (doc : TextDocument) (regexPattern : string)
  (caseSensitive : bool) (m : MatchResult) (ranges : list Range)
  : Completion * list Range :=
  let commentText := matched (chars (getText doc)) m in
  let commentStart := index m in
  match RegExp_new regexPattern (flagsFor caseSensitive) with
  | None => (notCompiled regexPattern, ranges)
  | Some userRegex =>
      pushMatches doc commentStart (fun rm => endIndex rm - index rm)
                  userRegex commentText ranges
  end.

(** The messages the two matchers log for an exception they caught. *)
Definition patternError (keyword : string) : string :=
  "Error processing pattern for keyword '" ++ keyword ++ "'".

Definition regexPatternError (regexKeyword : string) : string :=
  "Error processing regex pattern '" ++ regexKeyword ++ "'".

(** The callback of [commentPatterns.forEach]: the loop over the
    comments of one descriptor inside [try], the reset of the cursor
    after it, and the [catch] that logs. *)
Definition scanPattern (doc : TextDocument)
  (comment : MatchResult -> list Range -> Completion * list Range)
  (errorMessage : string) (p : CommentPattern) (ranges : list Range)
  : M (Completion * CommentPattern * list Range) :=
  let text := chars (getText doc) in
  let '(c, R', ranges') :=
    whileExec comment text (List.length text) (pattern p) ranges in
  match c with
  | Normal => ret (Normal, mkPattern (type p) (setLastIndex R' 0), ranges')
  | Throws e =>
      logError errorMessage (Some e) ;;;
      ret (Normal, mkPattern (type p) R', ranges')
  | Diverges => ret (Diverges, mkPattern (type p) R', ranges')
  | Outside => ret (Outside, mkPattern (type p) R', ranges')
  end.

(** [commentPatterns.forEach(pattern => ...)], with the descriptors as
    the calls leave them. *)
Fixpoint forEachPattern
  (f : CommentPattern -> list Range
       -> M (Completion * CommentPattern * list Range))
  (ps : list CommentPattern) (ranges : list Range)
  : M (Completion * list CommentPattern * list Range) :=
  match ps with
  | [] => ret (Normal, [], ranges)
  | p :: rest =>
      r <- f p ranges ;;
      let '(c, p', ranges') := r in
      match c with
      | Normal =>
          r' <- forEachPattern f rest ranges' ;;
          let '(c', rest', ranges'') := r' in
          ret (c', p' :: rest', ranges'')
      | _ => ret (c, p' :: rest, ranges')
      end
  end.

(** [regexKeyword.slice(1, -1)] *)
Definition slice1 (s : string) : string :=
  string_of_list_ascii (removelast (tl (chars s))).

(** [findRegexKeywords(document, regexKeyword, commentPatterns,
    caseSensitive)].  The result is the completion, the descriptors as
    the call leaves them, and the ranges: those returned when the call
    completes, those pushed so far when it never does. *)
Definition findRegexKeywords (doc : TextDocument) (regexKeyword : string)
  (commentPatterns : list CommentPattern) (caseSensitive : bool)
  : M (Completion * list CommentPattern * list Range) :=
  let regexPattern := slice1 regexKeyword in
  forEachPattern
    (scanPattern doc (regexComment doc regexPattern caseSensitive)
       (regexPatternError regexKeyword))
    commentPatterns [].

(** [findCommentKeywords(document, keyword, commentPatterns,
    caseSensitive)] *)
Definition findCommentKeywords (doc : TextDocument) (keyword : string)
  (commentPatterns : list CommentPattern) (caseSensitive : bool)
  : M (Completion * list CommentPattern * list Range) :=
  enableRegex <- config_get "enableRegexKeywords" (JBool false) ;;
  if truthy (Some enableRegex) && isRegexKeyword keyword then
    findRegexKeywords doc keyword commentPatterns caseSensitive
  else
    forEachPattern
      (scanPattern doc (literalComment doc keyword caseSensitive)
         (patternError keyword))
      commentPatterns [].

(** ** The scan: [updateDecorations] *)

Definition setEditor (e : option TextEditor) : M unit := fun w =>
  (tt, mkWorld (logger w) (console w) (errorCount w) (config w)
               (decorationTypes w) e (files w) (toasts w) (scanned w)).

Fixpoint replaceDecorations (ds : list (DecorationType * list Range))
  (h : DecorationType) (ranges : list Range)
  : list (DecorationType * list Range) :=
  match ds with
  | [] => [(h, ranges)]
  | (h', rs) :: rest =>
      if h =? h' then (h, ranges) :: rest
      else (h', rs) :: replaceDecorations rest h ranges
  end.

(** [editor.setDecorations(decorationType, ranges)]: the ranges replace
    those the editor showed for this decoration type. *)
Definition setDecorations (h : DecorationType) (ranges : list Range)
  : M unit := fun w =>
  match activeTextEditor w with
  | Some e =>
      setEditor (Some (mkEditor (document e)
                                (replaceDecorations (decorations e) h ranges)))
                w
  | None => (tt, w)
  end.

(** [clearDecorations(editor)] calls [editor.setDecorations] only for a
    decoration type that has a [setDecorations] method of its own; the
    handles of the renderer have none, so nothing is cleared. *)
Definition clearDecorations : M unit := ret tt.

Definition markScanned (keyword : string) : M unit := fun w =>
  (tt, mkWorld (logger w) (console w) (errorCount w) (config w)
               (decorationTypes w) (activeTextEditor w) (files w) (toasts w)
               (scanned w ++ [keyword])).

Definition getDecorationType (keyword : string) : M (option DecorationType) :=
  fun w => (assoc keyword (decorationTypes w), w).

(** The callback of [Object.keys(validKeywords).forEach] in
    [updateDecorations].  The matcher catches what it throws, so the
    [catch] of the callback has nothing left to log. *)
Definition scanKeyword (doc : TextDocument) (caseSensitive : bool)
  (keyword : string) (commentPatterns : list CommentPattern)
  : M (Completion * list CommentPattern) :=
  dt <- getDecorationType keyword ;;
  match dt with
  | None => ret (Normal, commentPatterns)
  | Some decorationType =>
      markScanned keyword ;;;
      r <- findCommentKeywords doc keyword commentPatterns caseSensitive ;;
      let '(c, commentPatterns', ranges) := r in
      match c with
      | Normal =>
          match ranges with
          | [] => ret (Normal, commentPatterns')
          | _ :: _ =>
              setDecorations decorationType ranges ;;;
              ret (Normal, commentPatterns')
          end
      | Throws e =>
          logError ("Error processing keyword '" ++ keyword ++ "'") (Some e) ;;;
          ret (Normal, commentPatterns')
      | Diverges => ret (Diverges, commentPatterns')
      | Outside => ret (Outside, commentPatterns')
      end
  end.

(** The same callback when [commentPatterns] is an inherited property
    and no array: [commentPatterns.forEach] is no function, the matcher
    catches the [TypeError], logs it and returns no range. *)
Definition scanKeywordInherited (keyword : string) : M unit :=
  dt <- getDecorationType keyword ;;
  match dt with
  | None => ret tt
  | Some _ =>
      markScanned keyword ;;;
      enableRegex <- config_get "enableRegexKeywords" (JBool false) ;;
      logError (if truthy (Some enableRegex) && isRegexKeyword keyword
                then "Error finding regex keywords"
                else "Error finding comment keywords")
               (Some (TypeError "commentPatterns.forEach is not a function"))
  end.

Fixpoint scanKeywordsInherited (keywords : list string) : M unit :=
  match keywords with
  | [] => ret tt
  | keyword :: rest =>
      scanKeywordInherited keyword ;;; scanKeywordsInherited rest
  end.

(** The loop over the keywords; the descriptors are shared by all of
    them. *)
Fixpoint scanKeywords (doc : TextDocument) (caseSensitive : bool)
  (keywords : list string) (commentPatterns : list CommentPattern)
  : M (Completion * list CommentPattern) :=
  match keywords with
  | [] => ret (Normal, commentPatterns)
  | keyword :: rest =>
      r <- scanKeyword doc caseSensitive keyword commentPatterns ;;
      let '(c, commentPatterns') := r in
      match c with
      | Normal => scanKeywords doc caseSensitive rest commentPatterns'
      | _ => ret (c, commentPatterns')
      end
  end.

(** [updateDecorations(editor)], for the active editor. *)
Definition updateDecorations : M Completion :=
  enabled <- config_get "enabled" (JBool true) ;;
  if negb (truthy (Some enabled)) then ret Normal
  else
    editor <- (fun w => (activeTextEditor w, w)) ;;
    match editor with
    | None => ret Normal
    | Some e =>
        match inheritedLength (languageId (document e)) with
        | Some (Some 0) => ret Normal
        | Some _ =>
            keywords <- safeMergeKeywords ;;
            caseSensitive <- config_get "caseSensitive" (JBool false) ;;
            clearDecorations ;;;
            validKeywords <- validateKeywords keywords ;;
            scanKeywordsInherited (map fst validKeywords) ;;;
            ret Normal
        | None =>
            let commentPatterns :=
              getCommentPatterns (languageId (document e)) in
            match commentPatterns with
            | [] => ret Normal
            | _ :: _ =>
                keywords <- safeMergeKeywords ;;
                caseSensitive <- config_get "caseSensitive" (JBool false) ;;
                clearDecorations ;;;
                validKeywords <- validateKeywords keywords ;;
                r <- scanKeywords (document e) (truthy (Some caseSensitive))
                                  (map fst validKeywords) commentPatterns ;;
                ret (fst r)
            end
        end
    end.

(** ** Theme export and import

    A theme file holds the JSON text of a document; [files] maps a path
    to the document its text denotes, or to [None] when the text is not
    JSON.  [JSON.parse] gives back the document [JSON.stringify] wrote. *)

Definition writeFile (uri : string) (content : option JSON) : M unit :=
  fun w =>
  (tt, mkWorld (logger w) (console w) (errorCount w) (config w)
               (decorationTypes w) (activeTextEditor w)
               ((uri, content) :: files w) (toasts w) (scanned w)).

Definition readFile (uri : string) : M (option (option JSON)) :=
  fun w => (assoc uri (files w), w).

(** The theme document [exportTheme] builds from the values it reads;
    [today] is the date part of [new Date().toISOString()]. *)
Definition themeDocument (today : string)
  (keywords customKeywords caseSensitive highlightStyle fontWeight showIcons
   enableRegexKeywords : JSON) : JSON :=
  JObj [ ("name", JStr ("Comment Wizard Theme - " ++ today));
         ("version", JStr "1.0.0");
         ("keywords", keywords);
         ("customKeywords", customKeywords);
         ("settings",
          JObj [ ("caseSensitive", caseSensitive);
                 ("highlightStyle", highlightStyle);
                 ("fontWeight", fontWeight);
                 ("showIcons", showIcons);
                 ("enableRegexKeywords", enableRegexKeywords) ]) ].

Definition themeOf (today : string) : M JSON :=
  keywords <- config_get "keywords" (JObj []) ;;
  customKeywords <- config_get "customKeywords" (JObj []) ;;
  caseSensitive <- config_get "caseSensitive" (JBool false) ;;
  highlightStyle <- config_get "highlightStyle" (JStr "text") ;;
  fontWeight <- config_get "fontWeight" (JStr "bold") ;;
  showIcons <- config_get "showIcons" (JBool false) ;;
  enableRegexKeywords <- config_get "enableRegexKeywords" (JBool false) ;;
  ret (themeDocument today keywords customKeywords caseSensitive
                     highlightStyle fontWeight showIcons enableRegexKeywords).

(** [exportTheme()]; [saveDialog] is the path the user chose in the save
    dialog, if any. *)
Definition exportTheme (today : string) (saveDialog : option string)
  : M unit :=
  theme <- themeOf today ;;
  match saveDialog with
  | Some uri =>
      writeFile uri (Some theme) ;;;
      showToast (InformationMessage ("Theme exported to: " ++ uri))
  | None => ret tt
  end.

(** [if (theme.key) await config.update(key, theme.key, ...)] *)
Definition importMapping (theme : JSON) (key : string) : M unit :=
  match getProp theme key with
  | Some v => if truthy (Some v) then config_update key v else ret tt
  | None => ret tt
  end.

(** [if (settings.key !== undefined) await config.update(key, ...)] *)
Definition importSetting (settings : JSON) (key : string) : M unit :=
  match getProp settings key with
  | Some v => config_update key v
  | None => ret tt
  end.

(** [if (theme.settings) { ... }] *)
Definition importSettings (theme : JSON) : M unit :=
  match getProp theme "settings" with
  | Some settings =>
      if truthy (Some settings) then
        importSetting settings "caseSensitive" ;;;
        importSetting settings "highlightStyle" ;;;
        importSetting settings "fontWeight" ;;;
        importSetting settings "showIcons" ;;;
        importSetting settings "enableRegexKeywords"
      else ret tt
  | None => ret tt
  end.

(** [theme.name || 'Unnamed theme'], as the message shows it. *)
Definition themeName (theme : JSON) : string :=
  match getProp theme "name" with
  | Some n => if truthy (Some n) then JSON_toString n else "Unnamed theme"
  | None => "Unnamed theme"
  end.

(** The [catch] of [importTheme]. *)
Definition importFailed (error : JSError) : M Completion :=
  logError "Error importing theme" (Some error) ;;;
  showToast (ErrorMessage
               "Failed to import theme. Please check the file format.") ;;;
  ret (Throws error).

(** [importTheme()] from the parsed document on. *)
Definition applyTheme (theme : JSON) : M Completion :=
  if negb (truthy (getProp theme "keywords"))
     && negb (truthy (getProp theme "customKeywords"))
  then
    showToast (ErrorMessage "Invalid theme file: missing keywords") ;;;
    ret Normal
  else
    importMapping theme "keywords" ;;;
    importMapping theme "customKeywords" ;;;
    importSettings theme ;;;
    showToast (InformationMessage
                 ("Theme imported successfully: " ++ themeName theme)) ;;;
    ret Normal.

(** [importTheme()]; [openDialog] is the selection of the open dialog.
    Reading a property of [null] throws. *)
Definition importTheme (openDialog : option (list string)) : M Completion :=
  match openDialog with
  | None | Some [] => ret Normal
  | Some (uri :: _) =>
      content <- readFile uri ;;
      match content with
      | None => importFailed (mkError "FileSystemError" "file not found")
      | Some None => importFailed (SyntaxError "Unexpected token in JSON")
      | Some (Some JNull) =>
          importFailed (TypeError "Cannot read properties of null")
      | Some (Some theme) => applyTheme theme
      end
  end.

(** ** The input box of [addCustomKeyword] *)

(** The [validateInput] callback of the keyword prompt: the message it
    shows, or [None] when it accepts the input. *)
Definition keywordInputError (value : string) : option string :=
  if String.eqb value "" || (String.length (trim value) <? 2) then
    Some "Keyword must be at least 2 characters long"
  else if negb (test (regexLiteral "^[a-zA-Z0-9_/-]+$" "") (chars value)) then
    Some "Keyword contains invalid characters"
  else None.

(** ** Notions used by the statements *)

(** The verdict of [validateKeyword], without its log. *)
Definition validEntry (minLength : JSON) (entry : string * JSON) : bool :=
  negb (lessThan (String.length (fst entry)) minLength)
  && test (regexLiteral "^[a-zA-Z0-9_-]+$" "") (chars (fst entry))
  && match snd entry with
     | JStr c => isValidColor c
     | _ => false
     end.

(** The entries of an object come in enumeration order: no key twice,
    and no key that would be enumerated before an earlier one. *)
Fixpoint enumerated (o : Object_) : Prop :=
  match o with
  | [] => True
  | (k, _) :: rest =>
      (forall e, In e rest ->
                 String.eqb (fst e) k = false /\ keyBefore (fst e) k = false)
      /\ enumerated rest
  end.

(** The cursor of a descriptor is at the start, as in a pattern that was
    just created or just reset. *)
Definition rewound (p : CommentPattern) : Prop := lastIndex (pattern p) = 0.

Definition rewind (p : CommentPattern) : CommentPattern :=
  mkPattern (type p) (setLastIndex (pattern p) 0).

(** Whether the pattern of a descriptor finds a comment in the text from
    its cursor on. *)
Definition findsComment (text : string) (p : CommentPattern) : bool :=
  match fst (exec (pattern p) (chars text)) with
  | Some _ => true
  | None => false
  end.

(** A descriptor after a scan of [text] in which the first comment it
    finds makes the matcher throw: the cursor stands behind this
    comment, because the exception skips the reset; a descriptor that
    finds no comment is reset. *)
Definition afterThrow (text : string) (p : CommentPattern) : CommentPattern :=
  match exec (pattern p) (chars text) with
  | (None, R') => mkPattern (type p) (setLastIndex R' 0)
  | (Some _, R') => mkPattern (type p) R'
  end.

Definition hasDecorationType (w : World) (keyword : string) : bool :=
  match assoc keyword (decorationTypes w) with
  | Some _ => true
  | None => false
  end.

(** The settings the theme format carries, as [config.get] reads them. *)
Definition setting (w : World) (key : string) (defaultValue : JSON) : JSON :=
  fst (config_get key defaultValue w).

Record Highlighting : Type := mkHighlighting {
  h_keywords : JSON;
  h_customKeywords : JSON;
  h_caseSensitive : JSON;
  h_highlightStyle : JSON;
  h_fontWeight : JSON;
  h_showIcons : JSON;
  h_enableRegexKeywords : JSON
}.

Definition highlighting (w : World) : Highlighting :=
  mkHighlighting (setting w "keywords" (JObj []))
                 (setting w "customKeywords" (JObj []))
                 (setting w "caseSensitive" (JBool false))
                 (setting w "highlightStyle" (JStr "text"))
                 (setting w "fontWeight" (JStr "bold"))
                 (setting w "showIcons" (JBool false))
                 (setting w "enableRegexKeywords" (JBool false)).

(** Two worlds that differ at most in what was logged. *)
Definition logOnly (w w' : World) : Prop :=
  config w' = config w /\ decorationTypes w' = decorationTypes w /\
  activeTextEditor w' = activeTextEditor w /\ files w' = files w /\
  toasts w' = toasts w /\ scanned w' = scanned w /\
  errorCount w <= errorCount w'.

(** A matcher that hands to its continuation an end index between the
    start index and the end of the input. *)
Definition forward (Input : list ascii) (m : Matcher) : Prop :=
  forall x c z,
    x <= List.length Input -> m x c = Some z ->
    exists y, x <= y /\ y <= List.length Input /\ c y = Some z.

(** What [escapeRegExp] writes for one character. *)
Definition escaped (c : ascii) : list ascii :=
  if isSpecial c then ["\"%char; c] else [c].

(** The pattern of a sequence of characters followed by [tail]. *)
Definition litSeq (cs : list ascii) (tail : regex) : regex :=
  fold_right (fun c r => Seq (Char c) r) tail cs.

(** The pattern the literal matcher compiles for a keyword:
    [\b], the characters of the keyword, [\b]. *)
Definition keywordPattern (keyword : string) : regex :=
  Seq (WordBoundary false)
      (litSeq (chars keyword) (Seq (WordBoundary false) Empty)).

(** A span of the text that covers at least one character, as a range. *)
Definition spanOf (doc : TextDocument) (r : Range) : Prop :=
  exists a b,
    a < b /\ b <= String.length (getText doc)
    /\ r = Range_new (positionAt doc a) (positionAt doc b).

(** An object with the pattern and the flags of [R], at any cursor. *)
Definition samePattern (R R0 : RegExp) : Prop :=
  source R0 = source R /\ flags R0 = flags R.

(** The members of the class [[a-zA-Z0-9_-]]. *)
Definition keywordChar (c : ascii) : bool :=
  classMem [CARange "a" "z"; CARange "A" "Z"; CARange "0" "9";
            CAChar "_"; CAChar "-"] c.

(** A descriptor whose pattern is global and starts with a character:
    its matches are never empty. *)
Definition consuming (p : CommentPattern) : Prop :=
  global (flags (pattern p)) = true
  /\ exists a r, source (pattern p) = Seq (Char a) r.

(** A computation whose effect on the settings is [f]. *)
Definition configStep {A : Type} (m : M A) (f : Object_ -> Object_) : Prop :=
  forall w, config (snd (m w)) = f (config w).

(** The settings after the import of a theme that carries the
    highlighting [h], starting from the settings [cfg]. *)
Definition importedConfig (h : Highlighting) (cfg : Object_) : Object_ :=
  if negb (truthy (Some (h_keywords h)))
     && negb (truthy (Some (h_customKeywords h)))
  then cfg
  else
    let cfg1 := if truthy (Some (h_keywords h))
                then obj_set cfg "keywords" (h_keywords h) else cfg in
    let cfg2 := if truthy (Some (h_customKeywords h))
                then obj_set cfg1 "customKeywords" (h_customKeywords h)
                else cfg1 in
    obj_set
      (obj_set
         (obj_set
            (obj_set
               (obj_set cfg2 "caseSensitive" (h_caseSensitive h))
               "highlightStyle" (h_highlightStyle h))
            "fontWeight" (h_fontWeight h))
         "showIcons" (h_showIcons h))
      "enableRegexKeywords" (h_enableRegexKeywords h).

(** The two settings of the validation, as [validateKeywords] reads
    them. *)
Definition minKeywordLengthOf (w : World) : JSON :=
  setting w "minKeywordLength" (JNum 2).

Definition maxKeywordsOf (w : World) : JSON :=
  setting w "maxKeywords" (JNum 50).

(** The least count that is [>= maxKeywords], when there is one: the
    number of entries that the loop of [validateKeywords] accepts at
    most. *)
Definition capOf (maxKeywords : JSON) : option nat :=
  match ToNumber maxKeywords with
  | NaN => None
  | Infinity negative => if negative then Some 0 else None
  | Finite q => Some (Z.to_nat (Qceiling q))
  end.

(** The first entries of a list, as many as a cap admits once [count]
    entries were accepted. *)
Definition cappedFrom (maxKeywords : JSON) (count : nat) (l : Object_)
  : Object_ :=
  match capOf maxKeywords with
  | Some n => firstn (n - count) l
  | None => l
  end.

Definition capped (maxKeywords : JSON) (l : Object_) : Object_ :=
  cappedFrom maxKeywords 0 l.

(** [n] entries are within the cap: the loop accepts that many. *)
Definition withinCap (maxKeywords : JSON) (n : nat) : Prop :=
  match capOf maxKeywords with
  | Some cap => n <= cap
  | None => True
  end.

(** The entries that assignments to a fresh object store: all but an
    entry named [__proto__]. *)
Definition stored (l : Object_) : Object_ :=
  filter (fun entry => negb (String.eqb (fst entry) "__proto__")) l.

(** Logging [n] errors in a row. *)
Fixpoint logErrors (n : nat) : M unit :=
  match n with
  | 0 => ret tt
  | S n' => logErrors n' ;;; logError "failure" None
  end.

Definition loggerLines (w : World) : list string :=
  match logger w with
  | Some ls => ls
  | None => []
  end.

(** The defaults that [package.json] declares for the settings. *)
Definition packageDefaults : Object_ :=
  [ ("enabled", JBool true);
    ("keywords", JObj getDefaultKeywords);
    ("customKeywords", JObj []);
    ("caseSensitive", JBool false);
    ("highlightStyle", JStr "text");
    ("fontWeight", JStr "bold");
    ("showIcons", JBool false);
    ("regexPatterns", JArr []);
    ("excludeFromEnd", JBool true);
    ("minKeywordLength", JNum 2);
    ("maxKeywords", JNum 50) ].

(** A world right after activation: an output channel without lines, no
    error counted, the settings at their declared defaults. *)
Definition freshWorld : World :=
  mkWorld (Some []) [] 0 packageDefaults [] None [] [] [].

Definition withConfig (cfg : Object_) (w : World) : World :=
  mkWorld (logger w) (console w) (errorCount w) cfg (decorationTypes w)
          (activeTextEditor w) (files w) (toasts w) (scanned w).

(** The user changes one setting. *)
Definition withSetting (key : string) (value : JSON) (w : World) : World :=
  snd (config_update key value w).

Definition newline : string := String (ascii_of_nat 10) EmptyString.


(** ** The validation patterns, character by character *)

Definition isHexDigit (c : ascii) : bool :=
  isDigit c || in_range 65 70 c || in_range 97 102 c.

(** [#] followed by three or by six hexadecimal digits. *)
Definition hexColor (color : string) : bool :=
  match chars color with
  | c :: digits =>
      eqc c "#" && forallb isHexDigit digits
      && ((List.length digits =? 3) || (List.length digits =? 6))
  | [] => false
  end.

(** The members of the class [[a-zA-Z0-9_/-]] of the keyword prompt. *)
Definition promptChar (c : ascii) : bool :=
  classMem [CARange "a" "z"; CARange "A" "Z"; CARange "0" "9";
            CAChar "_"; CAChar "/"; CAChar "-"] c.

(** An entry that passes the validation, told without the patterns: a
    keyword of the required length that is not empty and is made of
    characters of the class, with a hex color. *)
Definition acceptedEntry (minLength : Z) (keyword : string) (color : JSON)
  : bool :=
  (minLength <=? Z.of_nat (String.length keyword))%Z
  && negb (String.eqb keyword "")
  && forallb keywordChar (chars keyword)
  && match color with
     | JStr c => hexColor c
     | _ => false
     end.

(** The character test of a class or character matcher. *)
Definition accepts (fl : Flags) (mem : ascii -> bool) (invert : bool)
  (ch : ascii) : bool :=
  xorb invert (found fl mem ch).

(** The continuation of a pattern that ends with [$]. *)
Definition atEnd (Input : list ascii) : MatcherContinuation :=
  fun y => if List.length Input <=? y then Some y else None.

(** Whether the input begins with the characters [l], each matched as a
    pattern character is: exactly, or up to case with [ignoreCase]. *)
Fixpoint spells (fl : Flags) (l input : list ascii) : bool :=
  match l with
  | [] => true
  | k :: l' =>
      match input with
      | ch :: input' => accepts fl (Ascii.eqb k) false ch && spells fl l' input'
      | [] => false
      end
  end.

(** ** What the literal matcher reports, what the editor shows *)

(** [\b] holds at [i]: one side of the position is a word character,
    the other is not. *)
Definition wordBoundaryAt (input : list ascii) (i : nat) : bool :=
  xorb (IsWordChar input i true) (IsWordChar input i false).

(** The range of an occurrence of [keyword] in a comment: the pattern of
    a descriptor of [ps] matches the text from [commentStart] to
    [commentEnd]; inside this comment, from offset [a] of the text on,
    the text spells the keyword, exactly or up to case, between two word
    boundaries of the comment. *)
Definition keywordInComment (doc : TextDocument) (keyword : string)
  (caseSensitive : bool) (ps : list CommentPattern) (r : Range) : Prop :=
  let text := chars (getText doc) in
  exists p commentStart commentEnd a,
    In p ps
    /\ matchAt text (flags (pattern p)) (source (pattern p)) commentStart
       = Some commentEnd
    /\ commentStart <= a
    /\ a + String.length keyword <= commentEnd
    /\ commentEnd <= List.length text
    /\ spells (mkFlags true (negb caseSensitive) false) (chars keyword)
              (skipn a text) = true
    /\ (let comment := matched text (mkMatch commentStart commentEnd) in
        wordBoundaryAt comment (a - commentStart) = true
        /\ wordBoundaryAt comment (a - commentStart + String.length keyword)
           = true)
    /\ r = Range_new (positionAt doc a)
                     (positionAt doc (a + String.length keyword)).

(** The ranges an editor shows for a decoration type. *)
Fixpoint decorationsOf (ds : list (DecorationType * list Range))
  (h : DecorationType) : list Range :=
  match ds with
  | [] => []
  | (h', ranges) :: rest => if h =? h' then ranges else decorationsOf rest h
  end.

Definition shown (w : World) (h : DecorationType) : list Range :=
  match activeTextEditor w with
  | Some e => decorationsOf (decorations e) h
  | None => []
  end.

(** What a scan leaves alone: the settings, the decoration types, the
    files, the messages and the document of the editor; and a
    decoration type that showed ranges still shows some. *)
Definition keepsDecorations (w w' : World) : Prop :=
  config w' = config w
  /\ decorationTypes w' = decorationTypes w
  /\ files w' = files w
  /\ toasts w' = toasts w
  /\ option_map document (activeTextEditor w')
     = option_map document (activeTextEditor w)
  /\ forall h, shown w h <> [] -> shown w' h <> [].

(** The range of a match of a regex keyword in a comment: the pattern
    of a descriptor of [ps] matches the text from [commentStart] to
    [commentEnd]; the pattern between the slashes of the keyword, with
    [ignoreCase] exactly when the scan is not case sensitive, matches
    this comment from its offset [i] to its offset [e]; the range runs
    from the first to the last matched character, counted from the start
    of the text. *)
Definition regexMatchInComment (doc : TextDocument) (regexKeyword : string)
  (caseSensitive : bool) (ps : list CommentPattern) (range : Range) : Prop :=
  let text := chars (getText doc) in
  exists p commentStart commentEnd r i e,
    In p ps
    /\ matchAt text (flags (pattern p)) (source (pattern p)) commentStart
       = Some commentEnd
    /\ commentStart <= commentEnd
    /\ commentEnd <= List.length text
    /\ parsePattern (slice1 regexKeyword) = Some r
    /\ matchAt (matched text (mkMatch commentStart commentEnd))
               (mkFlags true (negb caseSensitive) false) r i
       = Some e
    /\ i <= e
    /\ commentStart + e <= commentEnd
    /\ range = Range_new (positionAt doc (commentStart + i))
                         (positionAt doc (commentStart + e)).

(** A piece of code that ends, normally or by throwing. *)
Definition ends (c : Completion) : Prop :=
  match c with
  | Normal | Throws _ => True
  | Diverges | Outside => False
  end.

(** ** Decoration types

    The renderer of the host keeps the decoration types that exist, each
    under a key of its own and with the render options it was created
    with; disposing of a type removes it and every decoration that an
    editor shows with it. *)

(** A string with code units from 256 on, as its UTF-16 code units. *)
Definition CodeUnits : Type := list N.

Record DecorationOptions : Type := mkOptions {
  fontWeight : JSON;
  before : option (CodeUnits * string);     (* contentText, margin *)
  backgroundColor : option string;
  border : option string;
  textDecoration : option string;
  color : option JSON
}.

Record Renderer : Type := mkRenderer {
  live : list (DecorationType * DecorationOptions);
  nextKey : nat
}.

Record Host : Type := mkHost {
  world : World;
  renderer : Renderer
}.

(** A computation of the extension, run in the world of a host. *)
Definition inWorld {A : Type} (m : M A) (host : Host) : A * Host :=
  let '(a, w) := m (world host) in (a, mkHost w (renderer host)).

(** [vscode.window.createTextEditorDecorationType(options)] *)
Definition createTextEditorDecorationType (options : DecorationOptions)
  (host : Host) : DecorationType * Host :=
  let r := renderer host in
  (nextKey r,
   mkHost (world host)
          (mkRenderer (live r ++ [(nextKey r, options)]) (S (nextKey r)))).

Definition withoutType {A : Type} (dt : DecorationType)
  (l : list (DecorationType * A)) : list (DecorationType * A) :=
  filter (fun entry => negb (fst entry =? dt)) l.

(** [decorationType.dispose()] *)
Definition dispose (dt : DecorationType) (host : Host) : Host :=
  let w := world host in
  let r := renderer host in
  mkHost (mkWorld (logger w) (console w) (errorCount w) (config w)
                  (decorationTypes w)
                  (option_map
                     (fun e => mkEditor (document e)
                                        (withoutType dt (decorations e)))
                     (activeTextEditor w))
                  (files w) (toasts w) (scanned w))
         (mkRenderer (withoutType dt (live r)) (nextKey r)).

(** [keyword.toUpperCase()].  Below 128 this is the mapping of the
    letters; from 128 on the upper case of a character is again from 128
    on (or, for U+00DF, the two letters SS), and what the model writes
    there makes no difference to the lookup in [iconMap], no key of
    which holds such a character or SS. *)
Definition toUpperCase (s : string) : string :=
  string_of_list_ascii (map toUpper (chars s)).

(** The icons, as the source file holds them. *)
Definition iconMap : list (string * CodeUnits) :=
  [ ("TODO", [240; 376; 8220]%N);
    ("FIXME", [240; 376; 8221; 167]%N);
    ("NOTE", [240; 376; 8220]%N);
    ("WARNING", [226; 353; 160; 239; 184]%N);
    ("HACK", [240; 376; 8221; 168]%N);
    ("BUG", [240; 376; 8250]%N);
    ("REVIEW", [240; 376; 8216; 8364]%N);
    ("DEPRECATED", [226; 353; 160; 239; 184]%N) ].

(** [getIconForKeyword(keyword)].  An upper-cased keyword names no
    property that [iconMap] inherits, so the lookup is one among the
    properties above. *)
Definition getIconForKeyword (keyword : string) : CodeUnits :=
  match assoc (toUpperCase keyword) iconMap with
  | Some (c :: icon) => c :: icon
  | _ => [240; 376; 8220; 338]%N
  end.

(** [createDecorationOptions(keyword, color, highlightStyle, fontWeight,
    showIcons)].  [color + '33'] and the template strings turn the color
    into a string. *)
Definition createDecorationOptions (keyword : string)
  (color highlightStyle fontWeight showIcons : JSON) : DecorationOptions :=
  let weight := if truthy (Some fontWeight) then fontWeight else JStr "bold" in
  let icon :=
    if truthy (Some showIcons) then
      match getIconForKeyword keyword with
      | [] => None
      | contentText => Some (contentText, "0 4px 0 0")
      end
    else None in
  match highlightStyle with
  | JStr style =>
      if String.eqb style "background" then
        mkOptions weight icon (Some (JSON_toString color ++ "33")%string) None None
                  (Some color)
      else if String.eqb style "border" then
        mkOptions weight icon None (Some ("1px solid " ++ JSON_toString color)%string)
                  None (Some color)
      else if String.eqb style "underline" then
        mkOptions weight icon None None
                  (Some ("underline " ++ JSON_toString color)%string) (Some color)
      else mkOptions weight icon None None None (Some color)
  | _ => mkOptions weight icon None None None (Some color)
  end.

(** [map.set(key, value)] on a [Map]: a key that exists keeps its place,
    a new key comes last. *)
Fixpoint Map_set {A : Type} (m : list (string * A)) (key : string) (value : A)
  : list (string * A) :=
  match m with
  | [] => [(key, value)]
  | (k, v) :: rest =>
      if String.eqb key k then (key, value) :: rest
      else (k, v) :: Map_set rest key value
  end.

Definition setDecorationTypes (dts : list (string * DecorationType))
  (host : Host) : Host :=
  let w := world host in
  mkHost (mkWorld (logger w) (console w) (errorCount w) (config w) dts
                  (activeTextEditor w) (files w) (toasts w) (scanned w))
         (renderer host).

(** The first part of [updateDecorationTypes]: every decoration type of
    the extension is disposed of, and the map is emptied. *)
Definition disposeDecorationTypes (host : Host) : Host :=
  setDecorationTypes []
    (fold_left (fun hst entry => dispose (snd entry) hst)
               (decorationTypes (world host)) host).

(** The callback of [Object.entries(validKeywords).forEach]: a decoration
    type for one keyword. *)
Definition createDecoration (highlightStyle fontWeight showIcons : JSON)
  (host : Host) (entry : string * JSON) : Host :=
  let '(keyword, color) := entry in
  let decorationOptions :=
    createDecorationOptions keyword color highlightStyle fontWeight
                            showIcons in
  let '(decorationType, host1) :=
    createTextEditorDecorationType decorationOptions host in
  setDecorationTypes
    (Map_set (decorationTypes (world host1)) keyword decorationType) host1.

(** [updateDecorationTypes()].  Nothing in it throws, so its [catch]
    blocks log nothing. *)
Definition updateDecorationTypes (host : Host) : Host :=
  let host1 := disposeDecorationTypes host in
  let '(keywords, host2) := inWorld safeMergeKeywords host1 in
  let '(highlightStyle, host3) :=
    inWorld (config_get "highlightStyle" (JStr "text")) host2 in
  let '(fontWeight, host4) :=
    inWorld (config_get "fontWeight" (JStr "bold")) host3 in
  let '(showIcons, host5) :=
    inWorld (config_get "showIcons" (JBool false)) host4 in
  let '(validKeywords, host6) := inWorld (validateKeywords keywords) host5 in
  fold_left (createDecoration highlightStyle fontWeight showIcons)
            validKeywords host6.

(** The listener of [onDidChangeConfiguration]; [affects] is
    [event.affectsConfiguration('commentWizard')].  [updateDecorations]
    catches what it throws, so the [catch] of the listener logs
    nothing. *)
Definition onDidChangeConfiguration (affects : bool) (host : Host)
  : Completion * Host :=
  if affects then
    let host1 := updateDecorationTypes host in
    match activeTextEditor (world host1) with
    | Some _ => inWorld updateDecorations host1
    | None => (Normal, host1)
    end
  else (Normal, host).

(** ** Notions about decoration types *)

(** The keys the renderer has given out are below [nextKey]. *)
Definition issued (host : Host) (dt : DecorationType) : Prop :=
  dt < nextKey (renderer host).

(** A host in order: the keys of the decoration types that are
    registered, that exist, or that the editor shows ranges for, were
    given out by the renderer; and every decoration type that exists is
    registered under a keyword. *)
Definition hostOk (host : Host) : Prop :=
  (forall entry, In entry (decorationTypes (world host)) ->
                 issued host (snd entry))
  /\ (forall entry, In entry (live (renderer host)) ->
                    issued host (fst entry)
                    /\ In (fst entry)
                          (map snd (decorationTypes (world host))))
  /\ (forall e entry,
        activeTextEditor (world host) = Some e ->
        In entry (decorations e) -> issued host (fst entry)).

(** The validated keyword set of a world. *)
Definition validKeywordsOf (w : World) : Object_ :=
  fst (validateKeywords (fst (safeMergeKeywords w)) (snd (safeMergeKeywords w))).

(** The world once the keywords of the settings are merged and
    validated: what the validation rejects is logged. *)
Definition validatedWorld (w : World) : World :=
  snd (validateKeywords (fst (safeMergeKeywords w)) (snd (safeMergeKeywords w))).

(** The decoration types [updateDecorationTypes] registers for a
    keyword mapping, when the renderer's next key is [n]: one key after
    the other, in the order of the mapping. *)
Fixpoint numbered (n : nat) (entries : Object_)
  : list (string * DecorationType) :=
  match entries with
  | [] => []
  | (keyword, _) :: rest => (keyword, n) :: numbered (S n) rest
  end.

(** The same decoration types with their render options. *)
Fixpoint styled (highlightStyle fontWeight showIcons : JSON) (n : nat)
  (entries : Object_) : list (DecorationType * DecorationOptions) :=
  match entries with
  | [] => []
  | (keyword, c) :: rest =>
      (n, createDecorationOptions keyword c highlightStyle fontWeight
                                  showIcons)
      :: styled highlightStyle fontWeight showIcons (S n) rest
  end.

(** A list of decorations or of decoration types without those of the
    keys [dts]. *)
Definition withoutTypes {A : Type} (dts : list DecorationType)
  (l : list (DecorationType * A)) : list (DecorationType * A) :=
  filter (fun entry => negb (existsb (Nat.eqb (fst entry)) dts)) l.

(** The ranges the literal matcher returns for a keyword.  They do not
    depend on the world: in literal mode the matcher logs nothing. *)
Definition literalRanges (doc : TextDocument) (keyword : string)
  (commentPatterns : list CommentPattern) (caseSensitive : bool)
  : list Range :=
  snd (fst (forEachPattern
              (scanPattern doc (literalComment doc keyword caseSensitive)
                           (patternError keyword))
              commentPatterns [] freshWorld)).

(** ** The commands

    The dialogs of the host.  An input box with a [validateInput]
    callback accepts only a value for which the callback returns no
    message; a quick pick and a message with buttons return one of
    their items.  The argument [typed], [picked] or [answer] is what
    the user does with the dialog, [None] when it is dismissed. *)

Definition showInputBox (validateInput : string -> option string)
  (typed : option string) : option string :=
  match typed with
  | Some value =>
      match validateInput value with
      | None => Some value
      | Some _ => None
      end
  | None => None
  end.

Definition showQuickPick (items : list string) (picked : option string)
  : option string :=
  match picked with
  | Some item => if existsb (String.eqb item) items then Some item else None
  | None => None
  end.

Definition showWarningMessage (items : list string) (answer : option string)
  : option string :=
  showQuickPick items answer.

(** The [validateInput] callback of the color prompt. *)
Definition colorInputError (value : string) : option string :=
  if isValidColor value then None
  else Some "Please enter a valid hex color (e.g., #FF0000)".

(** The property names that every object inherits. *)
Definition inheritedProperty (key : string) : bool :=
  existsb (String.eqb key)
    [ "constructor"; "__defineGetter__"; "__defineSetter__";
      "hasOwnProperty"; "__lookupGetter__"; "__lookupSetter__";
      "isPrototypeOf"; "propertyIsEnumerable"; "toString"; "valueOf";
      "__proto__"; "toLocaleString" ].

Definition RangeError (msg : string) : JSError := mkError "RangeError" msg.

(** [target[key] = value] for a string [value], in a script that is not
    in strict mode: [inl] is the exception it throws, [inr] the target
    afterwards.  Assigning to a property of [null] throws; assigning to
    a property of a boolean, a number or a string does nothing; on an
    object, [__proto__] names the inherited accessor, which ignores a
    string, unless the object has a property of this name itself.  An
    array as target is outside the model ([None]). *)
Definition assignString (target : JSON) (key value : string)
  : option (JSError + JSON) :=
  match target with
  | JNull => Some (inl (TypeError "Cannot set properties of null"))
  | JBool _ | JNum _ | JStr _ => Some (inr target)
  | JArr _ => None
  | JObj props =>
      if String.eqb key "__proto__"
         && match assoc key props with
            | Some _ => false
            | None => true
            end
      then Some (inr target)
      else Some (inr (JObj (obj_set props key (JStr value))))
  end.

(** [addCustomKeyword()]; [typedKeyword] and [typedColor] are what the
    user enters in the two prompts.  The result is [None] when the
    [customKeywords] setting holds an array. *)
Definition addCustomKeyword (typedKeyword typedColor : option string)
  : M (option Completion) :=
  match showInputBox keywordInputError typedKeyword with
  | None => ret (Some Normal)
  | Some keyword =>
      if String.eqb keyword "" then ret (Some Normal)
      else
        match showInputBox colorInputError typedColor with
        | None => ret (Some Normal)
        | Some c =>
            if String.eqb c "" then ret (Some Normal)
            else
              customKeywords <- config_get "customKeywords" (JObj []) ;;
              match assignString customKeywords (trim keyword) (trim c) with
              | None => ret None
              | Some (inl error) =>
                  logError "Error adding custom keyword" (Some error) ;;;
                  ret (Some (Throws error))
              | Some (inr customKeywords') =>
                  config_update "customKeywords" customKeywords' ;;;
                  showToast (InformationMessage
                               ("Added keyword: " ++ keyword
                                ++ " with color " ++ c)) ;;;
                  ret (Some Normal)
              end
        end
  end.

(** The own enumerable properties that [{...v}] copies, for any value:
    those of a string are its characters, under their indices. *)
Definition ownEntriesOf (v : JSON) : Object_ :=
  match v with
  | JStr s =>
      ownEntries (JArr (map (fun c => JStr (String c EmptyString)) (chars s)))
  | _ => ownEntries v
  end.

(** [{ ...a, ...b }] for any two values. *)
Definition spread (a b : JSON) : Object_ :=
  fold_left (fun o '(k, v) => obj_set o k v) (ownEntriesOf b)
            (fold_left (fun o '(k, v) => obj_set o k v) (ownEntriesOf a) []).

(** [delete o[key]] *)
Definition obj_delete (o : Object_) (key : string) : Object_ :=
  filter (fun entry => negb (String.eqb key (fst entry))) o.

(** [if (o[key])] for an object [o]: the property itself, or the one
    that every object inherits under this name, which counts as
    true. *)
Definition truthyProperty (o : Object_) (key : string) : bool :=
  match assoc key o with
  | Some v => truthy (Some v)
  | None => inheritedProperty key
  end.

(** [removeKeyword()]; [picked] is what the user picks in the list of
    keywords.  The result is [None] when the [customKeywords] setting
    holds neither an object nor [null]. *)
Definition removeKeyword (picked : option string) : M (option Completion) :=
  keywords <- config_get "keywords" (JObj []) ;;
  customKeywords <- config_get "customKeywords" (JObj []) ;;
  match customKeywords with
  | JBool _ | JNum _ | JStr _ | JArr _ => ret None
  | JNull | JObj _ =>
      let allKeywords := spread keywords customKeywords in
      let keywordList := map fst allKeywords in
      match keywordList with
      | [] =>
          showToast (InformationMessage "No keywords to remove") ;;;
          ret (Some Normal)
      | _ :: _ =>
          match showQuickPick keywordList picked with
          | None => ret (Some Normal)
          | Some selectedKeyword =>
              if String.eqb selectedKeyword "" then ret (Some Normal)
              else
                match customKeywords with
                | JObj props =>
                    if truthyProperty props selectedKeyword then
                      config_update "customKeywords"
                        (JObj (obj_delete props selectedKeyword)) ;;;
                      showToast (InformationMessage
                                   ("Removed keyword: " ++ selectedKeyword)) ;;;
                      ret (Some Normal)
                    else
                      showToast
                        (WarningMessage
                           ("Cannot remove built-in keyword: "
                            ++ selectedKeyword
                            ++ ". You can override it by adding a custom keyword with the same name.")) ;;;
                      ret (Some Normal)
                | _ =>
                    let error :=
                      TypeError "Cannot read properties of null" in
                    logError "Error removing keyword" (Some error) ;;;
                    ret (Some (Throws error))
                end
          end
      end
  end.

(** [resetToDefault()]; [answer] is the button the user presses. *)
Definition resetToDefault (answer : option string) : M Completion :=
  match showWarningMessage ["Yes"; "No"] answer with
  | Some result =>
      if String.eqb result "Yes" then
        config_update "keywords" (JObj getDefaultKeywords) ;;;
        config_update "customKeywords" (JObj []) ;;;
        config_update "caseSensitive" (JBool false) ;;;
        config_update "highlightStyle" (JStr "text") ;;;
        config_update "fontWeight" (JStr "bold") ;;;
        config_update "showIcons" (JBool false) ;;;
        config_update "enableRegexKeywords" (JBool false) ;;;
        showToast (InformationMessage
                     "Comment Wizard settings reset to default values") ;;;
        ret Normal
      else ret Normal
  | None => ret Normal
  end.

(** The callback that [registerCommands] registers for a command: what
    the command throws is logged and shown, and goes no further. *)
Definition commandCallback (what failure : string)
  (command : M (option Completion)) : M (option Completion) :=
  r <- command ;;
  match r with
  | Some (Throws error) =>
      logError ("Error in " ++ what ++ " command") (Some error) ;;;
      showToast (ErrorMessage
                   ("Failed to " ++ failure ++ ". See output for details.")) ;;;
      ret (Some Normal)
  | _ => ret r
  end.

(** A command that is modelled for every value of the settings. *)
Definition total (command : M Completion) : M (option Completion) :=
  c <- command ;; ret (Some c).

Definition addKeywordCommand (typedKeyword typedColor : option string)
  : M (option Completion) :=
  commandCallback "add keyword" "add keyword"
                  (addCustomKeyword typedKeyword typedColor).

Definition removeKeywordCommand (picked : option string)
  : M (option Completion) :=
  commandCallback "remove keyword" "remove keyword" (removeKeyword picked).

Definition exportThemeCommand (today : string) (saveDialog : option string)
  : M (option Completion) :=
  commandCallback "export theme" "export theme"
                  (total (exportTheme today saveDialog ;;; ret Normal)).

Definition importThemeCommand (openDialog : option (list string))
  : M (option Completion) :=
  commandCallback "import theme" "import theme"
                  (total (importTheme openDialog)).

Definition resetCommand (answer : option string) : M (option Completion) :=
  commandCallback "reset" "reset to default" (total (resetToDefault answer)).

(** The highlighting that [package.json] declares. *)
Definition defaultHighlighting : Highlighting :=
  mkHighlighting (JObj getDefaultKeywords) (JObj []) (JBool false)
                 (JStr "text") (JStr "bold") (JBool false) (JBool false).

(** The settings that a theme carries and that a reset writes. *)
Definition themeKeys : list string :=
  [ "keywords"; "customKeywords"; "caseSensitive"; "highlightStyle";
    "fontWeight"; "showIcons"; "enableRegexKeywords" ].

(** Whether an import of [theme] writes the setting [key]: the two
    keyword mappings are written when they count as true, the five
    settings when [theme.settings] counts as true and has the key. *)
Definition carries (theme : JSON) (key : string) : bool :=
  if String.eqb key "keywords" || String.eqb key "customKeywords" then
    truthy (getProp theme key)
  else if existsb (String.eqb key)
                  [ "caseSensitive"; "highlightStyle"; "fontWeight";
                    "showIcons"; "enableRegexKeywords" ] then
    match getProp theme "settings" with
    | Some settings =>
        truthy (Some settings)
        && match getProp settings key with
           | Some _ => true
           | None => false
           end
    | None => false
    end
  else false.
(* ================================================================== *)
(** * Part II: properties *)
(* ================================================================== *)

(** ** The literals of the source parse *)

Lemma literals_parse :
  Forall (fun p => parsePattern p <> None)
    [ "^#([0-9A-F]{3}|[0-9A-F]{6})$"; "^[a-zA-Z0-9_-]+$"; "^[a-zA-Z0-9_/-]+$";
      "\/\/.*$"; "\/\*[\s\S]*?\*\/"; "#.*$"; "--.*$";
      (quote3 ++ "[\s\S]*?" ++ quote3)%string; "'''[\s\S]*?'''";
      "<!--[\s\S]*?-->"; "=begin[\s\S]*?=end"; "--\[\[[\s\S]*?\]\]" ].
Proof.
  repeat constructor; vm_compute; discriminate.
Qed.

(** ** Association lists and objects *)

Lemma assoc_obj_set_same (o : Object_) (k : string) (v : JSON) :
  assoc k (obj_set o k v) = Some v.
Proof.
  induction o as [|[k' v'] rest IH]; simpl.
  - now rewrite String.eqb_refl.
  - destruct (String.eqb k k') eqn:E; simpl.
    + now rewrite String.eqb_refl.
    + destruct (keyBefore k k' && _); simpl.
      * now rewrite String.eqb_refl.
      * now rewrite E.
Qed.

Lemma assoc_obj_set_other (o : Object_) (k k2 : string) (v : JSON) :
  String.eqb k2 k = false -> assoc k2 (obj_set o k v) = assoc k2 o.
Proof.
  intros Hne. induction o as [|[k' v'] rest IH]; simpl.
  - now rewrite Hne.
  - destruct (String.eqb k k') eqn:E; simpl.
    + apply String.eqb_eq in E. subst k'. now rewrite Hne.
    + destruct (keyBefore k k' && _); simpl.
      * now rewrite Hne.
      * now rewrite IH.
Qed.

(** ** The logger *)

Lemma logOnly_refl (w : World) : logOnly w w.
Proof. unfold logOnly; repeat split; auto. Qed.

Lemma logOnly_trans (w1 w2 w3 : World) :
  logOnly w1 w2 -> logOnly w2 w3 -> logOnly w1 w3.
Proof.
  unfold logOnly; intros (A1 & A2 & A3 & A4 & A5 & A6 & A7)
                         (B1 & B2 & B3 & B4 & B5 & B6 & B7).
  repeat split; try congruence; lia.
Qed.

Lemma logError_errorCount (message : string) (error : option JSError)
  (w : World) :
  errorCount (snd (logError message error w)) = S (errorCount w).
Proof.
  unfold logError, bind, appendLine, console_error, incrErrorCount, ret.
  destruct error; simpl; destruct (MAX_ERRORS <? S (errorCount w)); reflexivity.
Qed.

Lemma logError_logOnly (message : string) (error : option JSError)
  (w : World) :
  logOnly w (snd (logError message error w)).
Proof.
  unfold logOnly. rewrite logError_errorCount.
  unfold logError, bind, appendLine, console_error, incrErrorCount, ret.
  destruct error; simpl; destruct (MAX_ERRORS <? S (errorCount w)); simpl;
    repeat split; auto.
Qed.

(** Whatever the error count, a call appends the message of the new error
    to the output channel. *)
Lemma logError_always_appends (message : string) (error : option JSError)
  (w : World) (ls : list string) :
  logger w = Some ls ->
  exists more,
    logger (snd (logError message error w))
    = Some (ls ++ ("[ERROR] " ++ message)%string :: more).
Proof.
  intros Hl.
  unfold logError, bind, appendLine, console_error, incrErrorCount, ret.
  destruct error; simpl; destruct (MAX_ERRORS <? S (errorCount w)); simpl;
    rewrite Hl; simpl; rewrite <- ?app_assoc; simpl; eexists; reflexivity.
Qed.

(** C5.  The cap does not hold: the counter is compared with
    [MAX_ERRORS] only after the lines of the new error were appended, and
    exceeding it appends one more line.  Twelfth report in a row. *)
Theorem logError_appends_beyond_the_cap :
  let w := snd (logErrors 11 freshWorld) in
  errorCount w = 11 /\
  MAX_ERRORS < errorCount w /\
  loggerLines (snd (logError "one more failure" None w))
  = loggerLines w
    ++ [ "[ERROR] one more failure";
         "[ERROR] Too many errors (12), stopping logging" ].
Proof.
  vm_compute. repeat split; auto.
Qed.

(** ** Keyword validation *)

Lemma bind_ret_fst {A B : Type} (m : M A) (b : B) (w : World) :
  fst (bind m (fun _ => ret b) w) = b.
Proof. unfold bind, ret. now destruct (m w). Qed.

Lemma bind_ret_snd {A B : Type} (m : M A) (b : B) (w : World) :
  snd (bind m (fun _ => ret b) w) = snd (m w).
Proof. unfold bind, ret. now destruct (m w). Qed.

Lemma validateKeyword_verdict (keyword : string) (color minLength : JSON)
  (w : World) :
  fst (validateKeyword keyword color minLength w)
  = validEntry minLength (keyword, color).
Proof.
  unfold validateKeyword, validEntry; cbn [fst snd].
  destruct (lessThan (String.length keyword) minLength); cbn [negb andb].
  - now rewrite bind_ret_fst.
  - destruct (test _ (chars keyword)); cbn [negb andb].
    + destruct color as [|b|n|c|items|props]; try now rewrite bind_ret_fst.
      destruct (isValidColor c); [reflexivity | now rewrite bind_ret_fst].
    + now rewrite bind_ret_fst.
Qed.

(** Against an integer the comparison is the comparison of integers. *)
Lemma lessThan_integer (n : nat) (z : Z) :
  lessThan n (JNum (inject_Z z)) = (Z.of_nat n <? z)%Z.
Proof.
  unfold lessThan. cbn [ToNumber]. rewrite Z.ltb_antisym. f_equal.
  unfold Qle_bool. cbn [Qnum Qden inject_Z]. now rewrite !Z.mul_1_r.
Qed.

Lemma validateKeyword_logOnly (keyword : string) (color minLength : JSON)
  (w : World) :
  logOnly w (snd (validateKeyword keyword color minLength w)).
Proof.
  unfold validateKeyword.
  destruct (lessThan (String.length keyword) minLength).
  - rewrite bind_ret_snd. apply logError_logOnly.
  - destruct (negb _).
    + rewrite bind_ret_snd. apply logError_logOnly.
    + destruct color as [|b|n|c|items|props];
        try (rewrite bind_ret_snd; apply logError_logOnly).
      destruct (isValidColor c).
      * apply logOnly_refl.
      * rewrite bind_ret_snd. apply logError_logOnly.
Qed.

(** C1.  The validation asks for the literal charset in every case: a
    well-formed [/pattern/] wrapper with a valid color is rejected,
    although the rule of the specification accepts it and the keyword
    prompt of [addCustomKeyword] lets it through. *)
Theorem validateKeyword_rejects_regex_wrapper :
  forall w : World,
    fst (validateKeyword "/abc/" (JStr "#FF0000") 2 w) = false /\
    isRegexKeyword "/abc/" = true /\
    isValidColor "#FF0000" = true /\
    spec_validKeyword "/abc/" (JStr "#FF0000") 2 = true /\
    keywordInputError "/abc/" = None.
Proof.
  intro w. rewrite validateKeyword_verdict. vm_compute. repeat split; auto.
Qed.

(** ** The matcher on the examples of the specification *)

Lemma literal_mode (doc : TextDocument) (keyword : string)
  (commentPatterns : list CommentPattern) (caseSensitive : bool) (w : World) :
  truthy (Some (setting w "enableRegexKeywords" (JBool false)))
  && isRegexKeyword keyword = false ->
  findCommentKeywords doc keyword commentPatterns caseSensitive w
  = forEachPattern
      (scanPattern doc (literalComment doc keyword caseSensitive)
         (patternError keyword))
      commentPatterns [] w.
Proof.
  intros H. unfold findCommentKeywords, bind, config_get.
  unfold setting, config_get in H. cbn [fst] in H. now rewrite H.
Qed.

Lemma regex_mode (doc : TextDocument) (keyword : string)
  (commentPatterns : list CommentPattern) (caseSensitive : bool) (w : World) :
  truthy (Some (setting w "enableRegexKeywords" (JBool false))) = true ->
  isRegexKeyword keyword = true ->
  findCommentKeywords doc keyword commentPatterns caseSensitive w
  = findRegexKeywords doc keyword commentPatterns caseSensitive w.
Proof.
  intros H1 H2. unfold findCommentKeywords, bind, config_get.
  unfold setting, config_get in H1. cbn [fst] in H1. now rewrite H1, H2.
Qed.

(** C2.  Over the JavaScript descriptors, the literal keyword [TODO],
    case-insensitive, is found once in the text of the specification:
    the span of offsets 3 to 7, the [TODO] of the first line.  [TODOX] in
    the second comment gives no span. *)
Theorem findCommentKeywords_TODO_example :
  forall w : World,
    let doc :=
      mkDocument ("// TODO: fix this" ++ newline
                  ++ "let x = 5; // not a comment marker TODOX")
                 "javascript" in
    findCommentKeywords doc "TODO" (getCommentPatterns "javascript") false w
    = (Normal, getCommentPatterns "javascript",
       [Range_new (positionAt doc 3) (positionAt doc 7)], w)
    /\ substring 3 (7 - 3) (getText doc) = "TODO"
    /\ positionAt doc 3 = mkPosition 0 3
    /\ positionAt doc 7 = mkPosition 0 7
    /\ substring 53 5 (getText doc) = "TODOX"
    /\ RegExp_new ("\b" ++ escapeRegExp "TODO" ++ "\b") (flagsFor false)
       = Some (mkRegExp
                 (Seq (WordBoundary false)
                      (Seq (Char "T") (Seq (Char "O") (Seq (Char "D")
                      (Seq (Char "O") (Seq (WordBoundary false) Empty))))))
                 (mkFlags true true false) 0).
Proof.
  intros w doc. split.
  - rewrite literal_mode.
    + vm_compute. reflexivity.
    + replace (isRegexKeyword "TODO") with false by reflexivity.
      apply andb_false_r.
  - vm_compute. repeat split; reflexivity.
Qed.

(** ** The matcher moves forward and stays inside the input *)

Section Engine.

Variable Input : list ascii.
Variable fl : Flags.

Lemma CharacterSetMatcher_forward (mem : ascii -> bool) (invert : bool) :
  forward Input (CharacterSetMatcher Input fl mem invert).
Proof.
  intros x c z Hx H. unfold CharacterSetMatcher in H.
  destruct (nth_error Input x) as [ch|] eqn:E; [|discriminate].
  destruct (xorb invert _); [|discriminate].
  assert (x < List.length Input) by (apply nth_error_Some; congruence).
  exists (S x). repeat split; auto; lia.
Qed.

Lemma RepeatMatcher_forward (m : Matcher) :
  forward Input m ->
  forall fuel min max greedy,
    forward Input (fun x c => RepeatMatcher m fuel min max greedy x c).
Proof.
  intros Hm fuel.
  induction fuel as [|fuel IH]; intros min max greedy x c z Hx H.
  - discriminate.
  - simpl in H.
    assert (Hd : forall z',
               m x (fun y =>
                      if (min =? 0) && (y =? x) then None
                      else RepeatMatcher m fuel (pred min)
                                         (option_map pred max) greedy y c)
               = Some z' ->
               exists y, x <= y /\ y <= List.length Input /\ c y = Some z').
    { intros z' Hz. apply Hm in Hz; auto.
      destruct Hz as (y1 & Hy1 & Hy1' & Hz).
      destruct ((min =? 0) && (y1 =? x)); [discriminate|].
      apply IH in Hz; auto.
      destruct Hz as (y & Hy & Hy' & Hz).
      exists y. repeat split; auto; lia. }
    assert (Hc : forall z', c x = Some z' ->
               exists y, x <= y /\ y <= List.length Input /\ c y = Some z').
    { intros z' Hz. exists x. repeat split; auto. }
    destruct max as [[|mx]|].
    + now apply Hc.
    + destruct (negb (min =? 0)); [now apply Hd|].
      destruct greedy.
      * destruct (m x _) eqn:E.
        -- inversion H; subst. now apply Hd.
        -- now apply Hc.
      * destruct (c x) eqn:E.
        -- inversion H; subst. now apply Hc.
        -- now apply Hd.
    + destruct (negb (min =? 0)); [now apply Hd|].
      destruct greedy.
      * destruct (m x _) eqn:E.
        -- inversion H; subst. now apply Hd.
        -- now apply Hc.
      * destruct (c x) eqn:E.
        -- inversion H; subst. now apply Hc.
        -- now apply Hd.
Qed.

Lemma CompileSubpattern_forward (r : regex) :
  forward Input (CompileSubpattern Input fl r).
Proof.
  induction r; cbn [CompileSubpattern].
  - intros x c z Hx H. exists x. auto.
  - apply CharacterSetMatcher_forward.
  - apply CharacterSetMatcher_forward.
  - apply CharacterSetMatcher_forward.
  - intros x c z Hx H. destruct (assertStart Input fl x); [|discriminate].
    exists x. auto.
  - intros x c z Hx H. destruct (assertEnd Input fl x); [|discriminate].
    exists x. auto.
  - intros x c z Hx H. destruct (xorb negated _); [|discriminate].
    exists x. auto.
  - intros x c z Hx H. apply IHr1 in H; auto.
    destruct H as (y1 & A1 & A2 & H). apply IHr2 in H; auto.
    destruct H as (y & B1 & B2 & H). exists y. repeat split; auto; lia.
  - intros x c z Hx H.
    destruct (CompileSubpattern Input fl r1 x c) eqn:E.
    + inversion H; subst. now apply IHr1 in E.
    + now apply IHr2 in H.
  - intros x c z Hx H.
    eapply (RepeatMatcher_forward _ IHr) in H; eauto.
  - exact IHr.
Qed.

Lemma matchAt_bounds (r : regex) (x e : nat) :
  x <= List.length Input -> matchAt Input fl r x = Some e ->
  x <= e /\ e <= List.length Input.
Proof.
  intros Hx H. apply CompileSubpattern_forward in H; auto.
  destruct H as (y & A & B & H). inversion H; subst. auto.
Qed.

Lemma search_bounds (r : regex) (fuel start i e : nat) :
  start + fuel <= List.length Input ->
  search Input fl r fuel start = Some (i, e) ->
  start <= i /\ i <= e /\ e <= List.length Input.
Proof.
  revert start. induction fuel as [|fuel IH]; intros start Hs H; simpl in H.
  - destruct (matchAt Input fl r start) eqn:E; [|discriminate].
    inversion H; subst. apply matchAt_bounds in E; [lia | lia].
  - destruct (matchAt Input fl r start) eqn:E.
    + inversion H; subst. apply matchAt_bounds in E; [lia | lia].
    + apply IH in H; [lia | lia].
Qed.

End Engine.

(** What [exec] returns and what it does to the object. *)
Lemma exec_spec (R : RegExp) (str : list ascii) :
  match exec R str with
  | (None, R') => R' = setLastIndex R 0
  | (Some m, R') =>
      (if global (flags R) then lastIndex R else 0) <= index m
      /\ index m <= endIndex m /\ endIndex m <= List.length str
      /\ R' = (if global (flags R) then setLastIndex R (endIndex m) else R)
  end.
Proof.
  unfold exec.
  set (start := if global (flags R) then lastIndex R else 0).
  destruct (List.length str <? start) eqn:E; [reflexivity|].
  apply Nat.ltb_ge in E.
  destruct (search _ _ _ _ _) as [[i e]|] eqn:Es; [|reflexivity].
  apply search_bounds in Es; [|lia]. simpl. repeat split; lia || auto.
Qed.

Lemma exec_source (R : RegExp) (str : list ascii) :
  source (snd (exec R str)) = source R /\ flags (snd (exec R str)) = flags R.
Proof.
  pose proof (exec_spec R str) as H.
  destruct (exec R str) as [[m|] R']; simpl.
  - destruct H as (_ & _ & _ & ->). destruct (global (flags R)); auto.
  - subst R'. auto.
Qed.

(** A global pattern never moves its cursor backwards on a match. *)
Lemma exec_cursor (R R' : RegExp) (str : list ascii) (m : MatchResult) :
  global (flags R) = true -> exec R str = (Some m, R') ->
  lastIndex R <= lastIndex R' /\ lastIndex R' = endIndex m
  /\ lastIndex R' <= List.length str.
Proof.
  intros Hg H. pose proof (exec_spec R str) as S. rewrite H, Hg in S.
  destruct S as (A & B & C & ->). simpl. lia.
Qed.

(** ** The loop over the matches of a pattern *)

Section WhileExecFacts.

Context {St : Type}.
Variable body : MatchResult -> St -> Completion * St.
Variable str : list ascii.

Lemma whileExec_source (fuel : nat) (R : RegExp) (st : St) :
  source (snd (fst (whileExec body str fuel R st))) = source R
  /\ flags (snd (fst (whileExec body str fuel R st))) = flags R.
Proof.
  revert R st. induction fuel as [|fuel IH]; intros R st; simpl;
    pose proof (exec_source R str) as [Hs Hf];
    destruct (exec R str) as [[m|] R']; simpl in *; auto;
    destruct (body m st) as [[|e| |] st']; simpl; auto;
    destruct (lastIndex R' <=? lastIndex R); simpl; auto.
  destruct (IH R' st') as [A B]. split; congruence.
Qed.

(** The fuel the callers give, the length of the input, is enough: above
    the distance from the cursor to the end of the input the result does
    not depend on it. *)
Lemma whileExec_fuel (fuel1 fuel2 : nat) (R : RegExp) (st : St) :
  List.length str - lastIndex R <= fuel1 ->
  List.length str - lastIndex R <= fuel2 ->
  whileExec body str fuel1 R st = whileExec body str fuel2 R st.
Proof.
  revert fuel2 R st.
  induction fuel1 as [|fuel1 IH]; intros fuel2 R st H1 H2.
  - destruct fuel2 as [|fuel2]; [reflexivity|]. simpl.
    pose proof (exec_spec R str) as S.
    destruct (exec R str) as [[m|] R']; [|reflexivity].
    destruct (body m st) as [[|e| |] st']; try reflexivity.
    destruct (lastIndex R' <=? lastIndex R) eqn:E; [reflexivity|].
    apply Nat.leb_gt in E. exfalso.
    destruct S as (A & B & C & ->).
    destruct (global (flags R)); simpl in E; lia.
  - simpl.
    pose proof (exec_spec R str) as S.
    destruct (exec R str) as [[m|] R'] eqn:Ex.
    + destruct fuel2 as [|fuel2]; simpl; rewrite Ex;
        destruct (body m st) as [[|e| |] st']; try reflexivity;
        destruct (lastIndex R' <=? lastIndex R) eqn:E; try reflexivity;
        apply Nat.leb_gt in E; destruct S as (A & B & C & ->);
        destruct (global (flags R)); simpl in E; try lia.
      apply IH; simpl; lia.
    + destruct fuel2; simpl; rewrite Ex; reflexivity.
Qed.

End WhileExecFacts.

(** ** Strings as lists of code units *)

Lemma chars_length (s : string) : List.length (chars s) = String.length s.
Proof. induction s; simpl; auto. Qed.

Lemma chars_append (s1 s2 : string) :
  chars (s1 ++ s2) = chars s1 ++ chars s2.
Proof. induction s1; simpl; [reflexivity | now rewrite IHs1]. Qed.

Lemma string_of_chars (s : string) : string_of_list_ascii (chars s) = s.
Proof. apply string_of_list_ascii_of_string. Qed.

Lemma chars_of_string (l : list ascii) : chars (string_of_list_ascii l) = l.
Proof. apply list_ascii_of_string_of_list_ascii. Qed.

Lemma string_of_list_ascii_app (l1 l2 : list ascii) :
  string_of_list_ascii (l1 ++ l2)
  = (string_of_list_ascii l1 ++ string_of_list_ascii l2)%string.
Proof. induction l1; simpl; [reflexivity | now rewrite IHl1]. Qed.

Lemma eqc_eq (a b : ascii) : eqc a b = true -> a = b.
Proof. apply Ascii.eqb_eq. Qed.

(** A regex keyword is its inner pattern between two slashes. *)
Lemma isRegexKeyword_slice1 (keyword : string) :
  isRegexKeyword keyword = true ->
  keyword = ("/" ++ slice1 keyword ++ "/")%string.
Proof.
  unfold isRegexKeyword, slice1. rewrite <- (chars_length keyword).
  destruct (chars keyword) as [|first rest] eqn:E; [discriminate|].
  intros H. apply andb_prop in H. destruct H as [H Hlen].
  apply andb_prop in H. destruct H as [Hfirst Hlast].
  apply eqc_eq in Hfirst. apply eqc_eq in Hlast. apply Nat.ltb_lt in Hlen.
  simpl in Hlen.
  assert (Hrest : rest <> [])
    by (destruct rest; simpl in Hlen; [lia|discriminate]).
  rewrite <- (string_of_chars keyword), E. simpl tl.
  rewrite (app_removelast_last first Hrest) at 1.
  assert (Hl : last rest first = "/"%char).
  { rewrite <- Hlast. destruct rest; [congruence|reflexivity]. }
  rewrite Hl, Hfirst. simpl. now rewrite string_of_list_ascii_app.
Qed.

(** The flags the matchers compile a keyword with. *)
Lemma RegExp_new_flagsFor (pattern : string) (caseSensitive : bool)
  (R : RegExp) :
  RegExp_new pattern (flagsFor caseSensitive) = Some R ->
  parsePattern pattern = Some (source R)
  /\ flags R = mkFlags true (negb caseSensitive) false
  /\ lastIndex R = 0.
Proof.
  unfold RegExp_new. destruct (parsePattern pattern) as [r|]; [|discriminate].
  destruct caseSensitive; simpl; intros H; inversion H; subst; auto.
Qed.

(** ** The pattern of a literal keyword *)

Lemma isSpecial_cases (c : ascii) :
  isSpecial c = true ->
  In c (chars ".*+?^${}()|[]\").
Proof.
  unfold isSpecial. intros H. apply existsb_exists in H.
  destruct H as (x & Hx & E). apply eqc_eq in E. now subst x.
Qed.

Lemma not_special (c x : ascii) :
  isSpecial c = false -> In x (chars ".*+?^${}()|[]\") -> eqc c x = false.
Proof.
  unfold isSpecial. intros H Hx.
  destruct (eqc c x) eqn:E; [|reflexivity].
  assert (existsb (eqc c) (chars ".*+?^${}()|[]\") = true)
    by (apply existsb_exists; eauto).
  congruence.
Qed.

Ltac special_chars H :=
  repeat match goal with
         | |- context [eqc ?c ?x] =>
             rewrite (not_special c x H) by (simpl; tauto)
         end.

(** No quantifier follows an escaped character: what follows is a
    backslash or an ordinary character. *)
Lemma parseQuantifierPrefix_escaped (l rest : list ascii) :
  parseQuantifierPrefix (flat_map escaped l ++ "\"%char :: rest)
  = NoQuantifier.
Proof.
  destruct l as [|c l]; [reflexivity|].
  simpl. unfold escaped at 1.
  destruct (isSpecial c) eqn:H; [reflexivity|].
  simpl. unfold parseQuantifierPrefix. now special_chars H.
Qed.

(** An escaped character is the term [Char c]. *)
Lemma parseTerm_escaped (fuel : nat) (c : ascii) (tail : list ascii) :
  parseQuantifierPrefix tail = NoQuantifier ->
  parseTerm (S fuel) (escaped c ++ tail) = Some (Char c, tail).
Proof.
  intros Hq. unfold escaped.
  destruct (isSpecial c) eqn:H.
  - apply isSpecial_cases in H. simpl in H.
    repeat (destruct H as [<-|H];
            [simpl; unfold withQuantifier; now rewrite Hq|]).
    contradiction.
  - simpl. special_chars H. simpl.
    unfold withQuantifier. now rewrite Hq.
Qed.

Lemma parseAlternative_escaped (l : list ascii) :
  forall fuel,
    List.length l + 2 <= fuel ->
    parseAlternative fuel (flat_map escaped l ++ ["\"%char; "b"%char])
    = Some (litSeq l (Seq (WordBoundary false) Empty), []).
Proof.
  induction l as [|c l IH]; intros fuel Hf.
  - destruct fuel as [|[|fuel]]; simpl in Hf; try lia. reflexivity.
  - destruct fuel as [|fuel]; simpl in Hf; try lia.
    cbn [flat_map]. rewrite <- app_assoc.
    assert (Hhead : exists h t,
               escaped c ++ flat_map escaped l ++ ["\"%char; "b"%char]
               = h :: t /\ eqc h "|" || eqc h ")" = false).
    { unfold escaped at 1. destruct (isSpecial c) eqn:H.
      - eexists _, _. split; reflexivity.
      - eexists _, _. split; [reflexivity|]. now special_chars H. }
    destruct Hhead as (h & t & Eh & Hh).
    cbn [parseAlternative]. rewrite Eh, Hh, <- Eh.
    destruct fuel as [|fuel]; [lia|].
    rewrite parseTerm_escaped by apply parseQuantifierPrefix_escaped.
    rewrite IH by lia. reflexivity.
Qed.

(** The constructor never throws on the pattern of a literal keyword,
    and compiles it to [keywordPattern]. *)
Lemma parsePattern_keyword (keyword : string) :
  parsePattern ("\b" ++ escapeRegExp keyword ++ "\b")
  = Some (keywordPattern keyword).
Proof.
  unfold parsePattern, escapeRegExp, keywordPattern.
  rewrite !chars_append, chars_of_string.
  change (chars "\b") with ["\"%char; "b"%char].
  fold escaped.
  change (fun c : ascii => if isSpecial c then ["\"%char; c] else [c])
    with escaped.
  set (l := chars keyword).
  set (body := flat_map escaped l ++ ["\"%char; "b"%char]).
  set (fuel := 3 * List.length (["\"%char; "b"%char] ++ body) + 4).
  assert (Hfuel : List.length l + 4 <= fuel).
  { unfold fuel, body. rewrite !length_app. simpl.
    assert (List.length l <= List.length (flat_map escaped l)).
    { clear. induction l as [|c l IH]; simpl; [lia|].
      rewrite length_app. unfold escaped at 1.
      destruct (isSpecial c); simpl; lia. }
    lia. }
  clearbody fuel.
  destruct fuel as [|f1]; [lia|].
  change (["\"%char; "b"%char] ++ body) with ("\"%char :: "b"%char :: body).
  cbn [parseDisjunction].
  destruct f1 as [|f2]; [lia|].
  cbn [parseAlternative].
  change (eqc "\" "|" || eqc "\" ")") with false. cbv iota.
  destruct f2 as [|f3]; [lia|].
  change (parseTerm (S f3) ("\"%char :: "b"%char :: body))
    with (Some (WordBoundary false, body)).
  unfold body. rewrite parseAlternative_escaped by lia. reflexivity.
Qed.

Lemma RegExp_new_keyword (keyword : string) (caseSensitive : bool) :
  RegExp_new ("\b" ++ escapeRegExp keyword ++ "\b") (flagsFor caseSensitive)
  = Some (mkRegExp (keywordPattern keyword)
                   (mkFlags true (negb caseSensitive) false) 0).
Proof.
  unfold RegExp_new. rewrite parsePattern_keyword.
  now destruct caseSensitive.
Qed.

(** ** Matches of a literal keyword *)

Section LiteralMatch.

Variable Input : list ascii.
Variable fl : Flags.

Lemma litSeq_consumes (l : list ascii) (tail : regex) :
  forall x c z,
    CompileSubpattern Input fl (litSeq l tail) x c = Some z ->
    CompileSubpattern Input fl tail (x + List.length l) c = Some z.
Proof.
  induction l as [|a l IH]; intros x c z H; simpl in *.
  - now rewrite Nat.add_0_r.
  - unfold CharacterSetMatcher in H.
    destruct (nth_error Input x); [|discriminate].
    destruct (xorb false _); [|discriminate].
    apply IH in H. now rewrite <- Nat.add_succ_comm.
Qed.

(** A match of the keyword pattern is as long as the keyword. *)
Lemma keywordPattern_match (keyword : string) (x e : nat) :
  matchAt Input fl (keywordPattern keyword) x = Some e ->
  e = x + String.length keyword.
Proof.
  unfold matchAt, keywordPattern. cbn [CompileSubpattern]. intros H.
  destruct (xorb false _); [|discriminate].
  apply litSeq_consumes in H. cbn [CompileSubpattern] in H.
  destruct (xorb false _); [|discriminate].
  rewrite chars_length in H. now inversion H.
Qed.

Lemma search_matchAt (r : regex) (fuel start i e : nat) :
  search Input fl r fuel start = Some (i, e) ->
  matchAt Input fl r i = Some e.
Proof.
  revert start. induction fuel as [|fuel IH]; intros start H; simpl in H.
  - destruct (matchAt Input fl r start) eqn:E; [|discriminate].
    now inversion H; subst.
  - destruct (matchAt Input fl r start) eqn:E.
    + now inversion H; subst.
    + eauto.
Qed.

End LiteralMatch.

Lemma exec_matchAt (R R' : RegExp) (str : list ascii) (m : MatchResult) :
  exec R str = (Some m, R') ->
  matchAt str (flags R) (source R) (index m) = Some (endIndex m).
Proof.
  unfold exec.
  destruct (List.length str <? _); [discriminate|].
  destruct (search _ _ _ _ _) as [[i e]|] eqn:E; [|discriminate].
  intros H. inversion H; subst. simpl.
  eapply search_matchAt; eauto.
Qed.

(** ** One descriptor, all descriptors *)

Lemma rewind_rewound (p : CommentPattern) : rewound p -> rewind p = p.
Proof.
  destruct p as [t [s f l]]. unfold rewound, rewind, setLastIndex; simpl.
  now intros ->.
Qed.

Lemma map_rewind_rewound (ps : list CommentPattern) :
  Forall rewound ps -> map rewind ps = ps.
Proof.
  induction 1; simpl; [reflexivity|].
  now rewrite rewind_rewound, IHForall.
Qed.

Lemma Forall_rewound_map_rewind (ps : list CommentPattern) :
  Forall rewound (map rewind ps).
Proof. induction ps; simpl; constructor; auto. reflexivity. Qed.

Section ForEachPattern.

Variable doc : TextDocument.
Variable comment : MatchResult -> list Range -> Completion * list Range.
Variable errorMessage : string.

(** The callback never throws; it changes the world only by logging what
    it caught; when it caught nothing and its loop was left, the cursor
    of the descriptor is back at 0. *)
Lemma scanPattern_spec (p : CommentPattern) (ranges : list Range) (w : World) :
  match scanPattern doc comment errorMessage p ranges w with
  | (c, p', ranges', w') =>
      logOnly w w'
      /\ (forall e, c <> Throws e)
      /\ (c = Normal -> errorCount w' = errorCount w ->
          p' = rewind p /\ w' = w)
  end.
Proof.
  unfold scanPattern.
  pose proof (whileExec_source comment (chars (getText doc))
                (List.length (chars (getText doc))) (pattern p) ranges)
    as [Hs Hf].
  destruct (whileExec _ _ _ _ _) as [[c R'] ranges']. simpl in Hs, Hf.
  destruct c as [|e| |].
  - unfold ret. split; [apply logOnly_refl|]. split; [discriminate|].
    intros _ _. split; [|reflexivity].
    unfold rewind, setLastIndex. now rewrite Hs, Hf.
  - unfold bind, ret.
    pose proof (logError_logOnly errorMessage (Some e) w) as HL.
    pose proof (logError_errorCount errorMessage (Some e) w) as HC.
    destruct (logError errorMessage (Some e) w) as [u w']. simpl in HL, HC.
    split; [exact HL|]. split; [discriminate|].
    intros _ Heq. lia.
  - unfold ret. split; [apply logOnly_refl|]. split; discriminate.
  - unfold ret. split; [apply logOnly_refl|]. split; discriminate.
Qed.

Lemma forEachPattern_spec (ps : list CommentPattern) (ranges : list Range)
  (w : World) :
  match forEachPattern (scanPattern doc comment errorMessage) ps ranges w with
  | (c, ps', ranges', w') =>
      logOnly w w'
      /\ (forall e, c <> Throws e)
      /\ (c = Normal -> errorCount w' = errorCount w ->
          ps' = map rewind ps /\ w' = w)
  end.
Proof.
  revert ranges w. induction ps as [|p rest IH]; intros ranges w; simpl.
  - unfold ret. split; [apply logOnly_refl|]. split; [discriminate|]. auto.
  - unfold bind.
    pose proof (scanPattern_spec p ranges w) as Hp.
    destruct (scanPattern doc comment errorMessage p ranges w)
      as [[[c p'] ranges'] w1].
    destruct Hp as (L1 & T1 & N1).
    destruct c as [|e| |].
    + specialize (IH ranges' w1).
      destruct (forEachPattern _ rest ranges' w1) as [[[c' rest'] ranges''] w2].
      destruct IH as (L2 & T2 & N2). unfold ret.
      split; [eapply logOnly_trans; eauto|]. split; [exact T2|].
      intros Hc He.
      assert (errorCount w <= errorCount w1) by apply L1.
      assert (errorCount w1 <= errorCount w2) by apply L2.
      destruct (N1 eq_refl) as [-> ->]; [lia|].
      destruct (N2 Hc) as [-> ->]; [lia|]. auto.
    + now destruct (T1 e).
    + unfold ret. split; [exact L1|]. split; discriminate.
    + unfold ret. split; [exact L1|]. split; discriminate.
Qed.

End ForEachPattern.

Lemma findCommentKeywords_logOnly (doc : TextDocument) (keyword : string)
  (ps : list CommentPattern) (caseSensitive : bool) (w : World) :
  match findCommentKeywords doc keyword ps caseSensitive w with
  | (c, ps', ranges, w') => logOnly w w' /\ forall e, c <> Throws e
  end.
Proof.
  unfold findCommentKeywords, findRegexKeywords, bind, config_get.
  destruct (truthy _ && isRegexKeyword keyword).
  - pose proof (forEachPattern_spec doc
                  (regexComment doc (slice1 keyword) caseSensitive)
                  (regexPatternError keyword)
                  ps [] w) as H.
    destruct (forEachPattern _ ps [] w) as [[[c ps'] ranges] w']. tauto.
  - pose proof (forEachPattern_spec doc
                  (literalComment doc keyword caseSensitive)
                  (patternError keyword)
                  ps [] w) as H.
    destruct (forEachPattern _ ps [] w) as [[[c ps'] ranges] w']. tauto.
Qed.

(** ** Invariants of the loop over the matches *)

Section WhileExecInvariants.

Context {St : Type}.
Variable body : MatchResult -> St -> Completion * St.
Variable str : list ascii.
Variable R : RegExp.

Lemma same_exec (R0 : RegExp) :
  samePattern R R0 -> samePattern R (snd (exec R0 str)).
Proof.
  intros [A B]. destruct (exec_source R0 str) as [C D].
  split; congruence.
Qed.

Lemma whileExec_preserves (I : St -> Prop) :
  (forall R0 R1 m st,
      samePattern R R0 -> exec R0 str = (Some m, R1) -> I st ->
      I (snd (body m st))) ->
  forall fuel R0 st,
    samePattern R R0 -> I st -> I (snd (whileExec body str fuel R0 st)).
Proof.
  intros Hbody fuel.
  induction fuel as [|fuel IH]; intros R0 st HR Hst; simpl;
    pose proof (same_exec R0 HR) as HR';
    destruct (exec R0 str) as [[m|] R1] eqn:E; simpl in HR'; auto;
    pose proof (Hbody R0 R1 m st HR E Hst) as Hst';
    destruct (body m st) as [[|e| |] st']; simpl in *; auto;
    destruct (lastIndex R1 <=? lastIndex R0); simpl; auto.
Qed.

Lemma whileExec_never_throws :
  (forall m st e, fst (body m st) <> Throws e) ->
  forall fuel R0 st e, fst (fst (whileExec body str fuel R0 st)) <> Throws e.
Proof.
  intros Hbody fuel.
  induction fuel as [|fuel IH]; intros R0 st e; simpl;
    destruct (exec R0 str) as [[m|] R1]; simpl; try discriminate;
    pose proof (Hbody m st) as Hb;
    destruct (body m st) as [[|e'| |] st']; simpl in *; try discriminate;
    try (exfalso; now apply (Hb e'));
    destruct (lastIndex R1 <=? lastIndex R0); simpl; try discriminate.
  apply IH.
Qed.

(** The loop is left when no match is empty and no body hangs. *)
Lemma whileExec_returns :
  global (flags R) = true ->
  (forall R0 R1 m,
      samePattern R R0 -> exec R0 str = (Some m, R1) ->
      index m < endIndex m) ->
  (forall R0 R1 m st,
      samePattern R R0 -> exec R0 str = (Some m, R1) ->
      fst (body m st) = Normal) ->
  forall fuel R0 st,
    samePattern R R0 -> List.length str - lastIndex R0 <= fuel ->
    fst (fst (whileExec body str fuel R0 st)) = Normal.
Proof.
  intros Hg Hne Hbody fuel.
  induction fuel as [|fuel IH]; intros R0 st HR Hf; simpl;
    pose proof (same_exec R0 HR) as HR';
    pose proof (exec_spec R0 str) as S;
    destruct (exec R0 str) as [[m|] R1] eqn:E; simpl in HR'; auto;
    pose proof (Hne R0 R1 m HR E) as Hm;
    pose proof (Hbody R0 R1 m st HR E) as Hb;
    destruct (body m st) as [[|e| |] st']; simpl in Hb; try discriminate;
    destruct HR as [_ HRf]; rewrite HRf, Hg in S;
    destruct S as (A & B & C & ->); simpl;
    destruct (endIndex m <=? lastIndex R0) eqn:L;
    try (apply Nat.leb_le in L; lia); apply Nat.leb_gt in L.
  - lia.
  - apply IH; [exact HR'|]. simpl. lia.
Qed.

End WhileExecInvariants.

(** ** The literal matcher *)

Lemma exec_keywordPattern (keyword : string) (fl : Flags) (R0 R1 : RegExp)
  (str : list ascii) (m : MatchResult) :
  source R0 = keywordPattern keyword ->
  exec R0 str = (Some m, R1) ->
  endIndex m = index m + String.length keyword
  /\ endIndex m <= List.length str.
Proof.
  intros Hs E. pose proof (exec_matchAt R0 R1 str m E) as H.
  rewrite Hs in H. apply keywordPattern_match in H.
  pose proof (exec_spec R0 str) as S. rewrite E in S. tauto.
Qed.

Section LiteralMatcher.

Variable doc : TextDocument.
Variable keyword : string.
Variable caseSensitive : bool.
Variable text : list ascii.
Hypothesis text_of_doc : text = chars (getText doc).

(** The inner loop: it is left, and what it pushes are spans of the
    text, when the keyword is not empty and the comment lies in the
    text. *)
Lemma pushMatches_keyword (commentStart : nat) (commentText : list ascii)
  (ranges : list Range) :
  0 < String.length keyword ->
  commentStart + List.length commentText <= List.length text ->
  let result :=
    pushMatches doc commentStart (fun _ => String.length keyword)
      (mkRegExp (keywordPattern keyword)
                (mkFlags true (negb caseSensitive) false) 0)
      commentText ranges in
  fst result = Normal
  /\ (Forall (spanOf doc) ranges -> Forall (spanOf doc) (snd result)).
Proof.
  intros Hk Hc. unfold pushMatches.
  set (body := fun (km : MatchResult) (rs : list Range) =>
                 (Normal,
                  rs ++ [Range_new
                           (positionAt doc (commentStart + index km))
                           (positionAt doc (commentStart + index km
                                            + String.length keyword))])).
  set (R := mkRegExp (keywordPattern keyword)
                     (mkFlags true (negb caseSensitive) false) 0).
  assert (Hstep : forall R0 R1 m,
             samePattern R R0 ->
             exec R0 commentText = (Some m, R1) ->
             endIndex m = index m + String.length keyword
             /\ endIndex m <= List.length commentText).
  { intros R0 R1 m [Hs _] E.
    exact (exec_keywordPattern keyword (flags R) R0 R1 commentText m Hs E). }
  assert (Hinv : Forall (spanOf doc) ranges ->
                 Forall (spanOf doc)
                   (snd (whileExec body commentText (List.length commentText)
                                   R ranges))).
  { intros Hr.
    apply (whileExec_preserves body commentText R (Forall (spanOf doc)));
      [|now apply conj|exact Hr].
    intros R0 R1 m st HR E Hst. destruct (Hstep R0 R1 m HR E) as [He Hle].
    simpl. apply Forall_app. split; [exact Hst|]. constructor; [|constructor].
    exists (commentStart + index m),
           (commentStart + index m + String.length keyword).
    rewrite text_of_doc, chars_length in Hc. repeat split; lia. }
  assert (Hret : fst (fst (whileExec body commentText
                             (List.length commentText) R ranges)) = Normal).
  { apply (whileExec_returns body commentText R eq_refl);
      [| |now apply conj|simpl; lia].
    - intros R0 R1 m HR E. destruct (Hstep R0 R1 m HR E). lia.
    - reflexivity. }
  destruct (whileExec body commentText (List.length commentText) R ranges)
    as [[c R'] ranges'].
  simpl in *. split; assumption.
Qed.

Lemma matched_length (m : MatchResult) :
  index m <= List.length text ->
  index m + List.length (matched text m) <= List.length text.
Proof.
  intros H. unfold matched. rewrite length_firstn, length_skipn. lia.
Qed.

(** The body of the outer loop: one comment. *)
Lemma literalComment_spec (m : MatchResult) (ranges : list Range) :
  0 < String.length keyword ->
  index m <= List.length text ->
  fst (literalComment doc keyword caseSensitive m ranges) = Normal
  /\ (Forall (spanOf doc) ranges ->
      Forall (spanOf doc)
             (snd (literalComment doc keyword caseSensitive m ranges))).
Proof.
  intros Hk Hm. unfold literalComment. rewrite RegExp_new_keyword.
  rewrite <- text_of_doc.
  apply pushMatches_keyword; auto. now apply matched_length.
Qed.

(** Whatever the keyword, the body of the outer loop does not throw:
    the pattern of a literal keyword always compiles. *)
Lemma literalComment_never_throws (m : MatchResult) (ranges : list Range)
  (e : JSError) :
  fst (literalComment doc keyword caseSensitive m ranges) <> Throws e.
Proof.
  unfold literalComment, pushMatches. rewrite RegExp_new_keyword.
  rewrite <- text_of_doc.
  pose proof (whileExec_never_throws
                (fun km rs =>
                   (Normal,
                    rs ++ [Range_new
                             (positionAt doc (index m + index km))
                             (positionAt doc (index m + index km
                                              + String.length keyword))]))
                (matched text m)
                (fun _ _ _ => ltac:(discriminate))
                (List.length (matched text m))
                (mkRegExp (keywordPattern keyword)
                          (mkFlags true (negb caseSensitive) false) 0)
                ranges e) as H.
  destruct (whileExec _ _ _ _ _) as [[c R'] ranges']. exact H.
Qed.

(** A descriptor of the table never matches the empty string. *)
Lemma consuming_match (p : CommentPattern) (R0 R1 : RegExp)
  (m : MatchResult) :
  consuming p -> samePattern (pattern p) R0 ->
  exec R0 text = (Some m, R1) -> index m < endIndex m.
Proof.
  intros [Hg (a & r & Hsrc)] [HR _] E.
  pose proof (exec_matchAt R0 R1 text m E) as Hm.
  pose proof (exec_spec R0 text) as S. rewrite E in S.
  rewrite HR, Hsrc in Hm. unfold matchAt in Hm.
  cbn [CompileSubpattern] in Hm. unfold CharacterSetMatcher in Hm.
  destruct (nth_error text (index m)) eqn:En; [|discriminate].
  destruct (xorb false _); [|discriminate].
  assert (index m < List.length text) by (apply nth_error_Some; congruence).
  apply CompileSubpattern_forward in Hm; [|lia].
  destruct Hm as (y & Hy & _ & Hz). inversion Hz; subst. lia.
Qed.

(** One descriptor. *)
Lemma scanPattern_literal (p : CommentPattern) (ranges : list Range)
  (w : World) :
  match scanPattern doc (literalComment doc keyword caseSensitive)
                    (patternError keyword) p ranges w with
  | (c, p', ranges', w') =>
      w' = w
      /\ (c = Normal -> p' = rewind p)
      /\ (0 < String.length keyword -> Forall (spanOf doc) ranges ->
          Forall (spanOf doc) ranges'
          /\ (consuming p -> c = Normal))
  end.
Proof.
  unfold scanPattern. rewrite <- text_of_doc.
  set (comment := literalComment doc keyword caseSensitive).
  pose proof (whileExec_source comment text (List.length text) (pattern p)
                               ranges) as [Hs Hf].
  pose proof (whileExec_never_throws comment text
                (fun m st e => literalComment_never_throws m st e)
                (List.length text) (pattern p) ranges) as Hnt.
  pose proof (whileExec_preserves comment text (pattern p)
                (Forall (spanOf doc))) as Hinv.
  pose proof (whileExec_returns comment text (pattern p)) as Hret.
  assert (Hbody : forall R0 R1 m st,
             0 < String.length keyword ->
             exec R0 text = (Some m, R1) ->
             fst (comment m st) = Normal
             /\ (Forall (spanOf doc) st ->
                 Forall (spanOf doc) (snd (comment m st)))).
  { intros R0 R1 m st Hk E.
    pose proof (exec_spec R0 text) as S. rewrite E in S.
    apply literalComment_spec; auto. lia. }
  destruct (whileExec comment text (List.length text) (pattern p) ranges)
    as [[c R'] ranges'] eqn:Ew.
  simpl in Hs, Hf, Hnt.
  assert (Hspans : 0 < String.length keyword -> Forall (spanOf doc) ranges ->
                   Forall (spanOf doc) ranges').
  { intros Hk Hr.
    specialize (Hinv (fun R0 R1 m st _ E => proj2 (Hbody R0 R1 m st Hk E))
                     (List.length text) (pattern p) ranges
                     (conj eq_refl eq_refl) Hr).
    now rewrite Ew in Hinv. }
  assert (Hnormal : 0 < String.length keyword -> consuming p -> c = Normal).
  { intros Hk Hp.
    specialize (Hret (proj1 Hp)
                     (fun R0 R1 m HR E => consuming_match p R0 R1 m Hp HR E)
                     (fun R0 R1 m st _ E => proj1 (Hbody R0 R1 m st Hk E))
                     (List.length text) (pattern p) ranges
                     (conj eq_refl eq_refl)).
    rewrite Ew in Hret. apply Hret. lia. }
  destruct c as [|e| |].
  - unfold ret. split; [reflexivity|]. split.
    + intros _. unfold rewind, setLastIndex. now rewrite Hs, Hf.
    + intros Hk Hr. split; auto.
  - now destruct (Hnt e).
  - unfold ret. split; [reflexivity|]. split; [discriminate|].
    intros Hk Hr. split; auto.
  - unfold ret. split; [reflexivity|]. split; [discriminate|].
    intros Hk Hr. split; auto.
Qed.

(** All descriptors. *)
Lemma forEachPattern_literal (ps : list CommentPattern) (ranges : list Range)
  (w : World) :
  match forEachPattern
          (scanPattern doc (literalComment doc keyword caseSensitive)
                       (patternError keyword)) ps ranges w with
  | (c, ps', ranges', w') =>
      w' = w
      /\ (c = Normal -> ps' = map rewind ps)
      /\ (0 < String.length keyword -> Forall (spanOf doc) ranges ->
          Forall (spanOf doc) ranges'
          /\ (Forall consuming ps -> c = Normal))
  end.
Proof.
  revert ranges w.
  induction ps as [|p rest IH]; intros ranges w; cbn [forEachPattern map].
  - unfold ret. repeat split; auto.
  - unfold bind.
    pose proof (scanPattern_literal p ranges w) as Hp.
    destruct (scanPattern doc (literalComment doc keyword caseSensitive)
                          (patternError keyword) p ranges w)
      as [[[c p'] ranges'] w1].
    destruct Hp as (-> & Hrew & Hsp).
    destruct c as [|e| |].
    + specialize (IH ranges' w).
      destruct (forEachPattern _ rest ranges' w)
        as [[[c' rest'] ranges''] w2].
      destruct IH as (-> & Hrew' & Hsp'). unfold ret.
      split; [reflexivity|]. split.
      * intros Hc. now rewrite (Hrew eq_refl), (Hrew' Hc).
      * intros Hk Hr. destruct (Hsp Hk Hr) as [Hr' _].
        destruct (Hsp' Hk Hr') as [Hr'' Hn]. split; [exact Hr''|].
        intros Hall. inversion Hall; subst. auto.
    + unfold ret. split; [reflexivity|]. split; [discriminate|].
      intros Hk Hr. destruct (Hsp Hk Hr) as [Hr' _]. split; [exact Hr'|].
      intros Hall. inversion Hall; subst.
      destruct (Hsp Hk Hr) as [_ Hn]. now apply Hn.
    + unfold ret. split; [reflexivity|]. split; [discriminate|].
      intros Hk Hr. destruct (Hsp Hk Hr) as [Hr' Hn]. split; [exact Hr'|].
      intros Hall. inversion Hall; subst. now apply Hn.
    + unfold ret. split; [reflexivity|]. split; [discriminate|].
      intros Hk Hr. destruct (Hsp Hk Hr) as [Hr' Hn]. split; [exact Hr'|].
      intros Hall. inversion Hall; subst. now apply Hn.
Qed.

End LiteralMatcher.

(** ** What the literal matcher returns *)

(** In literal mode the matcher never throws and never logs; when it
    returns, every cursor is back at 0; for a keyword that is not empty,
    every range it pushes is a span of the text that covers at least one
    character, and it returns when no descriptor matches the empty
    string. *)
Lemma findCommentKeywords_literal (doc : TextDocument) (keyword : string)
  (ps : list CommentPattern) (caseSensitive : bool) (w : World) :
  truthy (Some (setting w "enableRegexKeywords" (JBool false)))
  && isRegexKeyword keyword = false ->
  match findCommentKeywords doc keyword ps caseSensitive w with
  | (c, ps', ranges, w') =>
      w' = w
      /\ (c = Normal -> ps' = map rewind ps)
      /\ (0 < String.length keyword ->
          Forall (spanOf doc) ranges /\ (Forall consuming ps -> c = Normal))
  end.
Proof.
  intros Hmode. rewrite literal_mode by assumption.
  pose proof (forEachPattern_literal doc keyword caseSensitive _ eq_refl
                ps [] w) as H.
  destruct (forEachPattern _ ps [] w) as [[[c ps'] ranges] w'].
  destruct H as (Hw & Hps & Hk). repeat split; auto; now apply Hk.
Qed.

(** The descriptors of the table are global, start with a character and
    have their cursor at 0. *)
Lemma descriptors_consuming :
  Forall (fun p => consuming p /\ rewound p)
         [slashLine; slashStar; hashLine; dashLine; tripleDouble;
          tripleSingle; markup; beginEnd; luaBlock].
Proof.
  repeat constructor; try (do 2 eexists; vm_compute; reflexivity).
Qed.

Lemma patterns_consuming :
  Forall (fun entry => Forall (fun p => consuming p /\ rewound p) (snd entry))
         patterns.
Proof.
  pose proof descriptors_consuming as H. rewrite Forall_forall in H.
  unfold patterns.
  repeat (apply Forall_cons; [cbn [snd];
                              repeat (apply Forall_cons;
                                      [apply H; simpl; tauto|]);
                              apply Forall_nil|]).
  apply Forall_nil.
Qed.

Lemma assoc_In {A : Type} (k : string) (l : list (string * A)) (v : A) :
  assoc k l = Some v -> In (k, v) l.
Proof.
  induction l as [|[k' v'] l IH]; simpl; [discriminate|].
  destruct (String.eqb k k') eqn:E.
  - apply String.eqb_eq in E. intros H. inversion H; subst. now left.
  - intros H. right. auto.
Qed.

Lemma getCommentPatterns_consuming (languageId : string) :
  Forall consuming (getCommentPatterns languageId)
  /\ Forall rewound (getCommentPatterns languageId).
Proof.
  unfold getCommentPatterns.
  destruct (assoc languageId patterns) as [ps|] eqn:E; [|split; constructor].
  apply assoc_In in E.
  pose proof patterns_consuming as H. rewrite Forall_forall in H.
  specialize (H _ E). cbn [snd] in H.
  split; eapply Forall_impl; try exact H; cbv beta; tauto.
Qed.

(** Over the table of any language, a literal keyword that is not empty
    is matched in finitely many steps: the call returns, its spans lie in
    the text, and it leaves the descriptors and the world as they
    were. *)
Lemma findCommentKeywords_returns (doc : TextDocument) (keyword : string)
  (language : string) (caseSensitive : bool) (w : World) :
  truthy (Some (setting w "enableRegexKeywords" (JBool false)))
  && isRegexKeyword keyword = false ->
  0 < String.length keyword ->
  exists ranges,
    findCommentKeywords doc keyword (getCommentPatterns language)
                        caseSensitive w
    = (Normal, getCommentPatterns language, ranges, w)
    /\ Forall (spanOf doc) ranges.
Proof.
  intros Hmode Hk.
  pose proof (findCommentKeywords_literal doc keyword
                (getCommentPatterns language) caseSensitive w Hmode) as H.
  destruct (findCommentKeywords doc keyword (getCommentPatterns language)
                                caseSensitive w)
    as [[[c ps'] ranges] w'].
  destruct H as (-> & Hps & Hsp).
  destruct (getCommentPatterns_consuming language) as [Hc Hr].
  destruct (Hsp Hk) as [Hspans Hn]. specialize (Hn Hc). subst c.
  rewrite (Hps eq_refl), (map_rewind_rewound _ Hr).
  exists ranges. auto.
Qed.

Lemma consuming_rewind (ps : list CommentPattern) :
  Forall consuming ps -> Forall consuming (map rewind ps).
Proof.
  induction 1 as [|p ps Hp _ IH]; simpl; constructor; [|exact IH].
  destruct Hp as [Hg Hs]. split; [exact Hg | exact Hs].
Qed.

(** A literal keyword that is not empty, over descriptors that never
    match the empty string: the call returns and leaves every cursor at
    0 and the world as it was. *)
Lemma findCommentKeywords_rewinds (doc : TextDocument) (keyword : string)
  (ps : list CommentPattern) (caseSensitive : bool) (w : World) :
  truthy (Some (setting w "enableRegexKeywords" (JBool false)))
  && isRegexKeyword keyword = false ->
  0 < String.length keyword ->
  Forall consuming ps ->
  exists ranges,
    findCommentKeywords doc keyword ps caseSensitive w
    = (Normal, map rewind ps, ranges, w).
Proof.
  intros Hmode Hk Hc.
  pose proof (findCommentKeywords_literal doc keyword ps caseSensitive w
                Hmode) as H.
  destruct (findCommentKeywords doc keyword ps caseSensitive w)
    as [[[c ps'] ranges] w'].
  destruct H as (-> & Hps & Hsp).
  destruct (Hsp Hk) as [_ Hn]. specialize (Hn Hc). subst c.
  rewrite (Hps eq_refl). now exists ranges.
Qed.

(** C10.  Successive calls of the literal matcher, each on the
    descriptors as the call before left them, for a keyword that is not
    empty and descriptors that never match the empty string.  The first
    call returns, with every cursor back at 0 and the world as it was;
    so the second call returns too, and a third call returns what the
    second did.  When the cursors were at 0 before the first call, as
    [getCommentPatterns] creates them, the second call returns what the
    first did. *)
Theorem findCommentKeywords_repeatable :
  forall (doc : TextDocument) (keyword : string)
         (commentPatterns : list CommentPattern) (caseSensitive : bool)
         (w : World),
    truthy (Some (setting w "enableRegexKeywords" (JBool false)))
    && isRegexKeyword keyword = false ->
    0 < String.length keyword ->
    Forall consuming commentPatterns ->
    let first :=
      findCommentKeywords doc keyword commentPatterns caseSensitive w in
    let second :=
      findCommentKeywords doc keyword (snd (fst (fst first))) caseSensitive
                          (snd first) in
    let third :=
      findCommentKeywords doc keyword (snd (fst (fst second))) caseSensitive
                          (snd second) in
    fst (fst (fst first)) = Normal
    /\ Forall rewound (snd (fst (fst first)))
    /\ snd first = w
    /\ fst (fst (fst second)) = Normal
    /\ third = second
    /\ (Forall rewound commentPatterns -> second = first).
Proof.
  intros doc keyword ps cs w Hmode Hk Hc. cbv zeta.
  destruct (findCommentKeywords_rewinds doc keyword ps cs w Hmode Hk Hc)
    as (ranges1 & E1).
  rewrite E1. cbn [fst snd].
  destruct (findCommentKeywords_rewinds doc keyword (map rewind ps) cs w
              Hmode Hk (consuming_rewind ps Hc))
    as (ranges2 & E2).
  rewrite (map_rewind_rewound _ (Forall_rewound_map_rewind ps)) in E2.
  rewrite E2. cbn [fst snd].
  split; [reflexivity|]. split; [apply Forall_rewound_map_rewind|].
  split; [reflexivity|]. split; [reflexivity|]. split; [exact E2|].
  intros Hclean. rewrite (map_rewind_rewound ps Hclean) in *. congruence.
Qed.

Lemma findCommentKeywords_repeatable_witness :
  let doc := mkDocument ("// TODO: fix this" ++ newline
                         ++ "let x = 5; /* todo */")
                        "javascript" in
  let ps := getCommentPatterns "javascript" in
  let ranges := [ mkRange (mkPosition 0 3) (mkPosition 0 7);
                  mkRange (mkPosition 1 14) (mkPosition 1 18) ] in
  let first := findCommentKeywords doc "TODO" ps false freshWorld in
  let second :=
    findCommentKeywords doc "TODO" (snd (fst (fst first))) false
                        (snd first) in
  first = (Normal, ps, ranges, freshWorld) /\ second = first.
Proof.
  intros doc ps ranges first second.
  split; [vm_compute; reflexivity|].
  refine (proj2 (proj2 (proj2 (proj2 (proj2
            (findCommentKeywords_repeatable
               doc "TODO" ps false freshWorld eq_refl _ _))))) _).
  - simpl. lia.
  - apply getCommentPatterns_consuming.
  - repeat constructor.
Defined.

(** On descriptors whose cursor was moved before the first call, the two
    calls differ: the first call looks for comments from the cursor on
    only.  The text is [// FIXME], the cursor of the pattern of line
    comments stands at 2. *)
Lemma findCommentKeywords_repeatable_counterexample :
  let doc := mkDocument "// FIXME" "javascript" in
  let moved := [mkPattern single (setLastIndex (pattern slashLine) 2);
                slashStar] in
  let first := findCommentKeywords doc "FIXME" moved false freshWorld in
  let second :=
    findCommentKeywords doc "FIXME" (snd (fst (fst first))) false
                        (snd first) in
  first = (Normal, [slashLine; slashStar], [], freshWorld)
  /\ second
     = (Normal, [slashLine; slashStar],
        [mkRange (mkPosition 0 3) (mkPosition 0 8)], freshWorld).
Proof. vm_compute. split; reflexivity. Qed.

(** ** Valid keywords are literal keywords *)

Lemma charset_literal :
  regexLiteral "^[a-zA-Z0-9_-]+$" ""
  = mkRegExp
      (Seq AssertStart
         (Seq (Quant 1 None true
                 (Class false [CARange "a" "z"; CARange "A" "Z";
                               CARange "0" "9"; CAChar "_"; CAChar "-"]))
              (Seq AssertEnd Empty)))
      (mkFlags false false false) 0.
Proof. vm_compute. reflexivity. Qed.

(** Without the multiline flag a pattern that begins with [^] matches at
    the start of the input or nowhere. *)
Lemma search_anchored (str : list ascii) (fl : Flags) (r : regex)
  (fuel i : nat) :
  multiline fl = false ->
  search str fl (Seq AssertStart r) fuel (S i) = None.
Proof.
  intros Hm. revert i.
  induction fuel as [|fuel IH]; intros i; simpl;
    unfold matchAt; simpl; rewrite Hm; simpl; auto.
Qed.

(** A keyword that passes the charset test starts with a character of
    the class. *)
Lemma charset_first (keyword : string) :
  test (regexLiteral "^[a-zA-Z0-9_-]+$" "") (chars keyword) = true ->
  exists c rest, chars keyword = c :: rest /\ keywordChar c = true.
Proof.
  rewrite charset_literal. unfold test, exec. cbn [flags global source].
  cbn [Nat.ltb Nat.leb]. rewrite Nat.sub_0_r.
  destruct (chars keyword) as [|c rest] eqn:E; [vm_compute; discriminate|].
  intros H. exists c, rest. split; [reflexivity|].
  destruct (keywordChar c) eqn:Hc; [reflexivity|]. exfalso.
  cbn [List.length search] in H.
  assert (Hm : matchAt (c :: rest) (mkFlags false false false)
                 (Seq AssertStart
                    (Seq (Quant 1 None true
                            (Class false [CARange "a" "z"; CARange "A" "Z";
                                          CARange "0" "9"; CAChar "_";
                                          CAChar "-"]))
                         (Seq AssertEnd Empty))) 0 = None).
  { unfold matchAt. cbn [CompileSubpattern assertStart].
    cbn [RepeatMatcher Nat.add Nat.eqb negb].
    unfold CharacterSetMatcher, found. cbn [nth_error ignoreCase xorb].
    unfold keywordChar in Hc. now rewrite Hc. }
  rewrite Hm, search_anchored in H by reflexivity. discriminate.
Qed.

Lemma validEntry_literal (minLength : JSON) (keyword : string)
  (color : JSON) :
  validEntry minLength (keyword, color) = true ->
  isRegexKeyword keyword = false /\ 0 < String.length keyword.
Proof.
  unfold validEntry. cbn [fst snd]. intros H.
  apply andb_prop in H. destruct H as [H _].
  apply andb_prop in H. destruct H as [_ H].
  apply charset_first in H. destruct H as (c & rest & E & Hc).
  split.
  - unfold isRegexKeyword. rewrite E.
    destruct (eqc c "/") eqn:Es; [|reflexivity].
    apply eqc_eq in Es. subst c. vm_compute in Hc. discriminate.
  - rewrite <- chars_length, E. simpl. lia.
Qed.

(** ** A keyword whose pattern does not compile *)

Lemma whileExec_throwing {St : Type}
  (body : MatchResult -> St -> Completion * St) (e : JSError)
  (str : list ascii) (fuel : nat) (R : RegExp) (st : St) :
  (forall m s, body m s = (Throws e, s)) ->
  whileExec body str fuel R st
  = match exec R str with
    | (None, R') => (Normal, R', st)
    | (Some _, R') => (Throws e, R', st)
    end.
Proof.
  intros Hb. destruct fuel; simpl;
    destruct (exec R str) as [[m|] R']; try reflexivity;
    now rewrite Hb.
Qed.

Section Malformed.

Variable doc : TextDocument.
Variable regexKeyword : string.
Variable caseSensitive : bool.
Hypothesis malformed :
  RegExp_new (slice1 regexKeyword) (flagsFor caseSensitive) = None.
Hypothesis embedded : outsideFragment (chars (slice1 regexKeyword)) = false.

Variable errorMessage : string.

Lemma regexComment_malformed (m : MatchResult) (ranges : list Range) :
  regexComment doc (slice1 regexKeyword) caseSensitive m ranges
  = (Throws (SyntaxError "Invalid regular expression"), ranges).
Proof.
  unfold regexComment, notCompiled. now rewrite malformed, embedded.
Qed.

Lemma scanPattern_malformed (p : CommentPattern) (ranges : list Range)
  (w : World) :
  scanPattern doc (regexComment doc (slice1 regexKeyword) caseSensitive)
              errorMessage p ranges w
  = match exec (pattern p) (chars (getText doc)) with
    | (None, R') =>
        (Normal, mkPattern (type p) (setLastIndex R' 0), ranges, w)
    | (Some _, R') =>
        (Normal, mkPattern (type p) R', ranges,
         snd (logError errorMessage
                (Some (SyntaxError "Invalid regular expression")) w))
    end.
Proof.
  unfold scanPattern.
  rewrite (whileExec_throwing _ (SyntaxError "Invalid regular expression"))
    by (intros; apply regexComment_malformed).
  destruct (exec (pattern p) (chars (getText doc))) as [[m|] R'].
  - unfold bind, ret. now destruct (logError errorMessage _ w).
  - reflexivity.
Qed.

(** Every descriptor that finds a comment makes the constructor throw;
    the exception is caught and logged, no range is pushed, and the
    loop over the descriptors goes on. *)
Lemma forEachPattern_malformed (ps : list CommentPattern)
  (ranges : list Range) (w : World) :
  exists w',
    forEachPattern
      (scanPattern doc (regexComment doc (slice1 regexKeyword) caseSensitive)
                   errorMessage) ps ranges w
    = (Normal, map (afterThrow (getText doc)) ps, ranges, w')
    /\ logOnly w w'
    /\ errorCount w'
       = errorCount w + List.length (filter (findsComment (getText doc)) ps).
Proof.
  revert w. induction ps as [|p rest IH]; intros w.
  - exists w. simpl. unfold ret.
    repeat split; [apply logOnly_refl | lia].
  - cbn [forEachPattern filter map]. unfold bind at 1.
    rewrite scanPattern_malformed. unfold findsComment at 1.
    unfold afterThrow at 1.
    destruct (exec (pattern p) (chars (getText doc))) as [[m|] R'];
      cbn [fst].
    + pose proof (logError_logOnly errorMessage
                    (Some (SyntaxError "Invalid regular expression")) w) as HL.
      pose proof (logError_errorCount errorMessage
                    (Some (SyntaxError "Invalid regular expression")) w) as HC.
      set (w1 := snd (logError errorMessage _ w)) in *.
      destruct (IH w1) as (w' & E & L & C).
      unfold bind. rewrite E. unfold ret.
      exists w'. split; [reflexivity|].
      split; [eapply logOnly_trans; eauto | simpl; lia].
    + destruct (IH w) as (w' & E & L & C).
      unfold bind. rewrite E. unfold ret.
      exists w'. split; [reflexivity|]. split; [exact L | lia].
Qed.

End Malformed.

(** ** The loop over the keywords *)

Lemma setDecorations_frame (h : DecorationType) (ranges : list Range)
  (w : World) :
  let w' := snd (setDecorations h ranges w) in
  config w' = config w /\ decorationTypes w' = decorationTypes w
  /\ scanned w' = scanned w /\ errorCount w' = errorCount w.
Proof.
  unfold setDecorations, setEditor.
  destruct (activeTextEditor w); simpl; auto.
Qed.

(** One keyword: it never throws, it keeps the settings and the
    decoration types, and it is handed to the matcher exactly when it has
    a decoration type. *)
Lemma scanKeyword_spec (doc : TextDocument) (caseSensitive : bool)
  (keyword : string) (ps : list CommentPattern) (w : World) :
  match scanKeyword doc caseSensitive keyword ps w with
  | (c, ps', w') =>
      (forall e, c <> Throws e)
      /\ config w' = config w
      /\ decorationTypes w' = decorationTypes w
      /\ scanned w'
         = scanned w ++ (if hasDecorationType w keyword then [keyword] else [])
  end.
Proof.
  unfold scanKeyword, bind, getDecorationType, hasDecorationType.
  destruct (assoc keyword (decorationTypes w)) as [h|] eqn:Hdt.
  - unfold markScanned.
    set (w0 := mkWorld _ _ _ _ _ _ _ _ (scanned w ++ [keyword])).
    pose proof (findCommentKeywords_logOnly doc keyword ps caseSensitive w0)
      as H.
    destruct (findCommentKeywords doc keyword ps caseSensitive w0)
      as [[[c ps'] ranges] w1].
    destruct H as ((C & D & _ & _ & _ & S & _) & T).
    subst w0. cbn [config decorationTypes scanned] in C, D, S.
    destruct c as [|e| |].
    + destruct ranges as [|r ranges]; unfold ret.
      * repeat split; auto; intros; discriminate.
      * pose proof (setDecorations_frame h (r :: ranges) w1) as F.
        destruct (setDecorations h (r :: ranges) w1) as [u w2].
        simpl in F. destruct F as (F1 & F2 & F3 & _).
        repeat split; try congruence; intros; discriminate.
    + now destruct (T e).
    + unfold ret. repeat split; auto; intros; discriminate.
    + unfold ret. repeat split; auto; intros; discriminate.
  - unfold ret. rewrite app_nil_r.
    repeat split; auto; intros; discriminate.
Qed.

Lemma hasDecorationType_frame (w w' : World) (keyword : string) :
  decorationTypes w' = decorationTypes w ->
  hasDecorationType w' keyword = hasDecorationType w keyword.
Proof. unfold hasDecorationType. now intros ->. Qed.

(** The loop never throws, and when it returns the matcher was run for
    every keyword that has a decoration type, in order. *)
Lemma scanKeywords_spec (doc : TextDocument) (caseSensitive : bool)
  (keywords : list string) (ps : list CommentPattern) (w : World) :
  match scanKeywords doc caseSensitive keywords ps w with
  | (c, ps', w') =>
      (forall e, c <> Throws e)
      /\ config w' = config w
      /\ decorationTypes w' = decorationTypes w
      /\ (c = Normal ->
          scanned w' = scanned w ++ filter (hasDecorationType w) keywords)
  end.
Proof.
  revert ps w. induction keywords as [|k rest IH]; intros ps w; simpl.
  - unfold ret. rewrite app_nil_r. repeat split; auto; intros; discriminate.
  - unfold bind.
    pose proof (scanKeyword_spec doc caseSensitive k ps w) as Hk.
    destruct (scanKeyword doc caseSensitive k ps w) as [[c ps1] w1].
    destruct Hk as (T1 & C1 & D1 & S1).
    destruct c as [|e| |].
    + specialize (IH ps1 w1).
      destruct (scanKeywords doc caseSensitive rest ps1 w1) as [[c' ps2] w2].
      destruct IH as (T2 & C2 & D2 & S2).
      repeat split; try congruence.
      intros Hc. rewrite (S2 Hc), S1, <- app_assoc. f_equal.
      rewrite (filter_ext (hasDecorationType w1) (hasDecorationType w))
        by (intros; now apply hasDecorationType_frame).
      now destruct (hasDecorationType w k).
    + now destruct (T1 e).
    + unfold ret. repeat split; auto; intros; discriminate.
    + unfold ret. repeat split; auto; intros; discriminate.
Qed.


(** ** Objects in enumeration order *)

Lemma enumerated_remove (l1 l2 : Object_) (e : string * JSON) :
  enumerated (l1 ++ e :: l2) -> enumerated (l1 ++ l2).
Proof.
  induction l1 as [|[k v] l1 IH]; simpl.
  - destruct e. tauto.
  - intros [H1 H2]. split; [|now apply IH].
    intros e' He'. apply H1. apply in_app_iff in He'. apply in_app_iff.
    destruct He'; [left | right; right]; assumption.
Qed.

Lemma enumerated_prefix (l1 l2 : Object_) :
  enumerated (l1 ++ l2) -> enumerated l1.
Proof.
  induction l1 as [|[k v] l1 IH]; simpl; [tauto|].
  intros [H1 H2]. split; [|now apply IH].
  intros e' He'. apply H1. apply in_app_iff. now left.
Qed.

(** A property that comes last in enumeration order is appended. *)
Lemma obj_set_append (o : Object_) (k : string) (v : JSON) :
  enumerated (o ++ [(k, v)]) -> obj_set o k v = o ++ [(k, v)].
Proof.
  induction o as [|[k' v'] o IH]; simpl; [reflexivity|].
  intros [H1 H2].
  destruct (H1 (k, v)) as [A B]; [apply in_app_iff; right; now left|].
  simpl in A, B. rewrite A, B. simpl. now rewrite IH.
Qed.

Lemma obj_set_keys (o : Object_) (k : string) (v : JSON) (e : string * JSON) :
  In e (obj_set o k v) -> fst e = k \/ exists e', In e' o /\ fst e' = fst e.
Proof.
  induction o as [|[k' v'] o IH]; simpl.
  - intros [<-|[]]. now left.
  - destruct (String.eqb k k') eqn:E.
    + apply String.eqb_eq in E. subst k'.
      intros [<-|H]; [now left|]. right. exists e. auto.
    + destruct (keyBefore k k' && _).
      * intros [<-|[<-|H]]; [now left| |].
        -- right. exists (k', v'). auto.
        -- right. exists e. auto.
      * intros [<-|H].
        -- right. exists (k', v'). auto.
        -- destruct (IH H) as [->|(e' & He' & Hk)]; [now left|].
           right. exists e'. auto.
Qed.

Lemma keyBefore_irrefl_step (k k' : string) :
  keyBefore k k' = true -> keyBefore k' k = false.
Proof.
  unfold keyBefore.
  destruct (arrayIndex k), (arrayIndex k'); try discriminate; auto.
  intros H. apply N.ltb_lt in H. apply N.ltb_ge. lia.
Qed.

Lemma keyBefore_later (k k' k2 : string) :
  keyBefore k k' = true -> keyBefore k2 k' = false -> keyBefore k2 k = false.
Proof.
  unfold keyBefore.
  destruct (arrayIndex k), (arrayIndex k'), (arrayIndex k2);
    try discriminate; auto.
  intros H1 H2. apply N.ltb_lt in H1. apply N.ltb_ge in H2. apply N.ltb_ge.
  lia.
Qed.

(** Assignment keeps an object in enumeration order. *)
Lemma obj_set_enumerated (o : Object_) (k : string) (v : JSON) :
  enumerated o -> enumerated (obj_set o k v).
Proof.
  induction o as [|[k' v'] o IH]; simpl.
  - intros _. split; [intros e []|exact I].
  - intros [H1 H2].
    destruct (String.eqb k k') eqn:E.
    + apply String.eqb_eq in E. subst k'. simpl. auto.
    + destruct (keyBefore k k') eqn:B; simpl.
      * destruct (existsb _ o) eqn:X; simpl.
        -- split; [|now apply IH].
           intros e He. apply obj_set_keys in He.
           destruct He as [->|(e' & He' & <-)]; [|now apply H1].
           split; [exact E|].
           apply existsb_exists in X. destruct X as (e' & He' & Hk).
           apply String.eqb_eq in Hk. rewrite Hk. now apply H1.
        -- split; [|simpl; auto].
           intros e [<-|He]; simpl.
           ++ split; [now rewrite String.eqb_sym|].
              now apply keyBefore_irrefl_step.
           ++ split.
              ** destruct (String.eqb (fst e) k) eqn:Ek; [|reflexivity].
                 rewrite String.eqb_sym in Ek.
                 assert (existsb (fun e0 => String.eqb k (fst e0)) o = true)
                   by (apply existsb_exists; eauto).
                 congruence.
              ** eapply keyBefore_later; [exact B|]. now apply H1.
      * split; [|now apply IH].
        intros e He. apply obj_set_keys in He.
        destruct He as [->|(e' & He' & <-)]; [|now apply H1].
        auto.
Qed.

Lemma fold_obj_set_enumerated (entries o : Object_) :
  enumerated o ->
  enumerated (fold_left (fun o '(k, v) => obj_set o k v) entries o).
Proof.
  revert o. induction entries as [|[k v] rest IH]; simpl; auto.
  intros o H. apply IH. now apply obj_set_enumerated.
Qed.

Lemma spread2_enumerated (a b : JSON) : enumerated (spread2 a b).
Proof.
  unfold spread2. apply fold_obj_set_enumerated, fold_obj_set_enumerated.
  exact I.
Qed.

Lemma getDefaultKeywords_enumerated : enumerated getDefaultKeywords.
Proof.
  simpl.
  repeat (split;
          [intros e He;
           repeat (destruct He as [<-|He]; [split; reflexivity|]);
           contradiction |]).
  exact I.
Qed.

Lemma safeMergeKeywords_eq (w : World) :
  safeMergeKeywords w
  = let defaultKeywords := setting w "keywords" (JObj []) in
    let customKeywords := setting w "customKeywords" (JObj []) in
    if negb (typeofObject defaultKeywords)
       || negb (typeofObject customKeywords)
    then (getDefaultKeywords,
          snd (logError "Keywords are not objects, using defaults" None w))
    else (spread2 defaultKeywords customKeywords, w).
Proof.
  unfold safeMergeKeywords, bind, config_get, setting, ret. cbn [fst].
  destruct (negb _ || negb _); [|reflexivity].
  now destruct (logError _ None w).
Qed.

Lemma safeMergeKeywords_enumerated (w : World) :
  enumerated (fst (safeMergeKeywords w)).
Proof.
  rewrite safeMergeKeywords_eq. cbv zeta.
  destruct (negb _ || negb _); cbn [fst].
  - apply getDefaultKeywords_enumerated.
  - apply spread2_enumerated.
Qed.

Lemma safeMergeKeywords_logOnly (w : World) :
  logOnly w (snd (safeMergeKeywords w)).
Proof.
  rewrite safeMergeKeywords_eq. cbv zeta.
  destruct (negb _ || negb _); cbn [snd].
  - apply logError_logOnly.
  - apply logOnly_refl.
Qed.

(** ** The cap on the number of keywords *)

Lemma In_firstn_In {A : Type} (n : nat) (l : list A) (x : A) :
  In x (firstn n l) -> In x l.
Proof.
  intros H. rewrite <- (firstn_skipn n l). apply in_app_iff. now left.
Qed.

(** A count reaches the cap when it is at least [capOf]. *)
Lemma atLeast_capOf (count : nat) (maxKeywords : JSON) :
  atLeast count maxKeywords
  = match capOf maxKeywords with
    | Some n => n <=? count
    | None => false
    end.
Proof.
  unfold atLeast, capOf.
  destruct (ToNumber maxKeywords) as [|[|]|q]; try reflexivity.
  destruct (Qle_bool q (inject_Z (Z.of_nat count))) eqn:E; symmetry.
  - apply Qle_bool_iff in E. apply Nat.leb_le.
    apply Qceiling_resp_le in E. rewrite Qceiling_Z in E. lia.
  - apply Nat.leb_gt. destruct (Nat.le_gt_cases (Z.to_nat (Qceiling q)) count)
      as [H|H]; [|exact H].
    exfalso. assert (Hq : Qle_bool q (inject_Z (Z.of_nat count)) = true);
      [|congruence].
    apply Qle_bool_iff. apply Qle_trans with (inject_Z (Qceiling q)).
    + apply Qle_ceiling.
    + rewrite <- Zle_Qle. lia.
Qed.

(** The cap of an integer. *)
Lemma capOf_integer (z : Z) : capOf (JNum (inject_Z z)) = Some (Z.to_nat z).
Proof. unfold capOf. cbn [ToNumber]. now rewrite Qceiling_Z. Qed.

Lemma In_stored (l : Object_) (e : string * JSON) :
  In e (stored l) -> In e l.
Proof. unfold stored. intros H. now apply filter_In in H. Qed.

Lemma In_cappedFrom (maxKeywords : JSON) (count : nat) (l : Object_)
  (e : string * JSON) :
  In e (cappedFrom maxKeywords count l) -> In e l.
Proof.
  unfold cappedFrom. destruct (capOf maxKeywords); [apply In_firstn_In|auto].
Qed.

Lemma enumerated_fresh (acc : Object_) (k : string) (c : JSON) :
  enumerated (acc ++ [(k, c)]) -> assoc k acc = None.
Proof.
  induction acc as [|[k' v'] acc IH]; simpl; [reflexivity|].
  intros [H1 H2].
  destruct (H1 (k, c)) as [A _]; [apply in_app_iff; right; now left|].
  simpl in A. rewrite A. now apply IH.
Qed.

Lemma validateKeywords_loop_spec (entries : Object_)
  (minLength maxKeywords : JSON) :
  forall (acc : Object_) (count : nat) (w : World),
    enumerated (acc ++ entries) ->
    fst (validateKeywords_loop entries minLength maxKeywords acc count w)
    = acc ++ stored (cappedFrom maxKeywords count
                       (filter (validEntry minLength) entries)).
Proof.
  induction entries as [|[k c] rest IH]; intros acc count w He;
    cbn [validateKeywords_loop filter].
  - unfold cappedFrom. destruct (capOf maxKeywords);
      rewrite ?firstn_nil; cbn; now rewrite app_nil_r.
  - rewrite atLeast_capOf. unfold cappedFrom.
    destruct (capOf maxKeywords) as [n|] eqn:Hcap.
    + destruct (n <=? count) eqn:Hn.
      * rewrite bind_ret_fst. apply Nat.leb_le in Hn.
        replace (n - count) with 0 by lia. cbn. now rewrite app_nil_r.
      * apply Nat.leb_gt in Hn. unfold bind.
        pose proof (validateKeyword_verdict k c minLength w) as Hv.
        destruct (validateKeyword k c minLength w) as [ok w1]. simpl in Hv.
        subst ok. destruct (validEntry minLength (k, c)).
        -- replace (n - count) with (S (n - S count)) by lia.
           cbn [firstn stored filter fst].
           assert (Hpre : enumerated (acc ++ [(k, c)]))
             by (apply enumerated_prefix with (l2 := rest);
                 now rewrite <- app_assoc).
           unfold obj_assign. rewrite (enumerated_fresh acc k c Hpre).
           destruct (String.eqb k "__proto__") eqn:Hp; cbn [andb negb].
           ++ rewrite IH by (eapply enumerated_remove; eauto).
              unfold cappedFrom. now rewrite Hcap.
           ++ rewrite obj_set_append by exact Hpre.
              rewrite IH by (now rewrite <- app_assoc).
              unfold cappedFrom. rewrite Hcap, <- app_assoc. reflexivity.
        -- rewrite IH by (eapply enumerated_remove; eauto).
           unfold cappedFrom. now rewrite Hcap.
    + unfold bind.
      pose proof (validateKeyword_verdict k c minLength w) as Hv.
      destruct (validateKeyword k c minLength w) as [ok w1]. simpl in Hv.
      subst ok. destruct (validEntry minLength (k, c)).
      * cbn [stored filter fst].
        assert (Hpre : enumerated (acc ++ [(k, c)]))
          by (apply enumerated_prefix with (l2 := rest);
              now rewrite <- app_assoc).
        unfold obj_assign. rewrite (enumerated_fresh acc k c Hpre).
        destruct (String.eqb k "__proto__") eqn:Hp; cbn [andb negb].
        -- rewrite IH by (eapply enumerated_remove; eauto).
           unfold cappedFrom. now rewrite Hcap.
        -- rewrite obj_set_append by exact Hpre.
           rewrite IH by (now rewrite <- app_assoc).
           unfold cappedFrom. rewrite Hcap, <- app_assoc. reflexivity.
      * rewrite IH by (eapply enumerated_remove; eauto).
        unfold cappedFrom. now rewrite Hcap.
Qed.

Lemma validateKeywords_spec (keywords : Object_) (w : World) :
  enumerated keywords ->
  fst (validateKeywords keywords w)
  = stored (capped (maxKeywordsOf w)
              (filter (validEntry (minKeywordLengthOf w)) keywords)).
Proof.
  intros He. unfold validateKeywords, bind, config_get,
               maxKeywordsOf, minKeywordLengthOf, setting, capped.
  cbn [fst]. now rewrite validateKeywords_loop_spec.
Qed.

(** ** The scan returns *)

(** Literal keywords that are not empty, over the table of a language:
    every keyword is matched in finitely many steps, so the loop over the
    keywords returns, with the descriptors as they were. *)
Lemma scanKeywords_literal (doc : TextDocument) (caseSensitive : bool)
  (language : string) (keywords : list string) :
  Forall (fun k => isRegexKeyword k = false /\ 0 < String.length k) keywords ->
  forall w,
    fst (scanKeywords doc caseSensitive keywords
                      (getCommentPatterns language) w)
    = (Normal, getCommentPatterns language).
Proof.
  induction 1 as [|k rest [Hre Hlen] _ IH]; intros w; [reflexivity|].
  cbn [scanKeywords]. unfold bind at 1.
  assert (Hk : exists w1,
             scanKeyword doc caseSensitive k (getCommentPatterns language) w
             = (Normal, getCommentPatterns language, w1)).
  { unfold scanKeyword, bind, getDecorationType.
    destruct (assoc k (decorationTypes w)) as [h|]; [|eexists; reflexivity].
    unfold markScanned.
    set (w0 := mkWorld _ _ _ _ _ _ _ _ (scanned w ++ [k])).
    destruct (findCommentKeywords_returns doc k language caseSensitive w0)
      as (ranges & E & _);
      [rewrite Hre; apply andb_false_r | exact Hlen |].
    rewrite E. destruct ranges as [|r ranges]; unfold ret.
    - eexists; reflexivity.
    - destruct (setDecorations h (r :: ranges) w0) as [u w1].
      eexists; reflexivity. }
  destruct Hk as (w1 & ->). apply IH.
Qed.

Lemma In_map_fst {A B : Type} (l : list (A * B)) (a : A) :
  In a (map fst l) -> exists b, In (a, b) l.
Proof.
  intros H. apply in_map_iff in H. destruct H as ([a' b] & E & H).
  simpl in E. subst a'. eauto.
Qed.

(** Every keyword of the validated set is a literal keyword that is not
    empty: no regex keyword reaches the matcher. *)
Lemma validateKeywords_literal (keywords : Object_) (w : World) :
  enumerated keywords ->
  Forall (fun k => isRegexKeyword k = false /\ 0 < String.length k)
         (map fst (fst (validateKeywords keywords w))).
Proof.
  intros He. rewrite validateKeywords_spec by assumption.
  apply Forall_forall. intros k Hk.
  apply In_map_fst in Hk. destruct Hk as (c & Hin).
  apply In_stored, In_cappedFrom, filter_In in Hin.
  destruct Hin as [_ Hv]. now apply validEntry_literal in Hv.
Qed.

(** X7.  [updateDecorations] returns in every world: the scan is a finite
    computation, and it runs the literal matcher only. *)
Theorem updateDecorations_returns (w : World) :
  fst (updateDecorations w) = Normal.
Proof.
  unfold updateDecorations, bind, config_get.
  destruct (negb _); [reflexivity|].
  destruct (activeTextEditor w) as [e|]; [|reflexivity].
  destruct (inheritedLength (languageId (document e))) as [[[|n]|]|];
    [reflexivity| | |];
    try (unfold clearDecorations, ret;
         destruct (safeMergeKeywords w) as [keywords w1];
         destruct (validateKeywords keywords w1) as [validKeywords w2];
         now destruct (scanKeywordsInherited (map fst validKeywords) w2)).
  destruct (getCommentPatterns (languageId (document e))) as [|p ps] eqn:Ep;
    [reflexivity|].
  pose proof (safeMergeKeywords_enumerated w) as He.
  destruct (safeMergeKeywords w) as [keywords w1]. cbn [fst] in He.
  unfold clearDecorations, ret.
  pose proof (validateKeywords_literal keywords w1 He) as Hl.
  destruct (validateKeywords keywords w1) as [validKeywords w2].
  cbn [fst] in Hl.
  pose proof (scanKeywords_literal (document e)
                (truthy (Some match assoc "caseSensitive" (config w1) with
                              | Some v => v
                              | None => JBool false
                              end))
                (languageId (document e)) (map fst validKeywords) Hl w2) as Hs.
  rewrite Ep in Hs.
  destruct (scanKeywords _ _ _ (p :: ps) w2) as [r w3].
  cbn [fst] in Hs. now rewrite Hs.
Qed.

(** ** Theme import and export *)

Lemma setting_config (w w' : World) (key : string) (d : JSON) :
  config w' = config w -> setting w' key d = setting w key d.
Proof. unfold setting, config_get. simpl. now intros ->. Qed.

Lemma importFailed_spec (error : JSError) (w : World) :
  fst (importFailed error w) = Throws error
  /\ config (snd (importFailed error w)) = config w
  /\ toasts (snd (importFailed error w))
     = toasts w
       ++ [ErrorMessage
             "Failed to import theme. Please check the file format."].
Proof.
  unfold importFailed, bind, showToast, ret.
  pose proof (logError_logOnly "Error importing theme" (Some error) w) as L.
  destruct (logError "Error importing theme" (Some error) w) as [u w1].
  simpl in *. destruct L as (C & _ & _ & _ & T & _).
  now rewrite C, T.
Qed.

(** C8.  A theme document with neither [keywords] nor [customKeywords]
    is rejected: the user is shown an error message and no setting is
    written. *)
Theorem importTheme_requires_keywords :
  forall (uri : string) (others : list string) (theme : JSON) (w : World),
    assoc uri (files w) = Some (Some theme) ->
    getProp theme "keywords" = None ->
    getProp theme "customKeywords" = None ->
    let w' := snd (importTheme (Some (uri :: others)) w) in
    config w' = config w
    /\ (exists msg, toasts w' = toasts w ++ [ErrorMessage msg])
    /\ (theme <> JNull ->
        fst (importTheme (Some (uri :: others)) w) = Normal
        /\ toasts w'
           = toasts w ++ [ErrorMessage "Invalid theme file: missing keywords"]).
Proof.
  intros uri others theme w Hfile Hk Hc.
  unfold importTheme, bind, readFile. rewrite Hfile.
  destruct theme as [|b|n|s|items|props];
    try (unfold applyTheme; rewrite Hk, Hc; simpl; repeat split; eauto; fail).
  destruct (importFailed_spec (TypeError "Cannot read properties of null") w)
    as (_ & C & T).
  cbv zeta. split; [exact C|]. split; [eauto|]. intros H. now destruct H.
Qed.

Lemma importTheme_requires_keywords_witness :
  let w := mkWorld (Some []) [] 0 packageDefaults [] None
                   [("/tmp/theme.json", Some (JObj [("name", JStr "empty")]))]
                   [] [] in
  let w' := snd (importTheme (Some ["/tmp/theme.json"]) w) in
  config w' = config w
  /\ toasts w' = [ErrorMessage "Invalid theme file: missing keywords"].
Proof.
  intros w w'.
  destruct (importTheme_requires_keywords
              "/tmp/theme.json" [] (JObj [("name", JStr "empty")]) w
              eq_refl eq_refl eq_refl) as (C & _ & N).
  split; [exact C|].
  destruct N as [_ T]; [discriminate|]. exact T.
Defined.

(** What an import writes never comes from a document without both
    keys. *)
Lemma importTheme_changes_only_with_keywords
  (openDialog : option (list string)) (w : World) :
  config (snd (importTheme openDialog w)) <> config w ->
  exists uri others theme,
    openDialog = Some (uri :: others)
    /\ assoc uri (files w) = Some (Some theme)
    /\ (getProp theme "keywords" <> None
        \/ getProp theme "customKeywords" <> None).
Proof.
  intros Hchg.
  destruct openDialog as [[|uri others]|]; try (now destruct Hchg).
  destruct (assoc uri (files w)) as [[theme|]|] eqn:Hfile.
  - exists uri, others, theme. repeat split; auto.
    destruct (getProp theme "keywords") eqn:Hk; [left; discriminate|].
    destruct (getProp theme "customKeywords") eqn:Hc; [right; discriminate|].
    exfalso. apply Hchg.
    now apply (importTheme_requires_keywords uri others theme w).
  - exfalso. apply Hchg. unfold importTheme, bind, readFile. rewrite Hfile.
    apply importFailed_spec.
  - exfalso. apply Hchg. unfold importTheme, bind, readFile. rewrite Hfile.
    apply importFailed_spec.
Qed.

Lemma themeOf_eq (today : string) (w : World) :
  themeOf today w
  = (themeDocument today (h_keywords (highlighting w))
       (h_customKeywords (highlighting w)) (h_caseSensitive (highlighting w))
       (h_highlightStyle (highlighting w)) (h_fontWeight (highlighting w))
       (h_showIcons (highlighting w)) (h_enableRegexKeywords (highlighting w)),
     w).
Proof. reflexivity. Qed.

(** The effect of importing a document of the exported form. *)
Lemma applyTheme_themeDocument (today : string) (h : Highlighting) :
  configStep
    (applyTheme (themeDocument today (h_keywords h) (h_customKeywords h)
                   (h_caseSensitive h) (h_highlightStyle h) (h_fontWeight h)
                   (h_showIcons h) (h_enableRegexKeywords h)))
    (importedConfig h)
  /\ forall w,
       fst (applyTheme (themeDocument today (h_keywords h)
                          (h_customKeywords h) (h_caseSensitive h)
                          (h_highlightStyle h) (h_fontWeight h)
                          (h_showIcons h) (h_enableRegexKeywords h)) w)
       = Normal.
Proof.
  destruct h as [kv ckv cs hs fw si er].
  cbn [h_keywords h_customKeywords h_caseSensitive h_highlightStyle
       h_fontWeight h_showIcons h_enableRegexKeywords].
  unfold applyTheme, importedConfig.
  cbn [h_keywords h_customKeywords h_caseSensitive h_highlightStyle
       h_fontWeight h_showIcons h_enableRegexKeywords].
  replace (getProp (themeDocument today kv ckv cs hs fw si er) "keywords")
    with (Some kv) by reflexivity.
  replace (getProp (themeDocument today kv ckv cs hs fw si er) "customKeywords")
    with (Some ckv) by reflexivity.
  assert (Hs : forall w,
             config (snd (importSettings
                            (themeDocument today kv ckv cs hs fw si er) w))
             = obj_set (obj_set (obj_set (obj_set (obj_set (config w)
                 "caseSensitive" cs) "highlightStyle" hs) "fontWeight" fw)
                 "showIcons" si) "enableRegexKeywords" er)
    by (intros w; reflexivity).
  assert (Hmk : forall w,
             config (snd (importMapping
                            (themeDocument today kv ckv cs hs fw si er)
                            "keywords" w))
             = if truthy (Some kv) then obj_set (config w) "keywords" kv
               else config w).
  { intros w. unfold importMapping.
    replace (getProp (themeDocument today kv ckv cs hs fw si er) "keywords")
      with (Some kv) by reflexivity.
    now destruct (truthy (Some kv)). }
  assert (Hmc : forall w,
             config (snd (importMapping
                            (themeDocument today kv ckv cs hs fw si er)
                            "customKeywords" w))
             = if truthy (Some ckv) then obj_set (config w) "customKeywords" ckv
               else config w).
  { intros w. unfold importMapping.
    replace (getProp (themeDocument today kv ckv cs hs fw si er)
                     "customKeywords")
      with (Some ckv) by reflexivity.
    now destruct (truthy (Some ckv)). }
  destruct (negb (truthy (Some kv)) && negb (truthy (Some ckv))).
  - split; intros w; [reflexivity | apply bind_ret_fst].
  - split.
    + intros w. unfold bind.
      pose proof (Hmk w) as E1.
      destruct (importMapping _ "keywords" w) as [u1 w1].
      pose proof (Hmc w1) as E2.
      destruct (importMapping _ "customKeywords" w1) as [u2 w2].
      pose proof (Hs w2) as E3.
      destruct (importSettings _ w2) as [u3 w3].
      cbn [snd] in E1, E2, E3. unfold showToast, ret. cbn [snd config].
      now rewrite E3, E2, E1.
    + intros w. unfold bind.
      destruct (importMapping _ "keywords" w) as [u1 w1].
      destruct (importMapping _ "customKeywords" w1) as [u2 w2].
      destruct (importSettings _ w2) as [u3 w3].
      reflexivity.
Qed.

(** The settings after importing the document that [exportTheme] wrote
    for the world [w], into any world [wT] that holds it at [uri]. *)
Lemma importTheme_of_export (today uri : string) (others : list string)
  (w wT : World) :
  assoc uri (files wT) = Some (Some (fst (themeOf today w))) ->
  fst (importTheme (Some (uri :: others)) wT) = Normal
  /\ config (snd (importTheme (Some (uri :: others)) wT))
     = importedConfig (highlighting w) (config wT).
Proof.
  intros Hf. rewrite themeOf_eq in Hf. cbn [fst] in Hf.
  unfold importTheme, bind, readFile. rewrite Hf.
  destruct (applyTheme_themeDocument today (highlighting w)) as [Hc Hn].
  change (fst (applyTheme
                 (themeDocument today (h_keywords (highlighting w))
                    (h_customKeywords (highlighting w))
                    (h_caseSensitive (highlighting w))
                    (h_highlightStyle (highlighting w))
                    (h_fontWeight (highlighting w))
                    (h_showIcons (highlighting w))
                    (h_enableRegexKeywords (highlighting w))) wT) = Normal
          /\ config (snd (applyTheme
                 (themeDocument today (h_keywords (highlighting w))
                    (h_customKeywords (highlighting w))
                    (h_caseSensitive (highlighting w))
                    (h_highlightStyle (highlighting w))
                    (h_fontWeight (highlighting w))
                    (h_showIcons (highlighting w))
                    (h_enableRegexKeywords (highlighting w))) wT))
             = importedConfig (highlighting w) (config wT)).
  split; [apply Hn | apply Hc].
Qed.

Lemma exportTheme_spec (today uri : string) (w : World) :
  let w1 := snd (exportTheme today (Some uri) w) in
  config w1 = config w
  /\ assoc uri (files w1) = Some (Some (fst (themeOf today w))).
Proof.
  unfold exportTheme, bind.
  assert (Hw : snd (themeOf today w) = w) by reflexivity.
  destruct (themeOf today w) as [theme w0]. simpl in Hw. subst w0.
  unfold writeFile, showToast. simpl. now rewrite String.eqb_refl.
Qed.

Ltac lookup_setting :=
  unfold setting, config_get; cbn [fst config];
  repeat (rewrite assoc_obj_set_other by reflexivity);
  try rewrite assoc_obj_set_same; try reflexivity.

(** Importing into the settings the theme was exported from changes
    none of the settings the theme carries. *)
Lemma importedConfig_same (w : World) (cfg : Object_) :
  cfg = config w ->
  highlighting (withConfig (importedConfig (highlighting w) cfg) w)
  = highlighting w.
Proof.
  intros ->. unfold importedConfig.
  destruct (negb _ && negb _); [now destruct w|].
  set (h := highlighting w).
  assert (Hk : h_keywords h = setting w "keywords" (JObj [])) by reflexivity.
  assert (Hc : h_customKeywords h = setting w "customKeywords" (JObj []))
    by reflexivity.
  unfold highlighting at 1. unfold withConfig.
  destruct (truthy (Some (h_keywords h))),
           (truthy (Some (h_customKeywords h)));
    cbv zeta; unfold h, highlighting; f_equal; lookup_setting.
Qed.

(** Importing into any settings reproduces the exported ones, when the
    exported [keywords] and [customKeywords] are mappings (or any other
    value that counts as true). *)
Lemma importedConfig_any (w wT : World) :
  truthy (Some (setting w "keywords" (JObj []))) = true ->
  truthy (Some (setting w "customKeywords" (JObj []))) = true ->
  highlighting (withConfig (importedConfig (highlighting w) (config wT)) wT)
  = highlighting w.
Proof.
  intros Hk Hc. unfold importedConfig.
  cbn [highlighting h_keywords h_customKeywords].
  rewrite Hk, Hc. cbn [negb andb]. cbv zeta.
  unfold highlighting, withConfig; f_equal; lookup_setting.
Qed.

Lemma highlighting_config (w w' : World) :
  config w' = config w -> highlighting w' = highlighting w.
Proof.
  intros H. unfold highlighting. now rewrite !(setting_config w w') by exact H.
Qed.

Lemma safeMergeKeywords_highlighting (w w' : World) :
  highlighting w' = highlighting w ->
  fst (safeMergeKeywords w') = fst (safeMergeKeywords w).
Proof.
  intros H. rewrite !safeMergeKeywords_eq. cbv zeta.
  assert (Hk : setting w' "keywords" (JObj []) = setting w "keywords" (JObj []))
    by (exact (f_equal h_keywords H)).
  assert (Hc : setting w' "customKeywords" (JObj [])
               = setting w "customKeywords" (JObj []))
    by (exact (f_equal h_customKeywords H)).
  rewrite Hk, Hc. now destruct (negb _ || negb _).
Qed.

(** The import writes none of the numeric settings. *)
Lemma importedConfig_numbers (h : Highlighting) (cfg : Object_) (key : string) :
  existsb (String.eqb key)
          [ "keywords"; "customKeywords"; "caseSensitive"; "highlightStyle";
            "fontWeight"; "showIcons"; "enableRegexKeywords" ] = false ->
  assoc key (importedConfig h cfg) = assoc key cfg.
Proof.
  intros H. simpl in H. repeat (apply orb_false_elim in H; destruct H as [? H]).
  unfold importedConfig.
  destruct (negb _ && negb _); [reflexivity|].
  destruct (truthy (Some (h_keywords h))),
           (truthy (Some (h_customKeywords h)));
    cbv zeta; repeat (rewrite assoc_obj_set_other by assumption); reflexivity.
Qed.

(** C9.  Export followed by import gives back the exported state of
    the highlighting.  Imported right after the export, the document
    leaves the keywords, the custom keywords and the five settings of
    the theme, and with them the merged and the validated keyword set,
    as they were.  And when the two keyword mappings count as true, as
    every object does, the import writes the exported values back
    whatever the settings were changed to after the export: the seven
    settings and the merged keyword set are again those of the export,
    and no other setting is written. *)
Theorem exportTheme_importTheme_roundtrip :
  forall (today uri : string) (w : World),
    let w1 := snd (exportTheme today (Some uri) w) in
    let w2 := snd (importTheme (Some [uri]) w1) in
    (highlighting w2 = highlighting w
     /\ fst (safeMergeKeywords w2) = fst (safeMergeKeywords w)
     /\ fst (validateKeywords (fst (safeMergeKeywords w2)) w2)
        = fst (validateKeywords (fst (safeMergeKeywords w)) w))
    /\ (truthy (Some (setting w "keywords" (JObj []))) = true ->
        truthy (Some (setting w "customKeywords" (JObj []))) = true ->
        forall changed : Object_,
          let r := importTheme (Some [uri]) (withConfig changed w1) in
          fst r = Normal
          /\ highlighting (snd r) = highlighting w
          /\ fst (safeMergeKeywords (snd r)) = fst (safeMergeKeywords w)
          /\ forall key,
               existsb (String.eqb key) themeKeys = false ->
               assoc key (config (snd r)) = assoc key changed).
Proof.
  intros today uri w w1 w2.
  destruct (exportTheme_spec today uri w) as [Hcfg Hfile].
  fold w1 in Hcfg, Hfile. split.
  - destruct (importTheme_of_export today uri [] w w1 Hfile) as [Hc Himp].
    fold w2 in Himp. rewrite Hcfg in Himp.
    assert (Hh : highlighting w2 = highlighting w).
    { rewrite <- (importedConfig_same w (config w) eq_refl).
      apply highlighting_config. now rewrite Himp. }
    assert (Hm : fst (safeMergeKeywords w2) = fst (safeMergeKeywords w))
      by (now apply safeMergeKeywords_highlighting).
    split; [exact Hh|]. split; [exact Hm|].
    rewrite Hm, !validateKeywords_spec by apply safeMergeKeywords_enumerated.
    unfold maxKeywordsOf, minKeywordLengthOf, setting, config_get. cbn [fst].
    rewrite Himp, !importedConfig_numbers by reflexivity. reflexivity.
  - intros Hk Hcu changed r.
    assert (Hfile' : assoc uri (files (withConfig changed w1))
                     = Some (Some (fst (themeOf today w))))
      by exact Hfile.
    destruct (importTheme_of_export today uri [] w (withConfig changed w1)
                Hfile') as [Hn Himp].
    fold r in Hn, Himp. cbn [config withConfig] in Himp.
    assert (Hh : highlighting (snd r) = highlighting w).
    { rewrite <- (importedConfig_any w (withConfig changed w1) Hk Hcu).
      apply highlighting_config. now rewrite Himp. }
    split; [exact Hn|]. split; [exact Hh|].
    split; [now apply safeMergeKeywords_highlighting|].
    intros key Hkey. rewrite Himp. now apply importedConfig_numbers.
Qed.

Lemma exportTheme_importTheme_roundtrip_witness :
  let w := withSetting "customKeywords" (JObj [("URGENT", JStr "#FF00FF")])
             (withSetting "showIcons" (JBool true) freshWorld) in
  let w1 := snd (exportTheme "2025-01-01" (Some "/tmp/theme.json") w) in
  let r := importTheme (Some ["/tmp/theme.json"])
                       (withConfig packageDefaults w1) in
  fst r = Normal
  /\ highlighting (snd r) = highlighting w
  /\ assoc "URGENT" (fst (safeMergeKeywords (snd r)))
     = Some (JStr "#FF00FF").
Proof.
  intros w w1 r.
  destruct (proj2 (exportTheme_importTheme_roundtrip
                     "2025-01-01" "/tmp/theme.json" w)
              eq_refl eq_refl packageDefaults) as (A & B & C & _).
  split; [exact A|]. split; [exact B|].
  fold w1 in C. fold r in C. rewrite C. reflexivity.
Defined.

(** X22.  The same document imported into other settings reproduces the
    exported ones, when it carries both keyword mappings. *)
Lemma importTheme_reproduces_export (today uri : string)
  (others : list string) (w wT : World) :
  assoc uri (files wT) = Some (Some (fst (themeOf today w))) ->
  truthy (Some (setting w "keywords" (JObj []))) = true ->
  truthy (Some (setting w "customKeywords" (JObj []))) = true ->
  highlighting (snd (importTheme (Some (uri :: others)) wT)) = highlighting w
  /\ fst (safeMergeKeywords (snd (importTheme (Some (uri :: others)) wT)))
     = fst (safeMergeKeywords w).
Proof.
  intros Hfile Hk Hc.
  destruct (importTheme_of_export today uri others w wT Hfile) as [_ Himp].
  assert (Hh : highlighting (snd (importTheme (Some (uri :: others)) wT))
               = highlighting w).
  { rewrite <- (importedConfig_any w wT Hk Hc).
    apply highlighting_config. now rewrite Himp. }
  split; [exact Hh|]. now apply safeMergeKeywords_highlighting.
Qed.

(** ** Runs of characters of a class *)

Section ClassRuns.

Variable Input : list ascii.
Variable fl : Flags.
Variable mem : ascii -> bool.
Variable invert : bool.

Lemma skipn_nth_error_Some (x : nat) (ch : ascii) :
  nth_error Input x = Some ch -> skipn x Input = ch :: skipn (S x) Input.
Proof.
  revert x. induction Input as [|a l IH]; intros [|x]; simpl;
    try discriminate.
  - now intros [= ->].
  - intros H. now rewrite (IH x H).
Qed.

Lemma skipn_nth_error_None (x : nat) :
  nth_error Input x = None -> skipn x Input = [].
Proof.
  intros H. apply nth_error_None in H. now apply skipn_all2.
Qed.

Lemma CharacterSetMatcher_eq (x : nat) (c : MatcherContinuation) :
  CharacterSetMatcher Input fl mem invert x c
  = match nth_error Input x with
    | None => None
    | Some ch => if accepts fl mem invert ch then c (S x) else None
    end.
Proof. reflexivity. Qed.

(** [{n}] on a class: the next [n] characters are in the class. *)
Lemma RepeatMatcher_exactly (greedy : bool) (n : nat) :
  forall fuel x c,
    n < fuel ->
    RepeatMatcher (CharacterSetMatcher Input fl mem invert) fuel n (Some n)
                  greedy x c
    = if forallb (accepts fl mem invert) (firstn n (skipn x Input))
         && (n <=? List.length (skipn x Input))
      then c (x + n) else None.
Proof.
  induction n as [|n IH]; intros fuel x c Hf;
    (destruct fuel as [|fuel]; [lia|]).
  - simpl. now rewrite Nat.add_0_r.
  - cbn [RepeatMatcher Nat.eqb negb andb pred option_map].
    rewrite CharacterSetMatcher_eq.
    destruct (nth_error Input x) as [ch|] eqn:E.
    + rewrite (skipn_nth_error_Some x ch E).
      cbn [firstn forallb List.length Nat.leb].
      destruct (accepts fl mem invert ch); [|reflexivity].
      rewrite IH by lia. cbn [andb]. now rewrite Nat.add_succ_comm.
    + rewrite (skipn_nth_error_None x E). reflexivity.
Qed.

(** A greedy [{min,}] on a class, followed by the end of the input: the
    rest of the input is in the class, and is long enough. *)
Lemma RepeatMatcher_to_end (c : MatcherContinuation) (k : nat) :
  (forall y, c y = atEnd Input y) ->
  forall fuel min x,
    List.length Input - x = k -> x <= List.length Input -> k < fuel ->
    RepeatMatcher (CharacterSetMatcher Input fl mem invert) fuel min None
                  true x c
    = if forallb (accepts fl mem invert) (skipn x Input)
         && (min <=? List.length (skipn x Input))
      then Some (List.length Input) else None.
Proof.
  intros Hc.
  induction k as [|k IH]; intros fuel min x Hk Hx Hf;
    (destruct fuel as [|fuel]; [lia|]);
    cbn [RepeatMatcher option_map]; rewrite CharacterSetMatcher_eq.
  - assert (E : nth_error Input x = None) by (apply nth_error_None; lia).
    rewrite E, (skipn_nth_error_None x E). cbn [forallb List.length andb].
    destruct min as [|min]; cbn [Nat.eqb negb Nat.leb]; [|reflexivity].
    rewrite Hc. unfold atEnd.
    assert (L : (List.length Input <=? x) = true) by (apply Nat.leb_le; lia).
    rewrite L. f_equal. lia.
  - destruct (nth_error Input x) as [ch|] eqn:E;
      [|apply nth_error_None in E; lia].
    rewrite (skipn_nth_error_Some x ch E).
    cbn [forallb List.length].
    assert (Hne : (S x =? x) = false) by (apply Nat.eqb_neq; lia).
    rewrite Hne, andb_false_r.
    rewrite (IH fuel (pred min) (S x)) by lia.
    assert (Hend : c x = None).
    { rewrite Hc. unfold atEnd.
      destruct (List.length Input <=? x) eqn:L; [|reflexivity].
      apply Nat.leb_le in L. lia. }
    rewrite Hend.
    destruct min as [|min]; cbn [Nat.eqb negb pred Nat.leb];
      destruct (accepts fl mem invert ch); cbn [andb]; try reflexivity.
    now destruct (forallb _ _ && _).
Qed.

End ClassRuns.

(** Without the multiline flag, [$] holds at the end of the input
    only. *)
Lemma assertEnd_plain (Input : list ascii) (fl : Flags) (x : nat) :
  multiline fl = false ->
  (if assertEnd Input fl x then Some x else None) = atEnd Input x.
Proof.
  intros Hm. unfold assertEnd, atEnd. rewrite Hm.
  destruct (nth_error Input x) eqn:E; [|reflexivity].
  assert (x < List.length Input) by (apply nth_error_Some; congruence).
  cbn [andb]. destruct (List.length Input <=? x) eqn:L; [|reflexivity].
  apply Nat.leb_le in L. lia.
Qed.

(** The [test] of a pattern that is anchored at the start, without the
    global and multiline flags: whether the pattern matches at 0. *)
Lemma test_anchored (r : regex) (ic : bool) (str : list ascii) :
  test (mkRegExp (Seq AssertStart r) (mkFlags false ic false) 0) str
  = match matchAt str (mkFlags false ic false) (Seq AssertStart r) 0 with
    | Some _ => true
    | None => false
    end.
Proof.
  unfold test, exec. cbn [flags global source Nat.ltb Nat.leb].
  rewrite Nat.sub_0_r.
  destruct (List.length str) as [|fuel]; cbn [search];
    destruct (matchAt str _ _ 0); try reflexivity.
  now rewrite search_anchored.
Qed.


Lemma forallb_pointwise {A : Type} (f g : A -> bool) (l : list A) :
  (forall x, f x = g x) -> forallb f l = forallb g l.
Proof.
  intros H. induction l as [|a l IH]; simpl; [reflexivity|].
  now rewrite H, IH.
Qed.

(** A class followed by [+] between [^] and [$]: the input is not empty
    and every character of it is in the class. *)
Lemma test_class_plus (atoms : list ClassAtom) (str : list ascii) :
  test (mkRegExp (Seq AssertStart
                    (Seq (Quant 1 None true (Class false atoms))
                         (Seq AssertEnd Empty)))
                 (mkFlags false false false) 0) str
  = negb (List.length str =? 0) && forallb (classMem atoms) str.
Proof.
  rewrite test_anchored. unfold matchAt.
  cbn [CompileSubpattern assertStart].
  rewrite (RepeatMatcher_to_end str (mkFlags false false false)
             (classMem atoms) false _ (List.length str));
    [| intros y; cbn [CompileSubpattern]; now apply assertEnd_plain
     | lia | lia | lia].
  cbn [skipn].
  rewrite (forallb_pointwise
             (accepts (mkFlags false false false) (classMem atoms) false)
             (classMem atoms)) by reflexivity.
  rewrite andb_comm.
  destruct str; cbn [List.length Nat.eqb Nat.leb negb andb]; [reflexivity|].
  now destruct (forallb _ _).
Qed.

Lemma String_eqb_empty (s : string) :
  String.eqb s "" = (List.length (chars s) =? 0).
Proof. now destruct s. Qed.

Lemma color_literal :
  regexLiteral "^#([0-9A-F]{3}|[0-9A-F]{6})$" "i"
  = mkRegExp
      (Seq AssertStart
         (Seq (Char "#")
            (Seq (Group
                    (Alt (Seq (Quant 3 (Some 3) true
                                 (Class false [CARange "0" "9"; CARange "A" "F"]))
                              Empty)
                         (Seq (Quant 6 (Some 6) true
                                 (Class false [CARange "0" "9"; CARange "A" "F"]))
                              Empty)))
                 (Seq AssertEnd Empty))))
      (mkFlags false true false) 0.
Proof. vm_compute. reflexivity. Qed.

Lemma prompt_literal :
  regexLiteral "^[a-zA-Z0-9_/-]+$" ""
  = mkRegExp
      (Seq AssertStart
         (Seq (Quant 1 None true
                 (Class false [CARange "a" "z"; CARange "A" "Z";
                               CARange "0" "9"; CAChar "_"; CAChar "/";
                               CAChar "-"]))
              (Seq AssertEnd Empty)))
      (mkFlags false false false) 0.
Proof. vm_compute. reflexivity. Qed.

(** With [ignoreCase], the class [[0-9A-F]] holds the hexadecimal digits
    of both cases, and [#] is matched by [#] only. *)
Lemma accepts_hex (ch : ascii) :
  accepts (mkFlags false true false)
          (classMem [CARange "0" "9"; CARange "A" "F"]) false ch
  = isHexDigit ch.
Proof.
  destruct ch as [[] [] [] [] [] [] [] []]; reflexivity.
Qed.

Lemma accepts_hash (ch : ascii) :
  accepts (mkFlags false true false) (Ascii.eqb "#") false ch = eqc ch "#".
Proof.
  destruct ch as [[] [] [] [] [] [] [] []]; reflexivity.
Qed.

Lemma isValidColor_hexColor_chars (str : list ascii) :
  test (regexLiteral "^#([0-9A-F]{3}|[0-9A-F]{6})$" "i") str
  = match str with
    | c :: digits =>
        eqc c "#" && forallb isHexDigit digits
        && ((List.length digits =? 3) || (List.length digits =? 6))
    | [] => false
    end.
Proof.
  rewrite color_literal, test_anchored. unfold matchAt.
  cbn [CompileSubpattern assertStart].
  rewrite CharacterSetMatcher_eq.
  destruct str as [|c digits]; [reflexivity|].
  cbn [nth_error]. rewrite accepts_hash.
  destruct (eqc c "#"); [|reflexivity]. cbn [andb].
  rewrite !RepeatMatcher_exactly by lia.
  rewrite !assertEnd_plain by reflexivity.
  rewrite !(forallb_pointwise _ _ _ accepts_hex).
  unfold atEnd.
  destruct digits as [|d1 [|d2 [|d3 [|d4 [|d5 [|d6 [|d7 rest]]]]]]];
    cbn [skipn firstn forallb List.length Nat.leb Nat.eqb Nat.add andb orb];
    repeat match goal with
           | |- context [isHexDigit ?d] => destruct (isHexDigit d)
           end;
    cbn [andb orb]; rewrite ?andb_false_r; reflexivity.
Qed.

(** ** The validation, character by character *)

(** X1.  [isValidColor] accepts exactly the strings made of [#] and
    three or six hexadecimal digits, of either case. *)
Theorem isValidColor_hexColor (color : string) :
  isValidColor color = hexColor color.
Proof. apply isValidColor_hexColor_chars. Qed.

Lemma charset_test (keyword : string) :
  test (regexLiteral "^[a-zA-Z0-9_-]+$" "") (chars keyword)
  = negb (String.eqb keyword "") && forallb keywordChar (chars keyword).
Proof.
  rewrite charset_literal, test_class_plus, String_eqb_empty. reflexivity.
Qed.

(** X2.  [validateKeyword] accepts an entry exactly when the keyword has
    the minimum length, is not empty, consists of letters, digits, [_]
    and [-], and the color is a string made of [#] and three or six
    hexadecimal digits. *)
Theorem validateKeyword_acceptedEntry (keyword : string) (color : JSON)
  (minLength : Z) (w : World) :
  fst (validateKeyword keyword color minLength w)
  = acceptedEntry minLength keyword color.
Proof.
  rewrite validateKeyword_verdict. unfold validEntry, acceptedEntry.
  cbn [fst snd]. rewrite lessThan_integer, <- Z.leb_antisym.
  rewrite charset_test, andb_assoc.
  destruct color; try reflexivity.
  unfold isValidColor, hexColor. now rewrite isValidColor_hexColor_chars.
Qed.

(** ** The keyword prompt *)

Lemma prompt_test (value : string) :
  test (regexLiteral "^[a-zA-Z0-9_/-]+$" "") (chars value)
  = negb (String.eqb value "") && forallb promptChar (chars value).
Proof.
  rewrite prompt_literal, test_class_plus, String_eqb_empty. reflexivity.
Qed.

Lemma promptChar_not_space (c : ascii) :
  promptChar c = true -> isWhiteSpace c = false.
Proof.
  destruct c as [[] [] [] [] [] [] [] []]; vm_compute; congruence.
Qed.

Lemma dropWhile_head {A : Type} (f : A -> bool) (l : list A) :
  (forall x, In x l -> f x = false) -> dropWhile f l = l.
Proof.
  destruct l as [|a l]; simpl; [reflexivity|].
  intros H. now rewrite (H a) by now left.
Qed.

(** A string of characters of the prompt's class has no white space to
    trim. *)
Lemma trim_promptChars (value : string) :
  forallb promptChar (chars value) = true -> trim value = value.
Proof.
  intros H. unfold trim.
  assert (Hws : forall x, In x (chars value) -> isWhiteSpace x = false).
  { intros x Hx. apply promptChar_not_space.
    rewrite forallb_forall in H. now apply H. }
  rewrite (dropWhile_head _ _ Hws).
  rewrite dropWhile_head by (intros x Hx; apply Hws; now apply in_rev).
  now rewrite rev_involutive, string_of_chars.
Qed.

Lemma keywordInputError_iff (value : string) :
  keywordInputError value = None
  <-> 2 <= String.length value /\ forallb promptChar (chars value) = true.
Proof.
  unfold keywordInputError. rewrite prompt_test.
  destruct (forallb promptChar (chars value)) eqn:Hp.
  - rewrite (trim_promptChars value Hp), andb_true_r, negb_involutive.
    destruct (String.eqb value "") eqn:He.
    + apply String.eqb_eq in He. subst value. simpl.
      split; [discriminate | intros [H _]; lia].
    + cbn [orb]. destruct (String.length value <? 2) eqn:Hl.
      * apply Nat.ltb_lt in Hl. split; [discriminate | intros [H _]; lia].
      * apply Nat.ltb_ge in Hl. tauto.
  - rewrite andb_false_r. cbn [negb].
    destruct (String.eqb value "" || _);
      split; try discriminate; intros [_ H]; discriminate.
Qed.

(** X3.  The keyword prompt accepts a value exactly when it has at least
    two characters, all of them letters, digits, [_], [-] or [/]; such a
    value has nothing to trim, so it is stored as typed. *)
Theorem keywordInputError_accepts (value : string) :
  (keywordInputError value = None
   <-> 2 <= String.length value /\ forallb promptChar (chars value) = true)
  /\ (keywordInputError value = None -> trim value = value).
Proof.
  split; [apply keywordInputError_iff|].
  intros H. apply keywordInputError_iff in H. now apply trim_promptChars.
Qed.

Lemma keywordChar_promptChar (c : ascii) :
  keywordChar c = promptChar c && negb (eqc c "/").
Proof.
  destruct c as [[] [] [] [] [] [] [] []]; reflexivity.
Qed.

Lemma forallb_andb {A : Type} (f g : A -> bool) (l : list A) :
  forallb (fun x => f x && g x) l = forallb f l && forallb g l.
Proof.
  induction l as [|a l IH]; simpl; [reflexivity|]. rewrite IH.
  destruct (f a), (g a), (forallb f l); reflexivity.
Qed.

Lemma forallb_negb_existsb {A : Type} (f : A -> bool) (l : list A) :
  forallb (fun x => negb (f x)) l = negb (existsb f l).
Proof.
  induction l as [|a l IH]; simpl; [reflexivity|]. rewrite IH.
  now destruct (f a).
Qed.

(** X4.  A keyword that the prompt accepted, with a color that the color
    prompt accepted, passes [validateKeyword] exactly when it has the
    configured minimum length and holds no [/]: the prompt admits the
    slashes of a regex keyword, the validation does not. *)
Theorem prompted_keyword_validated (keyword color : string) (minLength : Z)
  (w : World) :
  keywordInputError keyword = None ->
  isValidColor color = true ->
  fst (validateKeyword keyword (JStr color) minLength w)
  = (minLength <=? Z.of_nat (String.length keyword))%Z
    && negb (existsb (fun c => eqc c "/") (chars keyword)).
Proof.
  intros Hk Hc. apply keywordInputError_iff in Hk. destruct Hk as [Hl Hp].
  rewrite validateKeyword_verdict. unfold validEntry. cbn [fst snd].
  rewrite lessThan_integer, <- Z.leb_antisym.
  rewrite Hc, andb_true_r, charset_test.
  assert (He : String.eqb keyword "" = false).
  { destruct keyword; [simpl in Hl; lia | reflexivity]. }
  rewrite He. cbn [negb andb].
  rewrite (forallb_pointwise _ _ _ keywordChar_promptChar).
  now rewrite forallb_andb, Hp, forallb_negb_existsb.
Qed.

Lemma prompted_keyword_validated_witness :
  fst (validateKeyword "URGENT" (JStr "#FF0000") 2 freshWorld) = true
  /\ fst (validateKeyword "/todo/" (JStr "#FF0000") 2 freshWorld) = false.
Proof.
  split.
  - exact (prompted_keyword_validated "URGENT" "#FF0000" 2 freshWorld
             eq_refl eq_refl).
  - exact (prompted_keyword_validated "/todo/" "#FF0000" 2 freshWorld
             eq_refl eq_refl).
Defined.

(** ** Escaped strings as patterns *)

Lemma parseQuantifierPrefix_escaped_all (l : list ascii) :
  parseQuantifierPrefix (flat_map escaped l) = NoQuantifier.
Proof.
  destruct l as [|c l]; [reflexivity|].
  simpl. unfold escaped at 1.
  destruct (isSpecial c) eqn:H; [reflexivity|].
  simpl. unfold parseQuantifierPrefix. now special_chars H.
Qed.

Lemma parseAlternative_escaped_all (l : list ascii) :
  forall fuel,
    List.length l + 1 <= fuel ->
    parseAlternative fuel (flat_map escaped l) = Some (litSeq l Empty, []).
Proof.
  induction l as [|c l IH]; intros fuel Hf.
  - destruct fuel as [|fuel]; simpl in Hf; try lia. reflexivity.
  - destruct fuel as [|fuel]; simpl in Hf; try lia.
    cbn [flat_map].
    assert (Hhead : exists h t,
               escaped c ++ flat_map escaped l = h :: t
               /\ eqc h "|" || eqc h ")" = false).
    { unfold escaped at 1. destruct (isSpecial c) eqn:H.
      - eexists _, _. split; reflexivity.
      - eexists _, _. split; [reflexivity|]. now special_chars H. }
    destruct Hhead as (h & t & Eh & Hh).
    cbn [parseAlternative]. rewrite Eh, Hh, <- Eh.
    destruct fuel as [|fuel]; [lia|].
    rewrite parseTerm_escaped by apply parseQuantifierPrefix_escaped_all.
    rewrite IH by lia. reflexivity.
Qed.

Lemma length_flat_map_escaped (l : list ascii) :
  List.length l <= List.length (flat_map escaped l).
Proof.
  induction l as [|c l IH]; simpl; [lia|].
  rewrite length_app. unfold escaped at 1.
  destruct (isSpecial c); simpl; lia.
Qed.

Lemma parsePattern_escapeRegExp (s : string) :
  parsePattern (escapeRegExp s) = Some (litSeq (chars s) Empty).
Proof.
  unfold parsePattern, escapeRegExp. rewrite chars_of_string.
  change (fun c : ascii => if isSpecial c then ["\"%char; c] else [c])
    with escaped.
  pose proof (length_flat_map_escaped (chars s)) as Hlen.
  set (fuel := 3 * List.length (flat_map escaped (chars s)) + 4).
  assert (Hfuel : List.length (chars s) + 2 <= fuel) by (unfold fuel; lia).
  clearbody fuel. destruct fuel as [|fuel]; [lia|].
  cbn [parseDisjunction].
  now rewrite parseAlternative_escaped_all by lia.
Qed.

(** A sequence of pattern characters matches where the input spells
    them. *)
Lemma litSeq_spells (Input : list ascii) (fl : Flags) (l : list ascii)
  (tail : regex) :
  forall x c,
    CompileSubpattern Input fl (litSeq l tail) x c
    = if spells fl l (skipn x Input)
      then CompileSubpattern Input fl tail (x + List.length l) c
      else None.
Proof.
  induction l as [|k l IH]; intros x c.
  - simpl. now rewrite Nat.add_0_r.
  - cbn [litSeq fold_right CompileSubpattern]. fold (litSeq l tail).
    rewrite CharacterSetMatcher_eq.
    destruct (nth_error Input x) as [ch|] eqn:E.
    + rewrite (skipn_nth_error_Some Input x ch E). cbn [spells].
      destruct (accepts fl (Ascii.eqb k) false ch); [|reflexivity].
      rewrite IH. cbn [andb List.length]. now rewrite Nat.add_succ_comm.
    + now rewrite (skipn_nth_error_None Input x E).
Qed.

(** Without [ignoreCase], the input spells [l] when it begins with
    [l]. *)
Lemma spells_exactly (g m : bool) (l input : list ascii) :
  spells (mkFlags g false m) l input = true
  <-> firstn (List.length l) input = l.
Proof.
  revert input. induction l as [|k l IH]; intros input; simpl.
  - tauto.
  - destruct input as [|ch input]; [split; discriminate|].
    unfold accepts, found. cbn [ignoreCase xorb].
    rewrite andb_true_iff, IH. split.
    + intros [E ->]. apply Ascii.eqb_eq in E. now subst.
    + intros [= -> H]. split; [apply Ascii.eqb_refl | exact H].
Qed.

(** X5.  Whatever the string, [escapeRegExp] turns it into a pattern
    that the constructor accepts and that, without [ignoreCase], matches
    at a position exactly when the input holds the string itself
    there. *)
Theorem escapeRegExp_literal (s : string) :
  exists r,
    parsePattern (escapeRegExp s) = Some r
    /\ forall (g m : bool) (input : list ascii) (x e : nat),
         matchAt input (mkFlags g false m) r x = Some e
         <-> e = x + String.length s
             /\ firstn (String.length s) (skipn x input) = chars s.
Proof.
  exists (litSeq (chars s) Empty). split; [apply parsePattern_escapeRegExp|].
  intros g m input x e. unfold matchAt. rewrite litSeq_spells.
  cbn [CompileSubpattern]. rewrite <- (chars_length s).
  destruct (spells _ _ _) eqn:E.
  - apply spells_exactly in E. split.
    + intros [= <-]. auto.
    + intros [-> _]. reflexivity.
  - split; [discriminate|]. intros [_ H].
    apply (spells_exactly g m) in H. congruence.
Qed.

(** ** The literal matcher reports occurrences of the keyword *)

Lemma spells_length (fl : Flags) (l input : list ascii) :
  spells fl l input = true -> List.length l <= List.length input.
Proof.
  revert input. induction l as [|k l IH]; intros input; simpl; [lia|].
  destruct input as [|ch input]; [discriminate|].
  intros H. apply andb_prop in H. destruct H as [_ H].
  apply IH in H. simpl. lia.
Qed.

Lemma spells_firstn (fl : Flags) (l input : list ascii) (n : nat) :
  spells fl l (firstn n input) = true -> spells fl l input = true.
Proof.
  revert input n. induction l as [|k l IH]; intros input n; simpl; [auto|].
  destruct n as [|n]; [discriminate|].
  destruct input as [|ch input]; [discriminate|]. simpl.
  intros H. apply andb_prop in H. destruct H as [H1 H2].
  rewrite H1. simpl. eauto.
Qed.

(** A match of the keyword pattern: as long as the keyword, where the
    input spells it, between two word boundaries. *)
Lemma keywordPattern_matchAt (Input : list ascii) (fl : Flags)
  (keyword : string) (x e : nat) :
  matchAt Input fl (keywordPattern keyword) x = Some e ->
  e = x + String.length keyword
  /\ wordBoundaryAt Input x = true
  /\ spells fl (chars keyword) (skipn x Input) = true
  /\ wordBoundaryAt Input (x + String.length keyword) = true.
Proof.
  unfold matchAt, keywordPattern. cbn [CompileSubpattern]. cbn [xorb].
  fold (wordBoundaryAt Input x).
  destruct (wordBoundaryAt Input x); [|discriminate].
  rewrite litSeq_spells.
  destruct (spells fl (chars keyword) (skipn x Input)); [|discriminate].
  cbn [CompileSubpattern xorb]. rewrite chars_length.
  fold (wordBoundaryAt Input (x + String.length keyword)).
  destruct (wordBoundaryAt Input (x + String.length keyword));
    [|discriminate].
  intros [= <-]. auto.
Qed.

Section LiteralSound.

Variable doc : TextDocument.
Variable keyword : string.
Variable caseSensitive : bool.
Variable ps : list CommentPattern.
Variable text : list ascii.
Hypothesis text_of_doc : text = chars (getText doc).

(** The inner loop pushes occurrences inside the comment it is given. *)
Lemma pushMatches_sound (p : CommentPattern) (m : MatchResult)
  (ranges : list Range) :
  In p ps ->
  matchAt text (flags (pattern p)) (source (pattern p)) (index m)
  = Some (endIndex m) ->
  index m <= endIndex m -> endIndex m <= List.length text ->
  Forall (keywordInComment doc keyword caseSensitive ps) ranges ->
  Forall (keywordInComment doc keyword caseSensitive ps)
         (snd (pushMatches doc (index m) (fun _ => String.length keyword)
                 (mkRegExp (keywordPattern keyword)
                           (mkFlags true (negb caseSensitive) false) 0)
                 (matched text m) ranges)).
Proof.
  intros Hp Hm Hle Hend Hr. unfold pushMatches.
  set (body := fun (km : MatchResult) (rs : list Range) =>
                 (Normal,
                  rs ++ [Range_new
                           (positionAt doc (index m + index km))
                           (positionAt doc (index m + index km
                                            + String.length keyword))])).
  set (R := mkRegExp (keywordPattern keyword)
                     (mkFlags true (negb caseSensitive) false) 0).
  pose proof (whileExec_preserves body (matched text m) R
                (Forall (keywordInComment doc keyword caseSensitive ps)))
    as Hinv.
  assert (Hbody : forall R0 R1 km st,
             samePattern R R0 -> exec R0 (matched text m) = (Some km, R1) ->
             Forall (keywordInComment doc keyword caseSensitive ps) st ->
             Forall (keywordInComment doc keyword caseSensitive ps)
                    (snd (body km st))).
  { intros R0 R1 km st [Hs Hf] E Hst.
    pose proof (exec_matchAt R0 R1 (matched text m) km E) as Hk.
    rewrite Hs, Hf in Hk. cbn [source flags R] in Hk.
    apply keywordPattern_matchAt in Hk.
    destruct Hk as (He & Hb1 & Hsp & Hb2).
    pose proof (exec_spec R0 (matched text m)) as S. rewrite E in S.
    destruct S as (_ & _ & Hin & _).
    assert (Hlen : List.length (matched text m) <= endIndex m - index m).
    { unfold matched. rewrite length_firstn. lia. }
    simpl. apply Forall_app. split; [exact Hst|].
    constructor; [|constructor].
    exists p, (index m), (endIndex m), (index m + index km).
    rewrite <- text_of_doc.
    split; [exact Hp|]. split; [exact Hm|]. split; [lia|].
    split; [lia|]. split; [exact Hend|].
    split.
    - unfold matched in Hsp. rewrite skipn_firstn_comm in Hsp.
      apply spells_firstn in Hsp. rewrite skipn_skipn, Nat.add_comm in Hsp.
      exact Hsp.
    - split; [|reflexivity].
      replace (mkMatch (index m) (endIndex m)) with m by now destruct m.
      replace (index m + index km - index m) with (index km) by lia.
      auto. }
  specialize (Hinv Hbody (List.length (matched text m)) R ranges
                   (conj eq_refl eq_refl) Hr).
  destruct (whileExec body (matched text m) _ R ranges) as [[c R'] ranges'].
  exact Hinv.
Qed.

(** One descriptor. *)
Lemma scanPattern_sound (p : CommentPattern) (ranges : list Range)
  (w : World) :
  In p ps ->
  Forall (keywordInComment doc keyword caseSensitive ps) ranges ->
  Forall (keywordInComment doc keyword caseSensitive ps)
         (snd (fst (scanPattern doc (literalComment doc keyword caseSensitive)
                                (patternError keyword) p ranges w))).
Proof.
  intros Hp Hr. unfold scanPattern. rewrite <- text_of_doc.
  pose proof (whileExec_preserves (literalComment doc keyword caseSensitive)
                text (pattern p)
                (Forall (keywordInComment doc keyword caseSensitive ps)))
    as Hinv.
  assert (Hbody : forall R0 R1 m st,
             samePattern (pattern p) R0 -> exec R0 text = (Some m, R1) ->
             Forall (keywordInComment doc keyword caseSensitive ps) st ->
             Forall (keywordInComment doc keyword caseSensitive ps)
                    (snd (literalComment doc keyword caseSensitive m st))).
  { intros R0 R1 m st [Hs Hf] E Hst.
    pose proof (exec_matchAt R0 R1 text m E) as Hm. rewrite Hs, Hf in Hm.
    pose proof (exec_spec R0 text) as S. rewrite E in S.
    destruct S as (_ & Hle & Hend & _).
    unfold literalComment. rewrite RegExp_new_keyword, <- text_of_doc.
    exact (pushMatches_sound p m st Hp Hm Hle Hend Hst). }
  specialize (Hinv Hbody (List.length text) (pattern p) ranges
                   (conj eq_refl eq_refl) Hr).
  destruct (whileExec _ text _ (pattern p) ranges) as [[c R'] ranges'].
  cbn [snd] in Hinv.
  destruct c as [|e| |]; unfold bind, ret; try exact Hinv.
  now destruct (logError _ _ w).
Qed.

(** Some of the descriptors. *)
Lemma forEachPattern_sound (ps0 : list CommentPattern) :
  (forall p, In p ps0 -> In p ps) ->
  forall (ranges : list Range) (w : World),
    Forall (keywordInComment doc keyword caseSensitive ps) ranges ->
    Forall (keywordInComment doc keyword caseSensitive ps)
           (snd (fst (forEachPattern
                        (scanPattern doc
                           (literalComment doc keyword caseSensitive)
                           (patternError keyword)) ps0 ranges w))).
Proof.
  induction ps0 as [|p rest IH]; intros Hin ranges w Hr;
    cbn [forEachPattern]; [exact Hr|].
  unfold bind.
  pose proof (scanPattern_sound p ranges w (Hin p (or_introl eq_refl)) Hr)
    as Hp.
  destruct (scanPattern doc _ _ p ranges w) as [[[c p'] ranges'] w1].
  cbn [fst snd] in Hp.
  destruct c as [|e| |]; unfold ret; cbn [fst snd]; try exact Hp.
  specialize (IH (fun q Hq => Hin q (or_intror Hq)) ranges' w1 Hp).
  destruct (forEachPattern _ rest ranges' w1) as [[[c' rest'] ranges''] w2].
  exact IH.
Qed.

End LiteralSound.

(** X6.  Every range that the literal matcher returns is the range of an
    occurrence of the keyword inside a comment: a descriptor matches a
    comment around it, the text there spells the keyword (up to case
    unless the scan is case sensitive), and in the comment it stands
    between two word boundaries. *)
Theorem findCommentKeywords_sound :
  forall (doc : TextDocument) (keyword : string)
         (commentPatterns : list CommentPattern) (caseSensitive : bool)
         (w : World),
    truthy (Some (setting w "enableRegexKeywords" (JBool false)))
    && isRegexKeyword keyword = false ->
    Forall (keywordInComment doc keyword caseSensitive commentPatterns)
           (snd (fst (findCommentKeywords doc keyword commentPatterns
                                          caseSensitive w))).
Proof.
  intros doc keyword ps cs w Hmode. rewrite literal_mode by assumption.
  apply (forEachPattern_sound doc keyword cs ps _ eq_refl ps); auto.
Qed.

Lemma findCommentKeywords_sound_witness :
  let doc := mkDocument ("// todo: fix" ++ newline ++ "x = 1 # TODO")
                        "javascript" in
  Forall (keywordInComment doc "TODO" false (getCommentPatterns "javascript"))
         [mkRange (mkPosition 0 3) (mkPosition 0 7)].
Proof.
  intros doc.
  exact (findCommentKeywords_sound doc "TODO"
           (getCommentPatterns "javascript") false freshWorld eq_refl).
Defined.
(** ** Matches that are empty *)

(** After an empty match a global pattern finds the same match again. *)
Lemma exec_again (R0 R1 : RegExp) (str : list ascii) (m : MatchResult) :
  global (flags R0) = true ->
  exec R0 str = (Some m, R1) ->
  index m = endIndex m ->
  exec R1 str = (Some m, R1).
Proof.
  intros Hg E Hempty.
  pose proof (exec_matchAt R0 R1 str m E) as Hm.
  pose proof (exec_spec R0 str) as S. rewrite E, Hg in S.
  destruct S as (_ & _ & Hend & ->).
  unfold exec. cbn [setLastIndex flags source lastIndex]. rewrite Hg.
  replace (List.length str <? endIndex m) with false
    by (symmetry; apply Nat.ltb_ge; exact Hend).
  rewrite <- Hempty in *.
  assert (Hs : search str (flags R0) (source R0)
                 (List.length str - index m) (index m)
               = Some (index m, index m)).
  { destruct (List.length str - index m); simpl; now rewrite Hm. }
  rewrite Hs. unfold setLastIndex. cbn [source flags].
  destruct m as [i e]. simpl in *. now subst e.
Qed.

Section PushLoop.

Context {St : Type}.
Variable body : MatchResult -> St -> Completion * St.
Variable str : list ascii.
Variable R : RegExp.
Hypothesis body_returns : forall m st, fst (body m st) = Normal.

(** A loop whose body always returns is never left once it has found an
    empty match. *)
Lemma whileExec_empty_match (fuel : nat) (R0 R1 : RegExp) (st : St)
  (m : MatchResult) :
  exec R0 str = (Some m, R1) ->
  index m = endIndex m ->
  fst (fst (whileExec body str fuel R0 st)) = Diverges.
Proof.
  intros E Hempty.
  assert (Hstep : (lastIndex R1 <=? lastIndex R0) = false ->
                  exec R1 str = (Some m, R1)).
  { intros L. apply (exec_again R0); auto.
    destruct (global (flags R0)) eqn:Hg; [reflexivity|].
    pose proof (exec_spec R0 str) as S. rewrite E, Hg in S.
    destruct S as (_ & _ & _ & ->). rewrite Nat.leb_refl in L.
    discriminate. }
  destruct (lastIndex R1 <=? lastIndex R0) eqn:L;
    [clear Hstep | specialize (Hstep eq_refl)];
    (destruct fuel as [|fuel]; simpl; rewrite E;
     pose proof (body_returns m st) as B;
     destruct (body m st) as [c st']; simpl in B; subst c;
     rewrite L; try reflexivity).
  destruct fuel as [|fuel]; simpl; rewrite Hstep;
    pose proof (body_returns m st') as B;
    destruct (body m st') as [c st'']; simpl in B; subst c;
    now rewrite Nat.leb_refl.
Qed.

(** When the loop is left, every match was a proper one: an invariant
    that the body keeps for such matches holds at the end. *)
Lemma whileExec_returned (I : St -> Prop) :
  (forall R0 R1 m st,
      samePattern R R0 -> exec R0 str = (Some m, R1) ->
      index m < endIndex m -> I st -> I (snd (body m st))) ->
  forall fuel R0 st,
    samePattern R R0 -> I st ->
    fst (fst (whileExec body str fuel R0 st)) = Normal ->
    I (snd (whileExec body str fuel R0 st)).
Proof.
  intros Hbody fuel.
  induction fuel as [|fuel IH]; intros R0 st HR Hst Hn;
    pose proof (same_exec str R R0 HR) as HR';
    pose proof (exec_spec R0 str) as S;
    destruct (exec R0 str) as [[m|] R1] eqn:E;
    try (simpl in *; rewrite E in *; simpl; exact Hst);
    (destruct (index m <? endIndex m) eqn:Hlt;
     [apply Nat.ltb_lt in Hlt
     |apply Nat.ltb_ge in Hlt;
      assert (Hempty : index m = endIndex m) by (destruct S; lia);
      rewrite (whileExec_empty_match _ R0 R1 st m E Hempty) in Hn;
      discriminate]);
    pose proof (Hbody R0 R1 m st HR E Hlt Hst) as Hst';
    pose proof (body_returns m st) as B;
    simpl in *; rewrite E in *;
    destruct (body m st) as [c st']; simpl in B; subst c; simpl in *;
    destruct (lastIndex R1 <=? lastIndex R0); simpl in *;
    try discriminate.
  now apply IH.
Qed.

End PushLoop.

Section OuterLoop.

Context {St : Type}.
Variable body : MatchResult -> St -> Completion * St.
Variable str : list ascii.
Variable R : RegExp.

(** An invariant that the body keeps whenever it ends holds when the
    loop ends. *)
Lemma whileExec_ended (I : St -> Prop) :
  (forall R0 R1 m st,
      samePattern R R0 -> exec R0 str = (Some m, R1) -> I st ->
      ends (fst (body m st)) -> I (snd (body m st))) ->
  forall fuel R0 st,
    samePattern R R0 -> I st ->
    ends (fst (fst (whileExec body str fuel R0 st))) ->
    I (snd (whileExec body str fuel R0 st)).
Proof.
  intros Hbody fuel.
  induction fuel as [|fuel IH]; intros R0 st HR Hst; simpl;
    pose proof (same_exec str R R0 HR) as HR';
    destruct (exec R0 str) as [[m|] R1] eqn:E; simpl in HR'; auto;
    pose proof (Hbody R0 R1 m st HR E Hst) as Hst';
    destruct (body m st) as [[|e| |] st']; simpl in *; auto;
    try contradiction;
    destruct (lastIndex R1 <=? lastIndex R0); simpl; auto;
    try contradiction.
Qed.

End OuterLoop.

(** ** The spans that the matchers return *)

Section Proper.

Variable doc : TextDocument.
Variable text : list ascii.
Hypothesis text_of_doc : text = chars (getText doc).

(** The inner loop of both matchers: when it is left, it has pushed
    spans of the comment, none of them empty. *)
Lemma pushMatches_proper (commentStart : nat) (width : MatchResult -> nat)
  (keywordRegex : RegExp) (commentText : list ascii) (ranges : list Range) :
  (forall R0 R1 km,
      samePattern keywordRegex R0 -> exec R0 commentText = (Some km, R1) ->
      width km = endIndex km - index km) ->
  commentStart + List.length commentText <= List.length text ->
  Forall (spanOf doc) ranges ->
  ends (fst (pushMatches doc commentStart width keywordRegex commentText
                         ranges)) ->
  Forall (spanOf doc)
         (snd (pushMatches doc commentStart width keywordRegex commentText
                           ranges)).
Proof.
  intros Hwidth Hin Hr. unfold pushMatches.
  set (body := fun (km : MatchResult) (rs : list Range) =>
                 (Normal,
                  rs ++ [Range_new
                           (positionAt doc (commentStart + index km))
                           (positionAt doc (commentStart + index km
                                            + width km))])).
  pose proof (whileExec_returned body commentText keywordRegex
                (fun _ _ => eq_refl) (Forall (spanOf doc))) as Hinv.
  pose proof (whileExec_never_throws body commentText
                (fun m st e => ltac:(discriminate))
                (List.length commentText) keywordRegex ranges) as Hnt.
  assert (Hbody : forall R0 R1 km st,
             samePattern keywordRegex R0 ->
             exec R0 commentText = (Some km, R1) ->
             index km < endIndex km ->
             Forall (spanOf doc) st ->
             Forall (spanOf doc) (snd (body km st))).
  { intros R0 R1 km st HR E Hlt Hst.
    pose proof (exec_spec R0 commentText) as S. rewrite E in S.
    destruct S as (_ & _ & Hend & _).
    simpl. apply Forall_app. split; [exact Hst|].
    constructor; [|constructor].
    exists (commentStart + index km), (commentStart + index km + width km).
    rewrite (Hwidth R0 R1 km HR E), <- chars_length, <- text_of_doc.
    split; [lia|]. split; [lia | reflexivity]. }
  specialize (Hinv Hbody (List.length commentText) keywordRegex ranges
                   (conj eq_refl eq_refl) Hr).
  destruct (whileExec body commentText _ keywordRegex ranges)
    as [[c R'] ranges'].
  cbn [fst snd] in *. intros Hc.
  destruct c as [|e| |]; try contradiction; [now apply Hinv|].
  now destruct (Hnt e).
Qed.

Lemma matched_inside (m : MatchResult) :
  index m <= endIndex m -> endIndex m <= List.length text ->
  index m + List.length (matched text m) <= List.length text.
Proof.
  intros H1 H2. unfold matched. rewrite length_firstn. lia.
Qed.

Variable caseSensitive : bool.

(** One comment, literal keyword. *)
Lemma literalComment_proper (keyword : string) (m : MatchResult)
  (ranges : list Range) :
  index m <= endIndex m -> endIndex m <= List.length text ->
  Forall (spanOf doc) ranges ->
  ends (fst (literalComment doc keyword caseSensitive m ranges)) ->
  Forall (spanOf doc)
         (snd (literalComment doc keyword caseSensitive m ranges)).
Proof.
  intros H1 H2 Hr. unfold literalComment.
  rewrite RegExp_new_keyword, <- text_of_doc.
  apply pushMatches_proper; [|now apply matched_inside|exact Hr].
  intros R0 R1 km [Hs Hf] E.
  pose proof (exec_matchAt R0 R1 (matched text m) km E) as Hk.
  rewrite Hs, Hf in Hk. cbn [source flags] in Hk.
  apply keywordPattern_matchAt in Hk. lia.
Qed.

(** One comment, regex keyword. *)
Lemma regexComment_proper (regexPattern : string) (m : MatchResult)
  (ranges : list Range) :
  index m <= endIndex m -> endIndex m <= List.length text ->
  Forall (spanOf doc) ranges ->
  ends (fst (regexComment doc regexPattern caseSensitive m ranges)) ->
  Forall (spanOf doc)
         (snd (regexComment doc regexPattern caseSensitive m ranges)).
Proof.
  intros H1 H2 Hr. unfold regexComment. rewrite <- text_of_doc.
  destruct (RegExp_new regexPattern (flagsFor caseSensitive)) as [R|];
    [|intros _; exact Hr].
  apply pushMatches_proper; [|now apply matched_inside|exact Hr].
  reflexivity.
Qed.

Variable comment : MatchResult -> list Range -> Completion * list Range.
Variable errorMessage : string.
Hypothesis comment_proper :
  forall m ranges,
    index m <= endIndex m -> endIndex m <= List.length text ->
    Forall (spanOf doc) ranges ->
    ends (fst (comment m ranges)) ->
    Forall (spanOf doc) (snd (comment m ranges)).

(** One descriptor. *)
Lemma scanPattern_proper (p : CommentPattern) (ranges : list Range)
  (w : World) :
  Forall (spanOf doc) ranges ->
  fst (fst (fst (scanPattern doc comment errorMessage p ranges w))) = Normal ->
  Forall (spanOf doc)
         (snd (fst (scanPattern doc comment errorMessage p ranges w))).
Proof.
  intros Hr. unfold scanPattern. rewrite <- text_of_doc.
  pose proof (whileExec_ended comment text (pattern p) (Forall (spanOf doc)))
    as Hinv.
  assert (Hbody : forall R0 R1 m st,
             samePattern (pattern p) R0 -> exec R0 text = (Some m, R1) ->
             Forall (spanOf doc) st -> ends (fst (comment m st)) ->
             Forall (spanOf doc) (snd (comment m st))).
  { intros R0 R1 m st _ E Hst.
    pose proof (exec_spec R0 text) as S. rewrite E in S.
    destruct S as (_ & Hle & Hend & _). now apply comment_proper. }
  specialize (Hinv Hbody (List.length text) (pattern p) ranges
                   (conj eq_refl eq_refl) Hr).
  destruct (whileExec comment text _ (pattern p) ranges) as [[c R'] ranges'].
  cbn [fst snd] in Hinv.
  destruct c as [|e| |]; unfold bind, ret; cbn [fst snd];
    try discriminate.
  - intros _. now apply Hinv.
  - destruct (logError _ _ w). cbn [fst snd]. intros _. now apply Hinv.
Qed.

(** All descriptors. *)
Lemma forEachPattern_proper (ps : list CommentPattern) :
  forall (ranges : list Range) (w : World),
    Forall (spanOf doc) ranges ->
    fst (fst (fst (forEachPattern (scanPattern doc comment errorMessage)
                                  ps ranges w))) = Normal ->
    Forall (spanOf doc)
           (snd (fst (forEachPattern (scanPattern doc comment errorMessage)
                                     ps ranges w))).
Proof.
  induction ps as [|p rest IH]; intros ranges w Hr; cbn [forEachPattern];
    [intros _; exact Hr|].
  unfold bind.
  pose proof (scanPattern_proper p ranges w Hr) as Hp.
  destruct (scanPattern doc comment errorMessage p ranges w)
    as [[[c p'] ranges'] w1].
  cbn [fst snd] in Hp.
  destruct c as [|e| |]; unfold ret; cbn [fst snd]; try discriminate.
  specialize (IH ranges' w1 (Hp eq_refl)).
  destruct (forEachPattern _ rest ranges' w1) as [[[c' rest'] ranges''] w2].
  exact IH.
Qed.

End Proper.

(** Whatever the keyword and the descriptors, the spans of a call that
    returns lie in the text and none of them is empty. *)
Lemma findCommentKeywords_proper (doc : TextDocument) (keyword : string)
  (ps : list CommentPattern) (caseSensitive : bool) (w : World) :
  fst (fst (fst (findCommentKeywords doc keyword ps caseSensitive w)))
  = Normal ->
  Forall (spanOf doc)
         (snd (fst (findCommentKeywords doc keyword ps caseSensitive w))).
Proof.
  unfold findCommentKeywords, findRegexKeywords, bind, config_get.
  cbn [fst snd].
  destruct (truthy _ && isRegexKeyword keyword).
  - apply (forEachPattern_proper doc _ eq_refl); [|constructor].
    intros m ranges. now apply regexComment_proper.
  - apply (forEachPattern_proper doc _ eq_refl); [|constructor].
    intros m ranges. now apply literalComment_proper.
Qed.

(** ** The matches of a regex keyword *)

Section RegexSound.

Variable doc : TextDocument.
Variable regexKeyword : string.
Variable caseSensitive : bool.
Variable ps : list CommentPattern.
Variable text : list ascii.
Hypothesis text_of_doc : text = chars (getText doc).

(** One comment: every range pushed is the range of a match of the
    pattern between the slashes in this comment. *)
Lemma regexComment_sound (p : CommentPattern) (m : MatchResult)
  (ranges : list Range) :
  In p ps ->
  matchAt text (flags (pattern p)) (source (pattern p)) (index m)
  = Some (endIndex m) ->
  index m <= endIndex m -> endIndex m <= List.length text ->
  Forall (regexMatchInComment doc regexKeyword caseSensitive ps) ranges ->
  Forall (regexMatchInComment doc regexKeyword caseSensitive ps)
         (snd (regexComment doc (slice1 regexKeyword) caseSensitive m
                            ranges)).
Proof.
  intros Hp Hm Hle Hend Hr. unfold regexComment. rewrite <- text_of_doc.
  destruct (RegExp_new (slice1 regexKeyword) (flagsFor caseSensitive))
    as [userRegex|] eqn:Hnew; [|exact Hr].
  apply RegExp_new_flagsFor in Hnew. destruct Hnew as (Hparse & Hflags & _).
  unfold pushMatches.
  set (body := fun (rm : MatchResult) (rs : list Range) =>
                 (Normal,
                  rs ++ [Range_new
                           (positionAt doc (index m + index rm))
                           (positionAt doc (index m + index rm
                                            + (endIndex rm - index rm)))])).
  pose proof (whileExec_preserves body (matched text m) userRegex
                (Forall (regexMatchInComment doc regexKeyword caseSensitive
                                             ps)))
    as Hinv.
  assert (Hbody : forall R0 R1 rm st,
             samePattern userRegex R0 ->
             exec R0 (matched text m) = (Some rm, R1) ->
             Forall (regexMatchInComment doc regexKeyword caseSensitive ps)
                    st ->
             Forall (regexMatchInComment doc regexKeyword caseSensitive ps)
                    (snd (body rm st))).
  { intros R0 R1 rm st [Hs Hf] E Hst.
    pose proof (exec_matchAt R0 R1 (matched text m) rm E) as Hk.
    rewrite Hs, Hf, Hflags in Hk.
    pose proof (exec_spec R0 (matched text m)) as S. rewrite E in S.
    destruct S as (_ & Hile & Hin & _).
    assert (Hlen : List.length (matched text m) <= endIndex m - index m).
    { unfold matched. rewrite length_firstn. lia. }
    simpl. apply Forall_app. split; [exact Hst|].
    constructor; [|constructor].
    exists p, (index m), (endIndex m), (source userRegex), (index rm),
      (endIndex rm).
    rewrite <- text_of_doc.
    replace (mkMatch (index m) (endIndex m)) with m by now destruct m.
    replace (index m + index rm + (endIndex rm - index rm))
      with (index m + endIndex rm) by lia.
    repeat split; auto; lia. }
  specialize (Hinv Hbody (List.length (matched text m)) userRegex ranges
                   (conj eq_refl eq_refl) Hr).
  destruct (whileExec body (matched text m) _ userRegex ranges)
    as [[c R'] ranges'].
  exact Hinv.
Qed.

(** One descriptor. *)
Lemma scanPattern_regex_sound (p : CommentPattern) (ranges : list Range)
  (w : World) :
  In p ps ->
  Forall (regexMatchInComment doc regexKeyword caseSensitive ps) ranges ->
  Forall (regexMatchInComment doc regexKeyword caseSensitive ps)
         (snd (fst (scanPattern doc
                      (regexComment doc (slice1 regexKeyword) caseSensitive)
                      (regexPatternError regexKeyword) p ranges w))).
Proof.
  intros Hp Hr. unfold scanPattern. rewrite <- text_of_doc.
  pose proof (whileExec_preserves
                (regexComment doc (slice1 regexKeyword) caseSensitive)
                text (pattern p)
                (Forall (regexMatchInComment doc regexKeyword caseSensitive
                                             ps)))
    as Hinv.
  assert (Hbody : forall R0 R1 m st,
             samePattern (pattern p) R0 -> exec R0 text = (Some m, R1) ->
             Forall (regexMatchInComment doc regexKeyword caseSensitive ps)
                    st ->
             Forall (regexMatchInComment doc regexKeyword caseSensitive ps)
                    (snd (regexComment doc (slice1 regexKeyword)
                                       caseSensitive m st))).
  { intros R0 R1 m st [Hs Hf] E Hst.
    pose proof (exec_matchAt R0 R1 text m E) as Hm. rewrite Hs, Hf in Hm.
    pose proof (exec_spec R0 text) as S. rewrite E in S.
    destruct S as (_ & Hle & Hend & _).
    now apply (regexComment_sound p). }
  specialize (Hinv Hbody (List.length text) (pattern p) ranges
                   (conj eq_refl eq_refl) Hr).
  destruct (whileExec _ text _ (pattern p) ranges) as [[c R'] ranges'].
  cbn [snd] in Hinv.
  destruct c as [|e| |]; unfold bind, ret; try exact Hinv.
  now destruct (logError _ _ w).
Qed.

(** Some of the descriptors. *)
Lemma forEachPattern_regex_sound (ps0 : list CommentPattern) :
  (forall p, In p ps0 -> In p ps) ->
  forall (ranges : list Range) (w : World),
    Forall (regexMatchInComment doc regexKeyword caseSensitive ps) ranges ->
    Forall (regexMatchInComment doc regexKeyword caseSensitive ps)
           (snd (fst (forEachPattern
                        (scanPattern doc
                           (regexComment doc (slice1 regexKeyword)
                                         caseSensitive)
                           (regexPatternError regexKeyword))
                        ps0 ranges w))).
Proof.
  induction ps0 as [|p rest IH]; intros Hin ranges w Hr;
    cbn [forEachPattern]; [exact Hr|].
  unfold bind.
  pose proof (scanPattern_regex_sound p ranges w
                (Hin p (or_introl eq_refl)) Hr) as Hp.
  destruct (scanPattern doc _ _ p ranges w) as [[[c p'] ranges'] w1].
  cbn [fst snd] in Hp.
  destruct c as [|e| |]; unfold ret; cbn [fst snd]; try exact Hp.
  specialize (IH (fun q Hq => Hin q (or_intror Hq)) ranges' w1 Hp).
  destruct (forEachPattern _ rest ranges' w1) as [[[c' rest'] ranges''] w2].
  exact IH.
Qed.

End RegexSound.




(** ** What a scan leaves alone *)

Lemma decorationsOf_replace (ds : list (DecorationType * list Range))
  (h h' : DecorationType) (ranges : list Range) :
  decorationsOf (replaceDecorations ds h ranges) h'
  = if h' =? h then ranges else decorationsOf ds h'.
Proof.
  induction ds as [|[h0 rs0] ds IH]; simpl.
  - reflexivity.
  - destruct (h =? h0) eqn:E; simpl.
    + apply Nat.eqb_eq in E. subst h0. now destruct (h' =? h).
    + rewrite IH. destruct (h' =? h0) eqn:E0; [|reflexivity].
      apply Nat.eqb_eq in E0. subst h0.
      rewrite Nat.eqb_sym in E. now rewrite E.
Qed.

Lemma keepsDecorations_refl (w : World) : keepsDecorations w w.
Proof. unfold keepsDecorations. repeat split; auto. Qed.

Lemma keepsDecorations_trans (w1 w2 w3 : World) :
  keepsDecorations w1 w2 -> keepsDecorations w2 w3 -> keepsDecorations w1 w3.
Proof.
  unfold keepsDecorations.
  intros (A1 & A2 & A3 & A4 & A5 & A6) (B1 & B2 & B3 & B4 & B5 & B6).
  repeat split; try congruence. auto.
Qed.

Lemma logOnly_keepsDecorations (w w' : World) :
  logOnly w w' -> keepsDecorations w w'.
Proof.
  unfold logOnly, keepsDecorations, shown.
  intros (A1 & A2 & A3 & A4 & A5 & _). rewrite A3.
  repeat split; auto.
Qed.

(** Setting ranges that are not empty clears nothing. *)
Lemma setDecorations_keeps (h : DecorationType) (ranges : list Range)
  (w : World) :
  ranges <> [] -> keepsDecorations w (snd (setDecorations h ranges w)).
Proof.
  intros Hne. unfold setDecorations, setEditor, keepsDecorations, shown.
  destruct (activeTextEditor w) as [e|] eqn:E; simpl; rewrite ?E;
    repeat split; auto.
  intros h'. rewrite decorationsOf_replace.
  destruct (h' =? h); auto.
Qed.

Lemma markScanned_keeps (keyword : string) (w : World) :
  keepsDecorations w (snd (markScanned keyword w)).
Proof. unfold keepsDecorations, markScanned, shown. simpl. repeat split; auto. Qed.

Lemma scanKeyword_keeps (doc : TextDocument) (caseSensitive : bool)
  (keyword : string) (ps : list CommentPattern) (w : World) :
  keepsDecorations w (snd (scanKeyword doc caseSensitive keyword ps w)).
Proof.
  unfold scanKeyword, bind, getDecorationType.
  destruct (assoc keyword (decorationTypes w)) as [h|];
    [|apply keepsDecorations_refl].
  pose proof (markScanned_keeps keyword w) as H0.
  destruct (markScanned keyword w) as [u w0]. cbn [snd] in H0.
  pose proof (findCommentKeywords_logOnly doc keyword ps caseSensitive w0)
    as H1.
  destruct (findCommentKeywords doc keyword ps caseSensitive w0)
    as [[[c ps'] ranges] w1].
  destruct H1 as [H1 _]. apply logOnly_keepsDecorations in H1.
  assert (H01 : keepsDecorations w w1)
    by (eapply keepsDecorations_trans; eauto).
  destruct c as [|e| |].
  - destruct ranges as [|r ranges]; [exact H01|].
    pose proof (setDecorations_keeps h (r :: ranges) w1) as H2.
    destruct (setDecorations h (r :: ranges) w1) as [u2 w2].
    eapply keepsDecorations_trans; [exact H01 | apply H2; discriminate].
  - pose proof (logError_logOnly
                  ("Error processing keyword '" ++ keyword ++ "'") (Some e) w1)
      as H2.
    destruct (logError _ (Some e) w1) as [u2 w2].
    eapply keepsDecorations_trans;
      [exact H01 | now apply logOnly_keepsDecorations].
  - exact H01.
  - exact H01.
Qed.

(** The scan of a language whose name is an inherited property only
    logs. *)
Lemma scanKeywordInherited_keeps (keyword : string) (w : World) :
  keepsDecorations w (snd (scanKeywordInherited keyword w)).
Proof.
  unfold scanKeywordInherited, bind, getDecorationType, config_get.
  destruct (assoc keyword (decorationTypes w)) as [h|];
    [|apply keepsDecorations_refl].
  pose proof (markScanned_keeps keyword w) as H0.
  destruct (markScanned keyword w) as [u w0]. cbn [snd] in H0.
  eapply keepsDecorations_trans; [exact H0|].
  apply logOnly_keepsDecorations, logError_logOnly.
Qed.

Lemma scanKeywordsInherited_keeps (keywords : list string) :
  forall w : World,
    keepsDecorations w (snd (scanKeywordsInherited keywords w)).
Proof.
  induction keywords as [|k rest IH]; intros w; cbn [scanKeywordsInherited].
  - apply keepsDecorations_refl.
  - unfold bind.
    pose proof (scanKeywordInherited_keeps k w) as H1.
    destruct (scanKeywordInherited k w) as [u w1]. cbn [snd] in H1.
    eapply keepsDecorations_trans; [exact H1 | apply IH].
Qed.

Lemma scanKeywords_keeps (doc : TextDocument) (caseSensitive : bool)
  (keywords : list string) :
  forall (ps : list CommentPattern) (w : World),
    keepsDecorations w (snd (scanKeywords doc caseSensitive keywords ps w)).
Proof.
  induction keywords as [|k rest IH]; intros ps w; simpl.
  - apply keepsDecorations_refl.
  - unfold bind.
    pose proof (scanKeyword_keeps doc caseSensitive k ps w) as H1.
    destruct (scanKeyword doc caseSensitive k ps w) as [[c ps1] w1].
    cbn [snd] in H1.
    destruct c as [|e| |]; try exact H1.
    eapply keepsDecorations_trans; [exact H1 | apply IH].
Qed.

Lemma validateKeywords_loop_logOnly (entries : Object_)
  (minLength maxKeywords : JSON) :
  forall (acc : Object_) (count : nat) (w : World),
    logOnly w (snd (validateKeywords_loop entries minLength maxKeywords
                                          acc count w)).
Proof.
  induction entries as [|[k c] rest IH]; intros acc count w; simpl.
  - apply logOnly_refl.
  - destruct (atLeast count maxKeywords).
    + rewrite bind_ret_snd. apply logError_logOnly.
    + unfold bind.
      pose proof (validateKeyword_logOnly k c minLength w) as H1.
      destruct (validateKeyword k c minLength w) as [ok w1]. cbn [snd] in H1.
      destruct ok; (eapply logOnly_trans; [exact H1 | apply IH]).
Qed.

Lemma validateKeywords_logOnly (keywords : Object_) (w : World) :
  logOnly w (snd (validateKeywords keywords w)).
Proof.
  unfold validateKeywords, bind, config_get.
  apply validateKeywords_loop_logOnly.
Qed.

(** X8.  A scan touches neither the settings, the decoration types, the
    files, the messages nor the document, and it clears no decoration:
    a decoration type that showed ranges before [updateDecorations]
    still shows ranges after it, also when its keyword is gone from the
    text ([clearDecorations] clears nothing, and ranges are set only
    when some were found). *)
Theorem updateDecorations_keeps (w : World) :
  keepsDecorations w (snd (updateDecorations w)).
Proof.
  unfold updateDecorations, bind, config_get.
  destruct (negb _); [apply keepsDecorations_refl|].
  destruct (activeTextEditor w) as [e|] eqn:Ee; [|apply keepsDecorations_refl].
  destruct (inheritedLength (languageId (document e))) as [[[|n]|]|];
    [apply keepsDecorations_refl| | |];
    try (pose proof (safeMergeKeywords_logOnly w) as H1;
         destruct (safeMergeKeywords w) as [keywords w1]; cbn [snd] in H1;
         unfold clearDecorations, ret;
         pose proof (validateKeywords_logOnly keywords w1) as H2;
         destruct (validateKeywords keywords w1) as [validKeywords w2];
         cbn [snd] in H2;
         pose proof (scanKeywordsInherited_keeps (map fst validKeywords) w2)
           as H3;
         destruct (scanKeywordsInherited (map fst validKeywords) w2)
           as [u w3]; cbn [snd] in *;
         eapply keepsDecorations_trans;
         [apply logOnly_keepsDecorations; eapply logOnly_trans; eauto
         | exact H3]).
  destruct (getCommentPatterns (languageId (document e))) as [|p ps];
    [apply keepsDecorations_refl|].
  pose proof (safeMergeKeywords_logOnly w) as H1.
  destruct (safeMergeKeywords w) as [keywords w1]. cbn [snd] in H1.
  unfold clearDecorations, ret.
  pose proof (validateKeywords_logOnly keywords w1) as H2.
  destruct (validateKeywords keywords w1) as [validKeywords w2].
  cbn [snd] in H2.
  pose proof (scanKeywords_keeps (document e)
                (truthy (Some match assoc "caseSensitive" (config w1) with
                              | Some v => v
                              | None => JBool false
                              end))
                (map fst validKeywords) (p :: ps) w2) as H3.
  destruct (scanKeywords _ _ _ (p :: ps) w2) as [r w3]. cbn [snd] in *.
  eapply keepsDecorations_trans;
    [apply logOnly_keepsDecorations; eapply logOnly_trans; eauto | exact H3].
Qed.

(** ** Custom keywords override the built-in ones *)

Lemma assoc_app_last {A : Type} (k k1 : string) (v1 : A)
  (l : list (string * A)) :
  assoc k (l ++ [(k1, v1)])
  = match assoc k l with
    | Some v => Some v
    | None => if String.eqb k k1 then Some v1 else None
    end.
Proof.
  induction l as [|[k' v'] l IH]; simpl; [reflexivity|].
  now destruct (String.eqb k k').
Qed.

(** After a sequence of assignments a key holds what was assigned to it
    last, or what it held before. *)
Lemma assoc_fold_obj_set (entries : Object_) (k : string) :
  forall o,
    assoc k (fold_left (fun o '(k, v) => obj_set o k v) entries o)
    = match assoc k (List.rev entries) with
      | Some v => Some v
      | None => assoc k o
      end.
Proof.
  induction entries as [|[k1 v1] entries IH]; intros o; simpl;
    [reflexivity|].
  rewrite IH, assoc_app_last.
  destruct (assoc k (List.rev entries)); [reflexivity|].
  destruct (String.eqb k k1) eqn:E.
  - apply String.eqb_eq in E. subst k1. apply assoc_obj_set_same.
  - now apply assoc_obj_set_other.
Qed.

Lemma assoc_None_keys {A : Type} (k : string) (l : list (string * A)) :
  ~ In k (map fst l) -> assoc k l = None.
Proof.
  induction l as [|[k' v'] l IH]; simpl; [reflexivity|].
  intros H. destruct (String.eqb k k') eqn:E.
  - apply String.eqb_eq in E. subst k'. exfalso. apply H. now left.
  - apply IH. intros Hin. apply H. now right.
Qed.

Lemma assoc_rev_NoDup {A : Type} (k : string) (l : list (string * A)) :
  NoDup (map fst l) -> assoc k (List.rev l) = assoc k l.
Proof.
  induction l as [|[k1 v1] l IH]; simpl; [reflexivity|].
  intros H. inversion H as [|? ? Hnotin Hnd]; subst.
  rewrite assoc_app_last, (IH Hnd).
  destruct (String.eqb k k1) eqn:E.
  - apply String.eqb_eq in E. subst k1. now rewrite assoc_None_keys.
  - now destruct (assoc k l).
Qed.

(** X9.  When both keyword settings are objects, [safeMergeKeywords]
    logs nothing, and in the merged mapping a keyword has its custom
    color if it has one, its built-in color otherwise. *)
Theorem safeMergeKeywords_overrides (w : World) (defaults customs : Object_)
  (keyword : string) :
  setting w "keywords" (JObj []) = JObj defaults ->
  setting w "customKeywords" (JObj []) = JObj customs ->
  NoDup (map fst defaults) -> NoDup (map fst customs) ->
  snd (safeMergeKeywords w) = w
  /\ assoc keyword (fst (safeMergeKeywords w))
     = match assoc keyword customs with
       | Some color => Some color
       | None => assoc keyword defaults
       end.
Proof.
  intros Hd Hc Nd Nc. rewrite safeMergeKeywords_eq. cbv zeta.
  rewrite Hd, Hc. cbn [typeofObject negb orb fst snd].
  split; [reflexivity|]. unfold spread2. cbn [ownEntries].
  rewrite !assoc_fold_obj_set, !assoc_rev_NoDup by assumption.
  cbn [assoc].
  now destruct (assoc keyword customs), (assoc keyword defaults).
Qed.

Lemma safeMergeKeywords_overrides_witness :
  let w := withSetting "customKeywords"
             (JObj [("TODO", JStr "#111111"); ("URGENT", JStr "#222222")])
             freshWorld in
  assoc "TODO" (fst (safeMergeKeywords w)) = Some (JStr "#111111")
  /\ assoc "FIXME" (fst (safeMergeKeywords w)) = Some (JStr "#FF4500")
  /\ assoc "URGENT" (fst (safeMergeKeywords w)) = Some (JStr "#222222").
Proof.
  intros w.
  assert (Nd : NoDup (map fst getDefaultKeywords)).
  { repeat (constructor; [simpl; intuition discriminate|]). constructor. }
  assert (Nc : NoDup (map fst [("TODO", JStr "#111111");
                               ("URGENT", JStr "#222222")])).
  { repeat (constructor; [simpl; intuition discriminate|]). constructor. }
  split; [|split].
  - exact (proj2 (safeMergeKeywords_overrides w _ _ "TODO"
                    eq_refl eq_refl Nd Nc)).
  - exact (proj2 (safeMergeKeywords_overrides w _ _ "FIXME"
                    eq_refl eq_refl Nd Nc)).
  - exact (proj2 (safeMergeKeywords_overrides w _ _ "URGENT"
                    eq_refl eq_refl Nd Nc)).
Defined.

(** ** Valid settings pass the validation as they are *)

Lemma validateKeyword_valid (keyword : string) (color minLength : JSON)
  (w : World) :
  validEntry minLength (keyword, color) = true ->
  validateKeyword keyword color minLength w = (true, w).
Proof.
  unfold validEntry, validateKeyword. cbn [fst snd]. intros H.
  apply andb_prop in H. destruct H as [H Hc].
  apply andb_prop in H. destruct H as [Hl Ht].
  apply negb_true_iff in Hl.
  rewrite Hl, Ht. cbn [negb].
  destruct color; try discriminate. now rewrite Hc.
Qed.

Lemma stored_all (l : Object_) :
  assoc "__proto__" l = None -> stored l = l.
Proof.
  induction l as [|[k v] l IH]; cbn [assoc stored filter fst];
    [reflexivity|].
  rewrite (String.eqb_sym k).
  destruct (String.eqb "__proto__" k); [discriminate|].
  intros H. cbn [negb]. f_equal. now apply IH.
Qed.

Lemma stored_none (l : Object_) : assoc "__proto__" (stored l) = None.
Proof.
  induction l as [|[k v] l IH]; cbn [assoc stored filter fst];
    [reflexivity|].
  destruct (String.eqb k "__proto__") eqn:E; cbn [negb]; [exact IH|].
  cbn [assoc]. rewrite String.eqb_sym, E. exact IH.
Qed.

Lemma validateKeywords_loop_valid (entries : Object_)
  (minLength maxKeywords : JSON) :
  forall (acc : Object_) (count : nat) (w : World),
    enumerated (acc ++ entries) ->
    forallb (validEntry minLength) entries = true ->
    assoc "__proto__" entries = None ->
    withinCap maxKeywords (count + List.length entries) ->
    validateKeywords_loop entries minLength maxKeywords acc count w
    = (acc ++ entries, w).
Proof.
  induction entries as [|[k c] rest IH]; intros acc count w He Hv Hp Hn;
    cbn [validateKeywords_loop].
  - now rewrite app_nil_r.
  - simpl in Hv. apply andb_prop in Hv. destruct Hv as [Hk Hv].
    cbn [List.length] in Hn. cbn [assoc] in Hp.
    destruct (String.eqb "__proto__" k) eqn:Epk; [discriminate|].
    assert (Hcap : atLeast count maxKeywords = false).
    { rewrite atLeast_capOf. unfold withinCap in Hn.
      destruct (capOf maxKeywords); [|reflexivity].
      apply Nat.leb_gt. lia. }
    rewrite Hcap. unfold bind. rewrite (validateKeyword_valid k c _ w Hk).
    unfold obj_assign. rewrite String.eqb_sym, Epk. cbn [andb].
    rewrite obj_set_append
      by (apply enumerated_prefix with (l2 := rest);
          now rewrite <- app_assoc).
    rewrite IH; [now rewrite <- app_assoc | now rewrite <- app_assoc
                 | exact Hv | exact Hp |].
    unfold withinCap in *. destruct (capOf maxKeywords); [lia|exact I].
Qed.

Lemma validateKeywords_valid (keywords : Object_) (w : World) :
  enumerated keywords ->
  forallb (validEntry (minKeywordLengthOf w)) keywords = true ->
  assoc "__proto__" keywords = None ->
  withinCap (maxKeywordsOf w) (List.length keywords) ->
  validateKeywords keywords w = (keywords, w).
Proof.
  intros He Hv Hp Hn. unfold validateKeywords, bind, config_get.
  apply (validateKeywords_loop_valid keywords _ _ [] 0 w); auto.
Qed.



Lemma enumerated_filter (f : string * JSON -> bool) (o : Object_) :
  enumerated o -> enumerated (filter f o).
Proof.
  induction o as [|[k v] o IH]; simpl; [auto|].
  intros [H1 H2]. destruct (f (k, v)); [|auto].
  simpl. split; [|auto].
  intros e He. apply filter_In in He. apply H1. tauto.
Qed.

Lemma enumerated_firstn (n : nat) (o : Object_) :
  enumerated o -> enumerated (firstn n o).
Proof.
  intros H. apply enumerated_prefix with (l2 := skipn n o).
  now rewrite firstn_skipn.
Qed.

Lemma length_stored (l : Object_) : List.length (stored l) <= List.length l.
Proof. apply filter_length_le. Qed.

Lemma forallb_stored_capped (f : string * JSON -> bool) (maxKeywords : JSON)
  (l : Object_) :
  forallb f (stored (capped maxKeywords (filter f l))) = true.
Proof.
  apply forallb_forall. intros x Hx.
  apply In_stored, In_cappedFrom, filter_In in Hx. tauto.
Qed.

Lemma enumerated_stored_capped (maxKeywords : JSON) (o : Object_) :
  enumerated o -> enumerated (stored (capped maxKeywords o)).
Proof.
  intros H. apply enumerated_filter. unfold capped, cappedFrom.
  destruct (capOf maxKeywords); [now apply enumerated_firstn | exact H].
Qed.

Lemma withinCap_stored_capped (maxKeywords : JSON) (l : Object_) :
  withinCap maxKeywords (List.length (stored (capped maxKeywords l))).
Proof.
  unfold withinCap, capped, cappedFrom.
  destruct (capOf maxKeywords) as [n|]; [|exact I].
  pose proof (length_stored (firstn (n - 0) l)) as H.
  rewrite length_firstn in H. lia.
Qed.


(** ** Where the cap is missed *)

Lemma In_keys_assoc {A : Type} (k : string) (l : list (string * A)) :
  In k (map fst l) <-> assoc k l <> None.
Proof.
  split.
  - intros Hin Hnone. induction l as [|[k' v'] l IH]; simpl in *; [auto|].
    destruct (String.eqb k k') eqn:E; [discriminate|].
    destruct Hin as [->|Hin]; [now rewrite String.eqb_refl in E | auto].
  - intros H. destruct (assoc k l) as [v|] eqn:E; [|congruence].
    apply assoc_In in E. apply in_map_iff. now exists (k, v).
Qed.

(** With an integer for [maxKeywords] and no entry named [__proto__],
    the validated mapping is made of the first [maxKeywords] valid
    entries, in the order of enumeration. *)
Lemma validateKeywords_integer_cap (keywords : Object_) (w : World) (z : Z) :
  enumerated keywords ->
  maxKeywordsOf w = JNum (inject_Z z) ->
  assoc "__proto__" keywords = None ->
  let valid := filter (validEntry (minKeywordLengthOf w)) keywords in
  fst (validateKeywords keywords w) = firstn (Z.to_nat z) valid
  /\ (0 <= z -> Z.of_nat (List.length (fst (validateKeywords keywords w))) <= z)%Z.
Proof.
  intros He Hmax Hp valid.
  assert (E : fst (validateKeywords keywords w) = firstn (Z.to_nat z) valid).
  { rewrite (validateKeywords_spec keywords w He).
    unfold capped, cappedFrom. rewrite Hmax, capOf_integer, Nat.sub_0_r.
    fold valid. apply stored_all.
    destruct (assoc "__proto__" (firstn (Z.to_nat z) valid)) as [v|] eqn:A;
      [|reflexivity].
    apply assoc_In, In_firstn_In in A. subst valid.
    apply filter_In in A. destruct A as [A _].
    apply (in_map fst) in A. cbn [fst] in A.
    apply In_keys_assoc in A. contradiction. }
  split; [exact E|].
  intros Hz. rewrite E, length_firstn. lia.
Qed.

(** C6.  The number of validated keywords exceeds a [maxKeywords] that
    is no integer: the loop compares the count of accepted entries with
    the setting before each entry, so with [maxKeywords] at 2.5 it
    accepts a third entry ([2 >= 2.5] is false) and stops at the fourth.
    And a valid entry named [__proto__] is counted but not stored, the
    assignment [validKeywords['__proto__'] = color] being no definition
    of a property: with [maxKeywords] at 2 the validated mapping is then
    not made of the first two valid entries. *)
Theorem validateKeywords_cap_missed :
  let fractional := withSetting "maxKeywords" (JNum 2.5) freshWorld in
  let two := withSetting "maxKeywords" (JNum 2) freshWorld in
  let keywords := [ ("__proto__", JStr "#FF0000"); ("TODO", JStr "#00BFFF");
                    ("FIXME", JStr "#FF4500") ] in
  (fst (validateKeywords getDefaultKeywords fractional)
   = [ ("TODO", JStr "#00BFFF"); ("FIXME", JStr "#FF4500");
       ("NOTE", JStr "#32CD32") ]
   /\ atLeast 2 (maxKeywordsOf fractional) = false
   /\ atLeast 3 (maxKeywordsOf fractional) = true
   /\ loggerLines (snd (validateKeywords getDefaultKeywords fractional))
      = ["[ERROR] Maximum keywords (2.5) exceeded, ignoring 'WARNING'"])
  /\ (filter (validEntry (minKeywordLengthOf two)) keywords = keywords
      /\ fst (validateKeywords keywords two) = [ ("TODO", JStr "#00BFFF") ]
      /\ loggerLines (snd (validateKeywords keywords two))
         = ["[ERROR] Maximum keywords (2) exceeded, ignoring 'FIXME'"]).
Proof. vm_compute. repeat split; reflexivity. Qed.

(** ** Decoration types *)

Lemma filter_twice {A : Type} (f g : A -> bool) (l : list A) :
  filter g (filter f l) = filter (fun x => f x && g x) l.
Proof.
  induction l as [|a l IH]; [reflexivity|].
  cbn [filter]. destruct (f a); cbn [andb filter];
    [destruct (g a); now rewrite IH | exact IH].
Qed.

Lemma withoutTypes_nil {A : Type} (l : list (DecorationType * A)) :
  withoutTypes [] l = l.
Proof.
  unfold withoutTypes.
  rewrite (filter_ext _ (fun _ => true)) by reflexivity.
  induction l as [|a l IH]; [reflexivity|]. cbn [filter]. now rewrite IH.
Qed.

Lemma withoutTypes_cons {A : Type} (dt : DecorationType)
  (dts : list DecorationType) (l : list (DecorationType * A)) :
  withoutTypes dts (withoutType dt l) = withoutTypes (dt :: dts) l.
Proof.
  unfold withoutTypes, withoutType. rewrite filter_twice.
  apply filter_ext. intros a. cbn [existsb].
  now destruct (fst a =? dt).
Qed.

(** Disposing of a list of decoration types: they leave the renderer
    and the editor; the settings and the next key stay. *)
Lemma fold_dispose (regs : list (string * DecorationType)) :
  forall host,
    let host' := fold_left (fun hst entry => dispose (snd entry) hst)
                           regs host in
    config (world host') = config (world host)
    /\ activeTextEditor (world host')
       = option_map
           (fun e => mkEditor (document e)
                              (withoutTypes (map snd regs) (decorations e)))
           (activeTextEditor (world host))
    /\ live (renderer host')
       = withoutTypes (map snd regs) (live (renderer host))
    /\ nextKey (renderer host') = nextKey (renderer host).
Proof.
  induction regs as [|[k dt] regs IH]; intros host; cbn [fold_left map snd].
  - cbv zeta. rewrite !withoutTypes_nil.
    split; [reflexivity|]. split; [|auto].
    destruct (activeTextEditor (world host)) as [[d ds]|]; simpl;
      [now rewrite withoutTypes_nil | reflexivity].
  - specialize (IH (dispose dt host)). cbv zeta in IH |- *.
    destruct IH as (C & E & V & N).
    split; [|split; [|split]].
    + rewrite C. reflexivity.
    + rewrite E. cbn [dispose world activeTextEditor].
      destruct (activeTextEditor (world host)) as [[d ds]|]; simpl;
        [now rewrite withoutTypes_cons | reflexivity].
    + rewrite V. cbn [dispose renderer live]. apply withoutTypes_cons.
    + rewrite N. reflexivity.
Qed.

Lemma disposeDecorationTypes_spec (host : Host) :
  let host1 := disposeDecorationTypes host in
  let old := map snd (decorationTypes (world host)) in
  config (world host1) = config (world host)
  /\ decorationTypes (world host1) = []
  /\ activeTextEditor (world host1)
     = option_map
         (fun e => mkEditor (document e) (withoutTypes old (decorations e)))
         (activeTextEditor (world host))
  /\ live (renderer host1) = withoutTypes old (live (renderer host))
  /\ nextKey (renderer host1) = nextKey (renderer host).
Proof.
  cbv zeta. unfold disposeDecorationTypes, setDecorationTypes.
  destruct (fold_dispose (decorationTypes (world host)) host)
    as (C & E & V & N).
  cbn [world renderer config decorationTypes activeTextEditor].
  auto.
Qed.

(** The validated keyword set depends on the settings only. *)
Lemma safeMergeKeywords_config (w w' : World) :
  config w' = config w ->
  fst (safeMergeKeywords w') = fst (safeMergeKeywords w).
Proof.
  intros H. apply safeMergeKeywords_highlighting.
  now apply highlighting_config.
Qed.

Lemma validKeywordsOf_spec (w : World) :
  validKeywordsOf w
  = stored (capped (maxKeywordsOf w)
              (filter (validEntry (minKeywordLengthOf w))
                      (fst (safeMergeKeywords w)))).
Proof.
  unfold validKeywordsOf.
  rewrite validateKeywords_spec by apply safeMergeKeywords_enumerated.
  assert (Hc : config (snd (safeMergeKeywords w)) = config w)
    by apply safeMergeKeywords_logOnly.
  unfold maxKeywordsOf, minKeywordLengthOf, setting, config_get. cbn [fst].
  now rewrite Hc.
Qed.

Lemma validKeywordsOf_config (w w' : World) :
  config w' = config w -> validKeywordsOf w' = validKeywordsOf w.
Proof.
  intros H. rewrite !validKeywordsOf_spec.
  rewrite (safeMergeKeywords_config w w' H).
  unfold maxKeywordsOf, minKeywordLengthOf, setting, config_get. cbn [fst].
  now rewrite H.
Qed.

Lemma enumerated_NoDup (o : Object_) : enumerated o -> NoDup (map fst o).
Proof.
  induction o as [|[k v] o IH]; simpl; [constructor|].
  intros [H1 H2]. constructor; [|auto].
  intros Hin. apply in_map_iff in Hin. destruct Hin as (e & Ee & He).
  destruct (H1 e He) as [Hne _]. rewrite Ee, String.eqb_refl in Hne.
  discriminate.
Qed.

Lemma validKeywordsOf_enumerated (w : World) : enumerated (validKeywordsOf w).
Proof.
  rewrite validKeywordsOf_spec.
  apply enumerated_stored_capped, enumerated_filter,
    safeMergeKeywords_enumerated.
Qed.

(** What [updateDecorationTypes] does after it has disposed of the old
    decoration types. *)
Lemma updateDecorationTypes_eq (host : Host) :
  exists w3,
    logOnly (world (disposeDecorationTypes host)) w3
    /\ updateDecorationTypes host
       = fold_left
           (createDecoration
              (setting (world host) "highlightStyle" (JStr "text"))
              (setting (world host) "fontWeight" (JStr "bold"))
              (setting (world host) "showIcons" (JBool false)))
           (validKeywordsOf (world host))
           (mkHost w3 (renderer (disposeDecorationTypes host))).
Proof.
  unfold updateDecorationTypes, inWorld.
  destruct (disposeDecorationTypes_spec host) as (C & _).
  set (host1 := disposeDecorationTypes host) in *.
  pose proof (safeMergeKeywords_logOnly (world host1)) as L1.
  pose proof (validKeywordsOf_config (world host) (world host1) C) as Hv.
  unfold validKeywordsOf in Hv at 1.
  destruct (safeMergeKeywords (world host1)) as [keywords w2].
  cbn [fst snd] in L1, Hv. cbn [world renderer].
  unfold config_get at 1 2 3. cbn [world renderer].
  pose proof (validateKeywords_logOnly keywords w2) as L2.
  destruct (validateKeywords keywords w2) as [validKeywords w3].
  cbn [fst snd] in L2, Hv. subst validKeywords.
  exists w3. split; [eapply logOnly_trans; eauto|].
  assert (C2 : config w2 = config (world host))
    by (destruct L1 as (-> & _); exact C).
  unfold setting, config_get. cbn [fst]. now rewrite C2.
Qed.

Lemma Map_set_new {A : Type} (m : list (string * A)) (key : string)
  (value : A) :
  assoc key m = None -> Map_set m key value = m ++ [(key, value)].
Proof.
  induction m as [|[k v] m IH]; simpl; [reflexivity|].
  destruct (String.eqb key k); [discriminate|].
  intros H. now rewrite IH.
Qed.

(** The decoration types created for a keyword mapping: one after the
    other, each under the next key of the renderer. *)
Lemma fold_createDecoration (highlightStyle fontWeight showIcons : JSON)
  (entries : Object_) :
  forall host,
    NoDup (map fst entries) ->
    (forall k, In k (map fst entries) ->
               assoc k (decorationTypes (world host)) = None) ->
    let host' := fold_left (createDecoration highlightStyle fontWeight
                                             showIcons) entries host in
    decorationTypes (world host')
    = decorationTypes (world host)
      ++ numbered (nextKey (renderer host)) entries
    /\ live (renderer host')
       = live (renderer host)
         ++ styled highlightStyle fontWeight showIcons
                   (nextKey (renderer host)) entries
    /\ nextKey (renderer host')
       = nextKey (renderer host) + List.length entries
    /\ config (world host') = config (world host)
    /\ activeTextEditor (world host') = activeTextEditor (world host)
    /\ errorCount (world host') = errorCount (world host).
Proof.
  induction entries as [|[k c] rest IH]; intros host Hnd Hnew;
    cbn [fold_left numbered styled List.length].
  - cbv zeta. rewrite !app_nil_r, Nat.add_0_r. auto 10.
  - inversion Hnd as [|? ? Hnotin Hnd']; subst.
    set (host1 := createDecoration highlightStyle fontWeight showIcons host
                                   (k, c)).
    assert (Hd : decorationTypes (world host1)
                 = decorationTypes (world host)
                   ++ [(k, nextKey (renderer host))]).
    { unfold host1, createDecoration, createTextEditorDecorationType,
        setDecorationTypes.
      cbn [world renderer decorationTypes].
      apply Map_set_new, Hnew. now left. }
    assert (Hl : live (renderer host1)
                 = live (renderer host)
                   ++ [(nextKey (renderer host),
                        createDecorationOptions k c highlightStyle fontWeight
                                                showIcons)])
      by reflexivity.
    assert (Hn : nextKey (renderer host1) = S (nextKey (renderer host)))
      by reflexivity.
    assert (Hc : config (world host1) = config (world host)) by reflexivity.
    assert (He : activeTextEditor (world host1)
                 = activeTextEditor (world host)) by reflexivity.
    assert (Hx : errorCount (world host1) = errorCount (world host))
      by reflexivity.
    specialize (IH host1 Hnd').
    destruct IH as (D & V & N & C & E & X).
    { intros k' Hk'. rewrite Hd, assoc_app_last.
      rewrite Hnew by now right.
      destruct (String.eqb k' k) eqn:Ek; [|reflexivity].
      apply String.eqb_eq in Ek. subst k'. contradiction. }
    cbv zeta. rewrite D, V, N, C, E, X, Hd, Hl, Hn, Hc, He, Hx.
    rewrite <- !app_assoc. cbn [app].
    repeat split; auto.
Qed.

Lemma updateDecorationTypes_spec (host : Host) :
  let host' := updateDecorationTypes host in
  let n := nextKey (renderer host) in
  let valid := validKeywordsOf (world host) in
  let old := map snd (decorationTypes (world host)) in
  decorationTypes (world host') = numbered n valid
  /\ live (renderer host')
     = withoutTypes old (live (renderer host))
       ++ styled (setting (world host) "highlightStyle" (JStr "text"))
                 (setting (world host) "fontWeight" (JStr "bold"))
                 (setting (world host) "showIcons" (JBool false)) n valid
  /\ nextKey (renderer host') = n + List.length valid
  /\ config (world host') = config (world host)
  /\ activeTextEditor (world host')
     = option_map
         (fun e => mkEditor (document e) (withoutTypes old (decorations e)))
         (activeTextEditor (world host)).
Proof.
  cbv zeta.
  destruct (updateDecorationTypes_eq host) as (w3 & L & ->).
  destruct (disposeDecorationTypes_spec host) as (C & D & E & V & N).
  destruct L as (C3 & D3 & E3 & _).
  rewrite C in C3. rewrite D in D3. rewrite E in E3.
  destruct (fold_createDecoration
              (setting (world host) "highlightStyle" (JStr "text"))
              (setting (world host) "fontWeight" (JStr "bold"))
              (setting (world host) "showIcons" (JBool false))
              (validKeywordsOf (world host))
              (mkHost w3 (renderer (disposeDecorationTypes host))))
    as (D' & V' & N' & C' & E' & _).
  - apply enumerated_NoDup, validKeywordsOf_enumerated.
  - intros k _. cbn [world]. now rewrite D3.
  - cbn [world renderer] in D', V', N', C', E'.
    rewrite D', V', N', C', E', D3, V, N, C3, E3. auto.
Qed.

Lemma numbered_keys (n : nat) (entries : Object_) :
  map fst (numbered n entries) = map fst entries.
Proof.
  revert n. induction entries as [|[k c] rest IH]; intros n; simpl;
    [reflexivity|]. now rewrite IH.
Qed.

Lemma numbered_handles (n : nat) (entries : Object_) :
  map snd (numbered n entries) = seq n (List.length entries).
Proof.
  revert n. induction entries as [|[k c] rest IH]; intros n; simpl;
    [reflexivity|]. now rewrite IH.
Qed.

Lemma styled_handles (hs fw si : JSON) (n : nat) (entries : Object_) :
  map fst (styled hs fw si n entries) = seq n (List.length entries).
Proof.
  revert n. induction entries as [|[k c] rest IH]; intros n; simpl;
    [reflexivity|]. now rewrite IH.
Qed.

Lemma numbered_styled (hs fw si : JSON) (entries : Object_) (k : string)
  (c : JSON) :
  forall n,
    NoDup (map fst entries) -> In (k, c) entries ->
    exists dt,
      assoc k (numbered n entries) = Some dt
      /\ In (dt, createDecorationOptions k c hs fw si)
            (styled hs fw si n entries).
Proof.
  induction entries as [|[k0 c0] rest IH]; intros n Hnd Hin; [destruct Hin|].
  inversion Hnd as [|? ? Hnotin Hnd']; subst.
  cbn [numbered styled assoc].
  destruct Hin as [[= -> ->]|Hin].
  - exists n. rewrite String.eqb_refl. split; [reflexivity | now left].
  - assert (Hne : String.eqb k k0 = false).
    { apply String.eqb_neq. intros ->. apply Hnotin.
      apply in_map_iff. now exists (k0, c). }
    rewrite Hne. destruct (IH (S n) Hnd' Hin) as (dt & A & B).
    exists dt. split; [exact A | now right].
Qed.

Lemma createDecorationOptions_color (keyword : string)
  (c highlightStyle fontWeight showIcons : JSON) :
  color (createDecorationOptions keyword c highlightStyle fontWeight showIcons)
  = Some c.
Proof.
  unfold createDecorationOptions.
  destruct highlightStyle as [|b|n|style|items|props]; try reflexivity.
  destruct (String.eqb style "background"); [reflexivity|].
  destruct (String.eqb style "border"); [reflexivity|].
  destruct (String.eqb style "underline"); reflexivity.
Qed.

(** X12.  After [updateDecorationTypes] the registered keywords are the
    validated keywords of the settings, in their order; each of them has
    a decoration type of its own in the renderer, created with the
    options for its color and the current style settings, and the color
    of these options is the color of the keyword; the settings are
    untouched. *)
Theorem updateDecorationTypes_registers (host : Host) :
  let host' := updateDecorationTypes host in
  let w := world host in
  map fst (decorationTypes (world host')) = map fst (validKeywordsOf w)
  /\ (forall keyword c,
        In (keyword, c) (validKeywordsOf w) ->
        exists dt options,
          assoc keyword (decorationTypes (world host')) = Some dt
          /\ In (dt, options) (live (renderer host'))
          /\ options
             = createDecorationOptions keyword c
                 (setting w "highlightStyle" (JStr "text"))
                 (setting w "fontWeight" (JStr "bold"))
                 (setting w "showIcons" (JBool false))
          /\ color options = Some c)
  /\ NoDup (map snd (decorationTypes (world host')))
  /\ config (world host') = config w.
Proof.
  cbv zeta.
  destruct (updateDecorationTypes_spec host) as (D & V & N & C & E).
  rewrite D, V. split; [apply numbered_keys|]. split; [|split; [|exact C]].
  - intros keyword c Hin.
    destruct (numbered_styled
                (setting (world host) "highlightStyle" (JStr "text"))
                (setting (world host) "fontWeight" (JStr "bold"))
                (setting (world host) "showIcons" (JBool false))
                (validKeywordsOf (world host)) keyword c
                (nextKey (renderer host))) as (dt & A & B).
    + apply enumerated_NoDup, validKeywordsOf_enumerated.
    + exact Hin.
    + eexists dt, _. split; [exact A|]. split; [|split; [reflexivity|]].
      * apply in_app_iff. right. exact B.
      * apply createDecorationOptions_color.
  - rewrite numbered_handles. apply seq_NoDup.
Qed.

Lemma filter_none {A : Type} (f : A -> bool) (l : list A) :
  (forall x, In x l -> f x = false) -> filter f l = [].
Proof.
  induction l as [|a l IH]; simpl; [reflexivity|].
  intros H. rewrite (H a) by now left. apply IH. intros x Hx. apply H.
  now right.
Qed.

Lemma decorationsOf_absent (ds : list (DecorationType * list Range))
  (dt : DecorationType) :
  (forall entry, In entry ds -> fst entry <> dt) -> decorationsOf ds dt = [].
Proof.
  induction ds as [|[h rs] ds IH]; simpl; [reflexivity|].
  intros H. destruct (dt =? h) eqn:E.
  - apply Nat.eqb_eq in E. subst h. now destruct (H (dt, rs) (or_introl eq_refl)).
  - apply IH. intros entry He. apply H. now right.
Qed.

Lemma decorationsOf_withoutTypes (dts : list DecorationType)
  (ds : list (DecorationType * list Range)) (dt : DecorationType) :
  In dt dts -> decorationsOf (withoutTypes dts ds) dt = [].
Proof.
  intros Hin. apply decorationsOf_absent. intros entry He.
  unfold withoutTypes in He. apply filter_In in He. destruct He as [_ He].
  apply negb_true_iff, not_true_iff_false in He. intros Heq. subst dt.
  apply He, existsb_exists. exists (fst entry). split; [exact Hin|].
  apply Nat.eqb_refl.
Qed.

Lemma updateDecorationTypes_clean (host : Host) :
  hostOk host ->
  let host' := updateDecorationTypes host in
  hostOk host'
  /\ map fst (live (renderer host'))
     = map snd (decorationTypes (world host'))
  /\ (forall dt,
        In dt (map snd (decorationTypes (world host)))
        \/ In dt (map snd (decorationTypes (world host'))) ->
        shown (world host') dt = []).
Proof.
  intros (Hreg & Hlive & Hed). cbv zeta.
  destruct (updateDecorationTypes_spec host) as (D & V & N & C & E).
  set (host' := updateDecorationTypes host) in *.
  set (n := nextKey (renderer host)) in *.
  set (valid := validKeywordsOf (world host)) in *.
  set (old := map snd (decorationTypes (world host))) in *.
  assert (Hgone : withoutTypes old (live (renderer host)) = []).
  { apply filter_none. intros entry He. apply negb_false_iff.
    apply existsb_exists. exists (fst entry).
    split; [now apply Hlive | apply Nat.eqb_refl]. }
  rewrite Hgone, app_nil_l in V.
  assert (Hnew : forall dt, In dt (map snd (decorationTypes (world host'))) ->
                            n <= dt < n + List.length valid).
  { intros dt Hdt. rewrite D, numbered_handles in Hdt.
    apply in_seq in Hdt. lia. }
  assert (Hold : forall e entry,
             activeTextEditor (world host') = Some e ->
             In entry (decorations e) ->
             fst entry < n /\ ~ In (fst entry) old).
  { intros e entry He Hin. rewrite E in He.
    destruct (activeTextEditor (world host)) as [e0|] eqn:E0;
      [|discriminate].
    injection He as <-. cbn [decorations] in Hin.
    unfold withoutTypes in Hin. apply filter_In in Hin.
    destruct Hin as [Hin Hf]. split; [exact (Hed e0 entry eq_refl Hin)|].
    intros Ho. apply negb_true_iff, not_true_iff_false in Hf.
    apply Hf, existsb_exists. exists (fst entry).
    split; [exact Ho | apply Nat.eqb_refl]. }
  split; [|split].
  - unfold hostOk, issued. rewrite N. split; [|split].
    + intros entry He. apply (in_map snd) in He. apply Hnew in He. lia.
    + intros entry He. apply (in_map fst) in He.
      rewrite V, styled_handles in He.
      rewrite D, numbered_handles. split; [|exact He].
      apply in_seq in He. lia.
    + intros e entry He Hin. destruct (Hold e entry He Hin). lia.
  - now rewrite V, D, styled_handles, numbered_handles.
  - intros dt Hdt. unfold shown.
    destruct (activeTextEditor (world host')) as [e|] eqn:Ee; [|reflexivity].
    apply decorationsOf_absent. intros entry Hin Heq. subst dt.
    destruct (Hold e entry eq_refl Hin) as [Hlt Hno].
    destruct Hdt as [Hdt|Hdt]; [contradiction|].
    apply Hnew in Hdt. lia.
Qed.

(** X13.  In a host in order, [updateDecorationTypes] leaves no
    decoration type behind and no decoration in the editor: the
    decoration types that exist afterwards are exactly the registered
    ones, the editor shows no range for a type that was registered
    before or is registered now, and the host is in order again. *)
Theorem updateDecorationTypes_fresh (host : Host) :
  hostOk host ->
  let host' := updateDecorationTypes host in
  hostOk host'
  /\ map fst (live (renderer host'))
     = map snd (decorationTypes (world host'))
  /\ (forall dt,
        In dt (map snd (decorationTypes (world host)))
        \/ In dt (map snd (decorationTypes (world host'))) ->
        shown (world host') dt = []).
Proof. exact (updateDecorationTypes_clean host). Qed.

Lemma updateDecorationTypes_fresh_witness :
  let host := mkHost (mkWorld (Some []) [] 0 packageDefaults
                              [("TODO", 0); ("OLD", 1)]
                              (Some (mkEditor (mkDocument "// TODO" "javascript")
                                      [(0, [mkRange (mkPosition 0 3)
                                                    (mkPosition 0 7)])]))
                              [] [] [])
                     (mkRenderer [(0, mkOptions (JStr "bold") None None None
                                                None (Some (JStr "#00BFFF")));
                                  (1, mkOptions (JStr "bold") None None None
                                                None (Some (JStr "#123456")))]
                                 2) in
  hostOk (updateDecorationTypes host)
  /\ shown (world (updateDecorationTypes host)) 0 = [].
Proof.
  intros host.
  assert (Hok : hostOk host).
  { unfold hostOk, issued. simpl. split; [|split].
    - intros entry [<-|[<-|[]]]; simpl; lia.
    - intros entry [<-|[<-|[]]]; simpl; split; auto; lia.
    - intros e entry [= <-] [<-|[]]. simpl. lia. }
  destruct (updateDecorationTypes_fresh host Hok) as (H1 & _ & H3).
  split; [exact H1|]. apply H3. left. simpl. now left.
Defined.

(** ** A change of the settings refreshes the decorations *)

Section LiteralWorld.

Variable doc : TextDocument.
Variable keyword : string.
Variable caseSensitive : bool.

(** The literal matcher does the same in every world. *)
Lemma scanPattern_literal_world (p : CommentPattern) (ranges : list Range)
  (w w0 : World) :
  fst (scanPattern doc (literalComment doc keyword caseSensitive)
                   (patternError keyword) p ranges w)
  = fst (scanPattern doc (literalComment doc keyword caseSensitive)
                     (patternError keyword) p ranges w0).
Proof.
  unfold scanPattern.
  pose proof (whileExec_never_throws
                (literalComment doc keyword caseSensitive)
                (chars (getText doc))
                (fun m st e =>
                   literalComment_never_throws doc keyword caseSensitive
                     (chars (getText doc)) eq_refl m st e)
                (List.length (chars (getText doc))) (pattern p) ranges)
    as Hnt.
  destruct (whileExec _ _ _ (pattern p) ranges) as [[c R'] ranges'].
  destruct c as [|e| |]; try reflexivity.
  now destruct (Hnt e).
Qed.

Lemma forEachPattern_literal_world (ps : list CommentPattern) :
  forall (ranges : list Range) (w w0 : World),
    fst (forEachPattern
           (scanPattern doc (literalComment doc keyword caseSensitive)
                        (patternError keyword)) ps ranges w)
    = fst (forEachPattern
             (scanPattern doc (literalComment doc keyword caseSensitive)
                          (patternError keyword)) ps ranges w0).
Proof.
  induction ps as [|p rest IH]; intros ranges w w0; cbn [forEachPattern];
    [reflexivity|].
  unfold bind.
  pose proof (scanPattern_literal_world p ranges w w0) as H.
  pose proof (scanPattern_literal doc keyword caseSensitive
                (chars (getText doc)) eq_refl p ranges w) as Hw.
  pose proof (scanPattern_literal doc keyword caseSensitive
                (chars (getText doc)) eq_refl p ranges w0) as Hw0.
  destruct (scanPattern doc _ _ p ranges w) as [[[c p'] ranges'] w1].
  destruct (scanPattern doc _ _ p ranges w0) as [[[c0 p0'] ranges0'] w1'].
  cbn [fst] in H. injection H as -> -> ->.
  destruct Hw as (-> & _). destruct Hw0 as (-> & _).
  destruct c0 as [|e| |]; try reflexivity.
  specialize (IH ranges0' w w0).
  destruct (forEachPattern _ rest ranges0' w) as [[[c' rest'] ranges''] w2].
  destruct (forEachPattern _ rest ranges0' w0) as [[[c0' rest0'] ranges0''] w2'].
  cbn [fst] in IH. injection IH as -> -> ->. reflexivity.
Qed.

Lemma findCommentKeywords_literalRanges (ps : list CommentPattern)
  (w : World) :
  isRegexKeyword keyword = false ->
  snd (fst (findCommentKeywords doc keyword ps caseSensitive w))
  = literalRanges doc keyword ps caseSensitive.
Proof.
  intros Hre. rewrite literal_mode by (rewrite Hre; apply andb_false_r).
  unfold literalRanges.
  now rewrite (forEachPattern_literal_world ps [] w freshWorld).
Qed.

End LiteralWorld.

Lemma setDecorations_shown (dt dt' : DecorationType) (ranges : list Range)
  (w : World) :
  activeTextEditor w <> None ->
  shown (snd (setDecorations dt ranges w)) dt'
  = if dt' =? dt then ranges else shown w dt'.
Proof.
  unfold setDecorations, setEditor, shown.
  destruct (activeTextEditor w) as [e|]; [|congruence].
  intros _. simpl. apply decorationsOf_replace.
Qed.

(** The keys of the decorations of the editor satisfy [P]. *)
Lemma replaceDecorations_keys (P : DecorationType -> Prop)
  (ds : list (DecorationType * list Range)) (dt : DecorationType)
  (ranges : list Range) :
  P dt -> (forall entry, In entry ds -> P (fst entry)) ->
  forall entry, In entry (replaceDecorations ds dt ranges) -> P (fst entry).
Proof.
  intros Hdt. induction ds as [|[h rs] ds IH]; simpl; intros Hds entry.
  - intros [<-|[]]. exact Hdt.
  - destruct (dt =? h).
    + intros [<-|Hin]; [exact Hdt|]. apply Hds. now right.
    + intros [<-|Hin]; [apply (Hds (h, rs)); now left|].
      apply IH; [|exact Hin]. intros e He. apply Hds. now right.
Qed.

Section Refresh.

Variable doc : TextDocument.
Variable caseSensitive : bool.
Variable language : string.

(** One literal keyword: its decoration type, if it has one, shows the
    ranges that were found, if any were found; the rest is as before. *)
Lemma scanKeyword_shows (keyword : string) (w : World)
  (P : DecorationType -> Prop) :
  isRegexKeyword keyword = false -> 0 < String.length keyword ->
  activeTextEditor w <> None ->
  (forall k dt, assoc k (decorationTypes w) = Some dt -> P dt) ->
  (forall e entry, activeTextEditor w = Some e -> In entry (decorations e) ->
                   P (fst entry)) ->
  exists w',
    scanKeyword doc caseSensitive keyword (getCommentPatterns language) w
    = (Normal, getCommentPatterns language, w')
    /\ decorationTypes w' = decorationTypes w
    /\ config w' = config w
    /\ activeTextEditor w' <> None
    /\ (forall e entry, activeTextEditor w' = Some e ->
                        In entry (decorations e) -> P (fst entry))
    /\ forall dt',
         shown w' dt'
         = match assoc keyword (decorationTypes w) with
           | Some dt =>
               if dt' =? dt then
                 match literalRanges doc keyword (getCommentPatterns language)
                                     caseSensitive with
                 | [] => shown w dt'
                 | ranges => ranges
                 end
               else shown w dt'
           | None => shown w dt'
           end.
Proof.
  intros Hre Hlen Hed HP Hkeys.
  unfold scanKeyword, bind, getDecorationType.
  destruct (assoc keyword (decorationTypes w)) as [dt|] eqn:Hdt.
  2:{ exists w. unfold ret. repeat split; auto. }
  unfold markScanned.
  set (w0 := mkWorld _ _ _ _ _ _ _ _ (scanned w ++ [keyword])).
  destruct (findCommentKeywords_returns doc keyword language caseSensitive w0)
    as (ranges & E & _); [rewrite Hre; apply andb_false_r | exact Hlen |].
  pose proof (findCommentKeywords_literalRanges doc keyword caseSensitive
                (getCommentPatterns language) w0 Hre) as HR.
  rewrite E in HR. cbn [fst snd] in HR. rewrite E, <- HR.
  destruct ranges as [|r ranges]; unfold ret.
  - exists w0. repeat split; auto.
    intros dt'. now destruct (dt' =? dt).
  - pose proof (setDecorations_shown dt) as Hs.
    pose proof (setDecorations_frame dt (r :: ranges) w0) as F.
    assert (Hk : forall e entry,
               activeTextEditor (snd (setDecorations dt (r :: ranges) w0))
               = Some e ->
               In entry (decorations e) -> P (fst entry)).
    { unfold setDecorations, setEditor. subst w0. cbn [activeTextEditor].
      destruct (activeTextEditor w) as [e0|] eqn:E0; [|congruence].
      cbn [snd activeTextEditor]. intros e entry [= <-]. cbn [decorations].
      apply replaceDecorations_keys; [eapply HP; eauto|].
      intros en Hen. now apply (Hkeys e0). }
    assert (He : activeTextEditor (snd (setDecorations dt (r :: ranges) w0))
                 <> None).
    { unfold setDecorations, setEditor. subst w0. cbn [activeTextEditor].
      destruct (activeTextEditor w); [discriminate | congruence]. }
    destruct (setDecorations dt (r :: ranges) w0) as [u w1] eqn:Es.
    cbn [snd] in *. destruct F as (F1 & F2 & _).
    exists w1. split; [reflexivity|]. split; [exact F2|]. split; [exact F1|].
    split; [exact He|]. split; [exact Hk|].
    intros dt'. specialize (Hs dt' (r :: ranges) w0 Hed).
    rewrite Es in Hs. exact Hs.
Qed.

(** All keywords of a scan, when no two of them share a decoration
    type. *)
Lemma scanKeywords_shows (P : DecorationType -> Prop)
  (keywords : list string) :
  forall w,
    NoDup keywords ->
    Forall (fun k => isRegexKeyword k = false /\ 0 < String.length k)
           keywords ->
    activeTextEditor w <> None ->
    (forall k dt, assoc k (decorationTypes w) = Some dt -> P dt) ->
    (forall e entry, activeTextEditor w = Some e -> In entry (decorations e) ->
                     P (fst entry)) ->
    (forall k1 k2 dt, assoc k1 (decorationTypes w) = Some dt ->
                      assoc k2 (decorationTypes w) = Some dt -> k1 = k2) ->
    exists w',
      scanKeywords doc caseSensitive keywords (getCommentPatterns language) w
      = (Normal, getCommentPatterns language, w')
      /\ decorationTypes w' = decorationTypes w
      /\ config w' = config w
      /\ (forall e entry, activeTextEditor w' = Some e ->
                          In entry (decorations e) -> P (fst entry))
      /\ (forall k dt,
            In k keywords -> assoc k (decorationTypes w) = Some dt ->
            shown w' dt
            = match literalRanges doc k (getCommentPatterns language)
                                  caseSensitive with
              | [] => shown w dt
              | ranges => ranges
              end)
      /\ (forall dt,
            (forall k, In k keywords ->
                       assoc k (decorationTypes w) <> Some dt) ->
            shown w' dt = shown w dt).
Proof.
  induction keywords as [|k rest IH]; intros w Hnd Hlit Hed HP Hkeys Hinj.
  - exists w. cbn [scanKeywords]. unfold ret.
    repeat split; auto. intros k dt [].
  - inversion Hnd as [|? ? Hnotin Hnd']; subst.
    inversion Hlit as [|? ? [Hre Hlen] Hlit']; subst.
    destruct (scanKeyword_shows k w P Hre Hlen Hed HP Hkeys)
      as (w1 & E1 & D1 & C1 & Ed1 & K1 & S1).
    destruct (IH w1 Hnd' Hlit' Ed1) as (w2 & E2 & D2 & C2 & K2 & S2 & O2).
    { intros k0 dt. rewrite D1. apply HP. }
    { exact K1. }
    { intros k1 k2 dt. rewrite D1. apply Hinj. }
    exists w2. cbn [scanKeywords]. unfold bind. rewrite E1, E2.
    split; [reflexivity|]. split; [congruence|]. split; [congruence|].
    split; [exact K2|]. split.
    + intros k0 dt [<-|Hin] Hdt.
      * rewrite O2.
        -- rewrite S1, Hdt, Nat.eqb_refl. reflexivity.
        -- intros k' Hk' Hk'dt. rewrite D1 in Hk'dt.
           assert (k' = k) by (eapply Hinj; eauto). subst k'. contradiction.
      * rewrite (S2 k0 dt Hin) by (now rewrite D1).
        assert (Hsame : shown w1 dt = shown w dt).
        { rewrite S1. destruct (assoc k (decorationTypes w)) as [dtk|] eqn:Ek;
            [|reflexivity].
          destruct (dt =? dtk) eqn:Edt; [|reflexivity].
          apply Nat.eqb_eq in Edt. subst dtk.
          assert (k0 = k) by (eapply Hinj; eauto). subst k0. contradiction. }
        now rewrite Hsame.
    + intros dt Hno. rewrite O2.
      * rewrite S1. destruct (assoc k (decorationTypes w)) as [dtk|] eqn:Ek;
          [|reflexivity].
        destruct (dt =? dtk) eqn:Edt; [|reflexivity].
        apply Nat.eqb_eq in Edt. subst dtk.
        now destruct (Hno k (or_introl eq_refl)).
      * intros k' Hk'. rewrite D1. apply Hno. now right.
Qed.

End Refresh.

Lemma numbered_lower (n : nat) (entries : Object_) (k : string)
  (dt : DecorationType) :
  assoc k (numbered n entries) = Some dt -> n <= dt.
Proof.
  revert n. induction entries as [|[k0 c0] rest IH]; intros n; simpl;
    [discriminate|].
  destruct (String.eqb k k0); [intros [= <-]; lia|].
  intros H. apply IH in H. lia.
Qed.

Lemma numbered_injective (n : nat) (entries : Object_) (k1 k2 : string)
  (dt : DecorationType) :
  assoc k1 (numbered n entries) = Some dt ->
  assoc k2 (numbered n entries) = Some dt -> k1 = k2.
Proof.
  revert n. induction entries as [|[k0 c0] rest IH]; intros n; simpl;
    [discriminate|].
  destruct (String.eqb k1 k0) eqn:E1, (String.eqb k2 k0) eqn:E2.
  - apply String.eqb_eq in E1, E2. congruence.
  - intros [= <-] H. apply numbered_lower in H. lia.
  - intros H [= <-]. apply numbered_lower in H. lia.
  - apply IH.
Qed.

Lemma logOnly_shown (w w' : World) (dt : DecorationType) :
  logOnly w w' -> shown w' dt = shown w dt.
Proof. intros (_ & _ & E & _). unfold shown. now rewrite E. Qed.

Lemma findCommentKeywords_no_patterns (doc : TextDocument) (keyword : string)
  (caseSensitive : bool) (w : World) :
  snd (fst (findCommentKeywords doc keyword [] caseSensitive w)) = [].
Proof.
  unfold findCommentKeywords, findRegexKeywords, bind, config_get.
  now destruct (truthy _ && isRegexKeyword keyword).
Qed.

(** The name of an inherited property is no key of the table. *)
Lemma inherited_no_patterns (languageId : string) (len : option nat) :
  inheritedLength languageId = Some len -> getCommentPatterns languageId = [].
Proof.
  unfold inheritedLength. intros H. apply assoc_In in H.
  cbn [In] in H.
  repeat (destruct H as [H|H]; [injection H as <- _; reflexivity|]).
  contradiction.
Qed.

Lemma scanKeywordsInherited_frame (keywords : list string) :
  forall w : World,
    let w' := snd (scanKeywordsInherited keywords w) in
    config w' = config w /\ decorationTypes w' = decorationTypes w
    /\ activeTextEditor w' = activeTextEditor w.
Proof.
  induction keywords as [|k rest IH]; intros w; cbn [scanKeywordsInherited].
  - cbn. auto.
  - cbv zeta. unfold bind.
    assert (H1 : config (snd (scanKeywordInherited k w)) = config w
                 /\ decorationTypes (snd (scanKeywordInherited k w))
                    = decorationTypes w
                 /\ activeTextEditor (snd (scanKeywordInherited k w))
                    = activeTextEditor w).
    { unfold scanKeywordInherited, bind, getDecorationType, config_get.
      destruct (assoc k (decorationTypes w)); [|cbn; auto].
      unfold markScanned.
      set (w0 := mkWorld _ _ _ _ _ _ _ _ (scanned w ++ [k])).
      destruct (logError_logOnly
                  (if truthy (Some match assoc "enableRegexKeywords"
                                           (config w0) with
                                   | Some v => v
                                   | None => JBool false
                                   end) && isRegexKeyword k
                   then "Error finding regex keywords"
                   else "Error finding comment keywords")
                  (Some (TypeError "commentPatterns.forEach is not a function"))
                  w0) as (A & B & C & _).
      rewrite A, B, C. subst w0. cbn. auto. }
    destruct (scanKeywordInherited k w) as [u w1]. cbn [snd] in H1.
    destruct H1 as (A & B & C).
    specialize (IH w1). cbv zeta in IH. destruct IH as (A' & B' & C').
    repeat split; congruence.
Qed.

(** For such a language the scan changes nothing that the editor
    shows. *)
Lemma updateDecorations_inherited (w : World) (e : TextEditor)
  (len : option nat) :
  activeTextEditor w = Some e ->
  inheritedLength (languageId (document e)) = Some len ->
  fst (updateDecorations w) = Normal
  /\ decorationTypes (snd (updateDecorations w)) = decorationTypes w
  /\ config (snd (updateDecorations w)) = config w
  /\ activeTextEditor (snd (updateDecorations w)) = activeTextEditor w.
Proof.
  intros He Ei. remember (updateDecorations w) as result eqn:Hu.
  unfold updateDecorations, bind in Hu. unfold config_get at 1 in Hu.
  match type of Hu with
  | context [negb ?t] => destruct (negb t)
  end; [subst result; cbn; auto|].
  rewrite He, Ei in Hu.
  destruct len as [[|n]|]; [subst result; cbn; auto| |];
    (pose proof (safeMergeKeywords_logOnly w) as L1;
     destruct (safeMergeKeywords w) as [keywords w1]; cbn [snd] in L1;
     unfold config_get, clearDecorations, ret in Hu;
     pose proof (validateKeywords_logOnly keywords w1) as L2;
     destruct (validateKeywords keywords w1) as [validKeywords w2];
     cbn [snd] in L2;
     pose proof (scanKeywordsInherited_frame (map fst validKeywords) w2)
       as F; cbv zeta in F;
     destruct (scanKeywordsInherited (map fst validKeywords) w2) as [u w3];
     subst result; cbn [fst snd] in *;
     destruct L1 as (A1 & B1 & C1 & _); destruct L2 as (A2 & B2 & C2 & _);
     destruct F as (A3 & B3 & C3);
     repeat split; congruence).
Qed.

(** A scan in a world where the registered keywords are the validated
    ones, each with a decoration type of its own that shows nothing
    yet: afterwards each decoration type shows what the matcher finds
    for its keyword. *)
Lemma updateDecorations_shows (w : World) (e : TextEditor)
  (P : DecorationType -> Prop) :
  activeTextEditor w = Some e ->
  truthy (Some (setting w "enabled" (JBool true))) = true ->
  (forall k dt, assoc k (decorationTypes w) = Some dt -> P dt) ->
  (forall e0 entry, activeTextEditor w = Some e0 ->
                    In entry (decorations e0) -> P (fst entry)) ->
  (forall k1 k2 dt, assoc k1 (decorationTypes w) = Some dt ->
                    assoc k2 (decorationTypes w) = Some dt -> k1 = k2) ->
  (forall k dt, assoc k (decorationTypes w) = Some dt ->
                In k (map fst (validKeywordsOf w)) /\ shown w dt = []) ->
  let w' := snd (updateDecorations w) in
  fst (updateDecorations w) = Normal
  /\ decorationTypes w' = decorationTypes w
  /\ config w' = config w
  /\ (forall e0 entry, activeTextEditor w' = Some e0 ->
                       In entry (decorations e0) -> P (fst entry))
  /\ forall keyword dt,
       assoc keyword (decorationTypes w') = Some dt ->
       shown w' dt
       = snd (fst (findCommentKeywords (document e) keyword
                     (getCommentPatterns (languageId (document e)))
                     (truthy (Some (setting w "caseSensitive" (JBool false))))
                     w')).
Proof.
  intros He Hen HP Hkeys Hinj Hreg. cbv zeta.
  destruct (inheritedLength (languageId (document e))) as [len|] eqn:Ei.
  { destruct (updateDecorations_inherited w e len He Ei) as (A & B & C & D).
    split; [exact A|]. split; [exact B|]. split; [exact C|]. split.
    - intros e0 entry. rewrite D. apply Hkeys.
    - intros keyword dt Hdt.
      rewrite (inherited_no_patterns _ _ Ei), findCommentKeywords_no_patterns.
      rewrite B in Hdt. unfold shown. rewrite D.
      now apply (Hreg keyword). }
  remember (updateDecorations w) as result eqn:Hu.
  unfold updateDecorations, bind in Hu.
  unfold config_get at 1 in Hu.
  unfold setting, config_get in Hen. cbn [fst] in Hen.
  rewrite Hen in Hu. cbn [negb] in Hu. rewrite He, Ei in Hu.
  destruct (getCommentPatterns (languageId (document e))) as [|p ps] eqn:Ep.
  - unfold ret in Hu. subst result. cbn [fst snd].
    repeat split; auto.
    intros keyword dt Hdt. rewrite findCommentKeywords_no_patterns.
    now apply (Hreg keyword).
  - rewrite <- Ep in *. clear p ps Ep.
    pose proof (safeMergeKeywords_logOnly w) as L1.
    pose proof (safeMergeKeywords_enumerated w) as En.
    assert (Hv : validKeywordsOf w
                 = fst (validateKeywords (fst (safeMergeKeywords w))
                                         (snd (safeMergeKeywords w))))
      by reflexivity.
    destruct (safeMergeKeywords w) as [keywords w1]. cbn [fst snd] in *.
    assert (Hcs : truthy (Some (fst (config_get "caseSensitive" (JBool false)
                                                w1)))
                  = truthy (Some (setting w "caseSensitive" (JBool false)))).
    { unfold setting, config_get. cbn [fst].
      destruct L1 as (-> & _). reflexivity. }
    unfold config_get at 1 in Hu. unfold config_get in Hcs. cbn [fst] in Hcs.
    rewrite Hcs in Hu. unfold clearDecorations, ret in Hu.
    pose proof (validateKeywords_logOnly keywords w1) as L2.
    pose proof (validateKeywords_literal keywords w1 En) as Hlit.
    destruct (validateKeywords keywords w1) as [validKeywords w2].
    cbn [fst snd] in *. rewrite <- Hv in Hlit, Hu. clear Hv.
    assert (L : logOnly w w2) by (eapply logOnly_trans; eauto).
    destruct L as (C & D & E & L).
    destruct (scanKeywords_shows (document e)
                (truthy (Some (setting w "caseSensitive" (JBool false))))
                (languageId (document e)) P
                (map fst (validKeywordsOf w)) w2)
      as (w3 & E3 & D3 & C3 & K3 & S3 & _).
    + apply enumerated_NoDup, validKeywordsOf_enumerated.
    + exact Hlit.
    + rewrite E, He. discriminate.
    + intros k dt. rewrite D. apply HP.
    + intros e0 entry. rewrite E. apply Hkeys.
    + intros k1 k2 dt. rewrite D. apply Hinj.
    + rewrite E3 in Hu. subst result. cbn [fst snd].
      split; [reflexivity|]. split; [congruence|]. split; [congruence|].
      split; [exact K3|].
      intros keyword dt Hdt. rewrite D3, D in Hdt.
      destruct (Hreg keyword dt Hdt) as [Hin Hempty].
      rewrite (S3 keyword dt Hin) by (now rewrite D).
      assert (Hs : shown w2 dt = []).
      { unfold shown in *. now rewrite E. }
      rewrite Hs.
      rewrite findCommentKeywords_literalRanges.
      * now destruct (literalRanges _ _ _ _).
      * rewrite Forall_forall in Hlit. now apply Hlit.
Qed.

Lemma assoc_In_keys {A : Type} (k : string) (l : list (string * A)) (v : A) :
  assoc k l = Some v -> In k (map fst l) /\ In v (map snd l).
Proof.
  intros H. apply assoc_In in H.
  split; [apply (in_map fst) in H | apply (in_map snd) in H]; exact H.
Qed.

(** X14.  In a host in order with an editor, and with the extension
    enabled, the listener of configuration changes returns, leaves the
    host in order, registers the validated keywords of the settings, and
    makes the editor show, for each registered keyword, exactly the
    ranges that the matcher finds for it in the document. *)
Theorem onDidChangeConfiguration_refreshes (host : Host) (e : TextEditor) :
  hostOk host ->
  activeTextEditor (world host) = Some e ->
  truthy (Some (setting (world host) "enabled" (JBool true))) = true ->
  let result := onDidChangeConfiguration true host in
  let host' := snd result in
  fst result = Normal
  /\ hostOk host'
  /\ map fst (decorationTypes (world host'))
     = map fst (validKeywordsOf (world host))
  /\ forall keyword dt,
       assoc keyword (decorationTypes (world host')) = Some dt ->
       shown (world host') dt
       = snd (fst (findCommentKeywords (document e) keyword
                     (getCommentPatterns (languageId (document e)))
                     (truthy (Some (setting (world host) "caseSensitive"
                                            (JBool false))))
                     (world host'))).
Proof.
  intros Hok He Hen. cbv zeta. unfold onDidChangeConfiguration.
  destruct (updateDecorationTypes_spec host) as (D & V & N & C & E).
  destruct (updateDecorationTypes_clean host Hok) as (Hok1 & Hlive & Hshown).
  set (host1 := updateDecorationTypes host) in *.
  rewrite He in E. cbn [option_map] in E. rewrite E.
  set (e1 := mkEditor (document e) _) in *.
  destruct Hok1 as (R1 & L1 & K1).
  destruct (updateDecorations_shows (world host1) e1 (issued host1))
    as (Hn & D' & C' & K' & S').
  - exact E.
  - rewrite (setting_config (world host) (world host1)) by exact C.
    exact Hen.
  - intros k dt Hdt. apply assoc_In in Hdt. exact (R1 (k, dt) Hdt).
  - exact K1.
  - intros k1 k2 dt. rewrite D. apply numbered_injective.
  - intros k dt Hdt. split.
    + rewrite (validKeywordsOf_config (world host) (world host1)) by exact C.
      rewrite <- (numbered_keys (nextKey (renderer host))), <- D.
      now apply assoc_In_keys in Hdt.
    + apply Hshown. right. now apply assoc_In_keys in Hdt.
  - unfold inWorld.
    destruct (updateDecorations (world host1)) as [c w'].
    cbn [fst snd world renderer] in *.
    split; [exact Hn|]. split; [|split].
    + unfold hostOk, issued. cbn [world renderer]. rewrite D'.
      split; [exact R1|]. split; [exact L1 | exact K'].
    + rewrite D', D. apply numbered_keys.
    + intros keyword dt Hdt. rewrite (S' keyword dt Hdt).
      now rewrite (setting_config (world host) (world host1)) by exact C.
Qed.

Lemma onDidChangeConfiguration_refreshes_witness :
  let e := mkEditor (mkDocument "// TODO: x" "javascript") [] in
  let host := mkHost (mkWorld (Some []) [] 0 packageDefaults [] (Some e)
                              [] [] [])
                     (mkRenderer [] 0) in
  let result := onDidChangeConfiguration true host in
  fst result = Normal
  /\ hostOk (snd result)
  /\ shown (world (snd result)) 0
     = [mkRange (mkPosition 0 3) (mkPosition 0 7)].
Proof.
  intros e host result.
  assert (Hok : hostOk host).
  { unfold hostOk, issued. simpl. split; [|split].
    - intros entry [].
    - intros entry [].
    - intros e0 entry [= <-] []. }
  destruct (onDidChangeConfiguration_refreshes host e Hok eq_refl eq_refl)
    as (A & B & _ & D).
  split; [exact A|]. split; [exact B|]. unfold result.
  rewrite (D "TODO" 0) by (vm_compute; reflexivity).
  vm_compute. reflexivity.
Defined.
(** ** Failures during a scan *)

Section Quiet.

Variable doc : TextDocument.
Variable caseSensitive : bool.
Variable language : string.

(** For a literal keyword that is not empty the callback of the scan
    returns and logs nothing. *)
Lemma scanKeyword_quiet (keyword : string) (w : World) :
  isRegexKeyword keyword = false -> 0 < String.length keyword ->
  let r := scanKeyword doc caseSensitive keyword
                       (getCommentPatterns language) w in
  fst r = (Normal, getCommentPatterns language)
  /\ logger (snd r) = logger w /\ errorCount (snd r) = errorCount w.
Proof.
  intros Hre Hlen. cbv zeta.
  unfold scanKeyword, bind, getDecorationType.
  destruct (assoc keyword (decorationTypes w)) as [dt|]; [|cbn; auto].
  unfold markScanned.
  set (w0 := mkWorld _ _ _ _ _ _ _ _ (scanned w ++ [keyword])).
  destruct (findCommentKeywords_returns doc keyword language caseSensitive w0)
    as (ranges & E & _); [rewrite Hre; apply andb_false_r | exact Hlen |].
  rewrite E.
  destruct ranges as [|r ranges]; unfold ret; [cbn; auto|].
  unfold setDecorations, setEditor.
  destruct (activeTextEditor w0); cbn; auto.
Qed.

Lemma scanKeywords_quiet (keywords : list string) :
  forall w : World,
    Forall (fun k => isRegexKeyword k = false /\ 0 < String.length k)
           keywords ->
    let r := scanKeywords doc caseSensitive keywords
                          (getCommentPatterns language) w in
    logger (snd r) = logger w /\ errorCount (snd r) = errorCount w.
Proof.
  induction keywords as [|k rest IH]; intros w Hlit; cbn [scanKeywords];
    [cbn; auto|].
  inversion Hlit as [|? ? [Hre Hlen] Hlit']; subst.
  cbv zeta. unfold bind.
  pose proof (scanKeyword_quiet k w Hre Hlen) as H. cbv zeta in H.
  destruct (scanKeyword doc caseSensitive k (getCommentPatterns language) w)
    as [[c ps1] w1].
  cbn [fst snd] in H. destruct H as (Hc & L & C).
  injection Hc as -> ->.
  specialize (IH w1 Hlit'). cbv zeta in IH. destruct IH as [L' C'].
  split; congruence.
Qed.

End Quiet.

(** When the descriptors are no array, the matcher fails for every
    keyword that has a decoration type, and each failure is logged. *)
Lemma scanKeywordsInherited_errorCount (keywords : list string) :
  forall w : World,
    errorCount (snd (scanKeywordsInherited keywords w))
    = errorCount w + List.length (filter (hasDecorationType w) keywords).
Proof.
  induction keywords as [|k rest IH]; intros w;
    cbn [scanKeywordsInherited filter].
  - cbn. lia.
  - unfold bind.
    assert (H : errorCount (snd (scanKeywordInherited k w))
                = errorCount w + (if hasDecorationType w k then 1 else 0)
                /\ decorationTypes (snd (scanKeywordInherited k w))
                   = decorationTypes w).
    { unfold scanKeywordInherited, bind, getDecorationType,
        hasDecorationType, config_get.
      destruct (assoc k (decorationTypes w)); [|cbn; split; [lia|reflexivity]].
      unfold markScanned.
      set (w0 := mkWorld _ _ _ _ _ _ _ _ (scanned w ++ [k])).
      match goal with
      | |- context [logError ?m ?e w0] =>
          rewrite (logError_errorCount m e w0);
          destruct (logError_logOnly m e w0) as (_ & D & _); rewrite D
      end.
      subst w0. cbn. split; [lia|reflexivity]. }
    destruct (scanKeywordInherited k w) as [u w1]. cbn [snd] in *.
    destruct H as [C D]. rewrite IH, C.
    rewrite (filter_ext (hasDecorationType w1) (hasDecorationType w))
      by (intros; now apply hasDecorationType_frame).
    destruct (hasDecorationType w k); cbn [List.length]; lia.
Qed.

Lemma validatedWorld_logOnly (w : World) : logOnly w (validatedWorld w).
Proof.
  unfold validatedWorld.
  eapply logOnly_trans;
    [apply safeMergeKeywords_logOnly | apply validateKeywords_logOnly].
Qed.

(** No two keys of a map share a value. *)
Lemma assoc_NoDup_values {A : Type} (l : list (string * A)) (k1 k2 : string)
  (v : A) :
  NoDup (map snd l) ->
  assoc k1 l = Some v -> assoc k2 l = Some v -> k1 = k2.
Proof.
  induction l as [|[k0 v0] l IH]; cbn [assoc map snd]; [discriminate|].
  intros Hnd. inversion Hnd as [|? ? Hnotin Hnd']; subst.
  destruct (String.eqb k1 k0) eqn:E1, (String.eqb k2 k0) eqn:E2.
  - apply String.eqb_eq in E1, E2. congruence.
  - intros [= <-] H. apply assoc_In_keys in H. destruct H. contradiction.
  - intros H [= <-]. apply assoc_In_keys in H. destruct H. contradiction.
  - now apply IH.
Qed.

(** The scan for a language whose identifier names an inherited
    property of the table, other than one of length 0. *)
Lemma updateDecorations_inherited_eq (w : World) (e : TextEditor)
  (len : option nat) :
  activeTextEditor w = Some e ->
  truthy (Some (setting w "enabled" (JBool true))) = true ->
  inheritedLength (languageId (document e)) = Some len -> len <> Some 0 ->
  snd (updateDecorations w)
  = snd (scanKeywordsInherited (map fst (validKeywordsOf w))
                               (validatedWorld w)).
Proof.
  intros He Hen Ei Hlen.
  unfold updateDecorations, bind. unfold config_get at 1.
  unfold setting, config_get in Hen. cbn [fst] in Hen.
  rewrite Hen. cbn [negb]. rewrite He, Ei.
  unfold validKeywordsOf, validatedWorld.
  destruct len as [[|n]|]; [congruence| |];
    (destruct (safeMergeKeywords w) as [keywords w1];
     unfold config_get, clearDecorations, ret; cbn [fst snd];
     destruct (validateKeywords keywords w1) as [validKeywords w2];
     cbn [fst snd];
     now destruct (scanKeywordsInherited (map fst validKeywords) w2)).
Qed.

(** The scan for a language of the table. *)
Lemma updateDecorations_table_eq (w : World) (e : TextEditor) :
  activeTextEditor w = Some e ->
  truthy (Some (setting w "enabled" (JBool true))) = true ->
  inheritedLength (languageId (document e)) = None ->
  getCommentPatterns (languageId (document e)) <> [] ->
  updateDecorations w
  = (fst (fst (scanKeywords
                 (document e)
                 (truthy (Some (setting w "caseSensitive" (JBool false))))
                 (map fst (validKeywordsOf w))
                 (getCommentPatterns (languageId (document e)))
                 (validatedWorld w))),
     snd (scanKeywords
            (document e)
            (truthy (Some (setting w "caseSensitive" (JBool false))))
            (map fst (validKeywordsOf w))
            (getCommentPatterns (languageId (document e)))
            (validatedWorld w))).
Proof.
  intros He Hen Ei Hps.
  unfold updateDecorations, bind. unfold config_get at 1.
  unfold setting at 1, config_get in Hen. cbn [fst] in Hen.
  rewrite Hen. cbn [negb]. rewrite He, Ei.
  destruct (getCommentPatterns (languageId (document e))) as [|p ps] eqn:Ep;
    [congruence|].
  unfold validKeywordsOf, validatedWorld.
  pose proof (safeMergeKeywords_logOnly w) as L1.
  destruct (safeMergeKeywords w) as [keywords w1]. cbn [fst snd] in *.
  unfold setting, config_get at 1, clearDecorations, ret. cbn [fst snd].
  destruct L1 as (-> & _).
  destruct (validateKeywords keywords w1) as [validKeywords w2].
  cbn [fst snd].
  now destruct (scanKeywords _ _ (map fst validKeywords) (p :: ps) w2)
    as [[c ps'] w3].
Qed.

(** A regex keyword whose pattern does not compile, in the matcher: the
    exception of the constructor is caught and logged, once for each
    descriptor that finds a comment, and no range is returned. *)
Lemma findCommentKeywords_malformed (doc : TextDocument) (bad : string)
  (ps : list CommentPattern) (caseSensitive : bool) (w : World) :
  truthy (Some (setting w "enableRegexKeywords" (JBool false))) = true ->
  isRegexKeyword bad = true ->
  RegExp_new (slice1 bad) (flagsFor caseSensitive) = None ->
  outsideFragment (chars (slice1 bad)) = false ->
  exists w',
    findCommentKeywords doc bad ps caseSensitive w
    = (Normal, map (afterThrow (getText doc)) ps, [], w')
    /\ logOnly w w'
    /\ errorCount w'
       = errorCount w + List.length (filter (findsComment (getText doc)) ps).
Proof.
  intros Hon Hre Hbad Hin. rewrite regex_mode by assumption.
  unfold findRegexKeywords.
  apply forEachPattern_malformed; assumption.
Qed.

(** A regex wrapper does not pass the validation, which logs it. *)
Lemma validateKeyword_regex_wrapper (bad : string) (color minLength : JSON)
  (w : World) :
  isRegexKeyword bad = true ->
  fst (validateKeyword bad color minLength w) = false
  /\ errorCount (snd (validateKeyword bad color minLength w))
     = S (errorCount w).
Proof.
  intros Hre.
  assert (Hv : validEntry minLength (bad, color) = false).
  { destruct (validEntry minLength (bad, color)) eqn:E; [|reflexivity].
    apply validEntry_literal in E. destruct E. congruence. }
  split; [now rewrite validateKeyword_verdict|].
  unfold validEntry in Hv. cbn [fst snd] in Hv.
  unfold validateKeyword.
  destruct (lessThan (String.length bad) minLength);
    [rewrite bind_ret_snd; apply logError_errorCount|].
  destruct (test _ (chars bad)) eqn:Et; cbn [negb];
    [|rewrite bind_ret_snd; apply logError_errorCount].
  exfalso.
  apply charset_first in Et. destruct Et as (c & rest & E & Hc).
  unfold isRegexKeyword in Hre. rewrite E in Hre.
  destruct (eqc c "/") eqn:Es; [|discriminate].
  apply eqc_eq in Es. subst c. vm_compute in Hc. discriminate.
Qed.



(** ** The commands: adding and removing a keyword *)

Lemma isHexDigit_not_space (c : ascii) :
  isHexDigit c = true -> isWhiteSpace c = false.
Proof.
  destruct c as [[] [] [] [] [] [] [] []]; vm_compute; congruence.
Qed.

(** A color that the color prompt accepts has nothing to trim. *)
Lemma trim_validColor (c : string) : isValidColor c = true -> trim c = c.
Proof.
  unfold isValidColor. rewrite isValidColor_hexColor_chars.
  destruct (chars c) as [|h digits] eqn:E; [discriminate|].
  intros H. apply andb_prop in H. destruct H as [H _].
  apply andb_prop in H. destruct H as [Hh Hd].
  apply eqc_eq in Hh. subst h.
  assert (Hws : forall x, In x (chars c) -> isWhiteSpace x = false).
  { rewrite E. intros x [<-|Hx]; [reflexivity|].
    apply isHexDigit_not_space. rewrite forallb_forall in Hd. now apply Hd. }
  unfold trim. rewrite (dropWhile_head _ _ Hws).
  rewrite dropWhile_head by (intros x Hx; apply Hws; now apply in_rev).
  now rewrite rev_involutive, string_of_chars.
Qed.

Lemma validColor_not_empty (c : string) :
  isValidColor c = true -> String.eqb c "" = false.
Proof. destruct c; [vm_compute; discriminate | reflexivity]. Qed.

Lemma assoc_obj_delete_same (o : Object_) (k : string) :
  assoc k (obj_delete o k) = None.
Proof.
  unfold obj_delete. induction o as [|[k' v'] o IH]; simpl; [reflexivity|].
  destruct (String.eqb k k') eqn:E; simpl; [exact IH|]. now rewrite E.
Qed.

Lemma assoc_obj_delete_other (o : Object_) (k k2 : string) :
  String.eqb k2 k = false -> assoc k2 (obj_delete o k) = assoc k2 o.
Proof.
  intros Hne. unfold obj_delete.
  induction o as [|[k' v'] o IH]; simpl; [reflexivity|].
  destruct (String.eqb k k') eqn:E; simpl.
  - apply String.eqb_eq in E. subst k'. now rewrite Hne.
  - now rewrite IH.
Qed.

Lemma obj_delete_absent (o : Object_) (k : string) :
  assoc k o = None -> obj_delete o k = o.
Proof.
  unfold obj_delete. induction o as [|[k' v'] o IH]; simpl; [reflexivity|].
  destruct (String.eqb k k'); [discriminate|]. simpl.
  intros H. now rewrite IH.
Qed.

(** Deleting a property that was just added gives the object back. *)
Lemma obj_delete_obj_set (o : Object_) (k : string) (v : JSON) :
  assoc k o = None -> obj_delete (obj_set o k v) k = o.
Proof.
  induction o as [|[k' v'] o IH]; simpl.
  - intros _. unfold obj_delete. simpl. now rewrite String.eqb_refl.
  - destruct (String.eqb k k') eqn:E; [discriminate|]. intros H.
    destruct (keyBefore k k' && _).
    + unfold obj_delete. cbn [filter fst]. rewrite String.eqb_refl, E.
      cbn [negb]. f_equal. now apply obj_delete_absent.
    + unfold obj_delete. cbn [filter fst]. rewrite E. cbn [negb].
      f_equal. now apply IH.
Qed.

Lemma enumerated_obj_delete (o : Object_) (k : string) :
  enumerated o -> enumerated (obj_delete o k).
Proof. apply enumerated_filter. Qed.

(** Lookup in a merged mapping of two objects without duplicate keys. *)
Lemma assoc_spread2 (a b : Object_) (k : string) :
  NoDup (map fst a) -> NoDup (map fst b) ->
  assoc k (spread2 (JObj a) (JObj b))
  = match assoc k b with
    | Some v => Some v
    | None => assoc k a
    end.
Proof.
  intros Na Nb. unfold spread2. cbn [ownEntries].
  rewrite !assoc_fold_obj_set, !assoc_rev_NoDup by assumption.
  cbn [assoc]. now destruct (assoc k b), (assoc k a).
Qed.

Lemma showQuickPick_member (items : list string) (item : string) :
  In item items -> showQuickPick items (Some item) = Some item.
Proof.
  intros H. unfold showQuickPick.
  assert (E : existsb (String.eqb item) items = true)
    by (apply existsb_exists; exists item; split;
        [exact H | apply String.eqb_refl]).
  now rewrite E.
Qed.

Lemma setting_config_update (w : World) (key : string) (v d : JSON) :
  setting (snd (config_update key v w)) key d = v.
Proof.
  unfold setting, config_get, config_update. cbn [fst snd config].
  now rewrite assoc_obj_set_same.
Qed.

Lemma setting_config_update_other (w : World) (key key2 : string)
  (v d : JSON) :
  String.eqb key2 key = false ->
  setting (snd (config_update key v w)) key2 d = setting w key2 d.
Proof.
  intros H. unfold setting, config_get, config_update. cbn [fst snd config].
  now rewrite assoc_obj_set_other.
Qed.

(** What [addCustomKeyword] does with accepted answers when the custom
    keywords are an object. *)
Lemma addCustomKeyword_eq (keyword c : string) (customs : Object_)
  (w : World) :
  keywordInputError keyword = None ->
  isValidColor c = true ->
  setting w "customKeywords" (JObj []) = JObj customs ->
  String.eqb keyword "__proto__" = false ->
  addCustomKeyword (Some keyword) (Some c) w
  = (Some Normal,
     snd (showToast (InformationMessage
                       ("Added keyword: " ++ keyword ++ " with color " ++ c))
            (snd (config_update "customKeywords"
                    (JObj (obj_set customs keyword (JStr c))) w)))).
Proof.
  intros Hk Hc Hs Hp. unfold addCustomKeyword, showInputBox, colorInputError.
  rewrite Hk, Hc.
  assert (Hl : String.eqb keyword "" = false).
  { apply keywordInputError_iff in Hk. destruct Hk as [Hl _].
    destruct keyword; [simpl in Hl; lia | reflexivity]. }
  rewrite Hl, (validColor_not_empty c Hc).
  apply keywordInputError_iff in Hk. destruct Hk as [_ Hk].
  rewrite (trim_promptChars keyword Hk), (trim_validColor c Hc).
  unfold bind at 1. unfold setting in Hs.
  destruct (config_get "customKeywords" (JObj []) w) as [ck w0] eqn:E.
  assert (Hw : w0 = w) by (unfold config_get in E; now inversion E).
  subst w0. cbn [fst] in Hs. subst ck.
  unfold assignString. rewrite Hp. cbn [andb].
  reflexivity.
Qed.

Lemma setting_showToast (t : Toast) (w : World) (key : string) (d : JSON) :
  setting (snd (showToast t w)) key d = setting w key d.
Proof. reflexivity. Qed.

Lemma safeMergeKeywords_objects (w : World) (defaults customs : Object_) :
  setting w "keywords" (JObj []) = JObj defaults ->
  setting w "customKeywords" (JObj []) = JObj customs ->
  fst (safeMergeKeywords w) = spread2 (JObj defaults) (JObj customs).
Proof.
  intros Hd Hc. rewrite safeMergeKeywords_eq. cbv zeta. now rewrite Hd, Hc.
Qed.

(** X15.  With answers that the two prompts accept, and custom keywords
    that are an object, [addCustomKeyword] stores the keyword with its
    color among the custom keywords and leaves the built-in ones alone;
    in the merged mapping the keyword then has this color, and every
    other keyword the color it had.  (A keyword [__proto__] would not be
    stored: the assignment is one to the inherited accessor.) *)
Theorem addCustomKeyword_adds (keyword c : string)
  (defaults customs : Object_) (w : World) :
  keywordInputError keyword = None ->
  isValidColor c = true ->
  setting w "keywords" (JObj []) = JObj defaults ->
  setting w "customKeywords" (JObj []) = JObj customs ->
  NoDup (map fst defaults) -> enumerated customs ->
  String.eqb keyword "__proto__" = false ->
  let r := addCustomKeyword (Some keyword) (Some c) w in
  fst r = Some Normal
  /\ setting (snd r) "customKeywords" (JObj [])
     = JObj (obj_set customs keyword (JStr c))
  /\ setting (snd r) "keywords" (JObj []) = JObj defaults
  /\ assoc keyword (fst (safeMergeKeywords (snd r))) = Some (JStr c)
  /\ forall k,
       String.eqb k keyword = false ->
       assoc k (fst (safeMergeKeywords (snd r)))
       = assoc k (fst (safeMergeKeywords w)).
Proof.
  intros Hk Hc Hd Hcu Nd Ec Hp. cbv zeta.
  rewrite (addCustomKeyword_eq keyword c customs w Hk Hc Hcu Hp).
  cbn [fst snd].
  set (w1 := snd (config_update "customKeywords" _ w)).
  set (w2 := snd (showToast _ w1)).
  assert (S1 : setting w2 "customKeywords" (JObj [])
               = JObj (obj_set customs keyword (JStr c)))
    by apply setting_config_update.
  assert (S2 : setting w2 "keywords" (JObj []) = JObj defaults).
  { unfold w2, w1. rewrite setting_showToast.
    now rewrite setting_config_update_other by reflexivity. }
  split; [reflexivity|]. split; [exact S1|]. split; [exact S2|].
  rewrite (safeMergeKeywords_objects w2 _ _ S2 S1).
  rewrite (safeMergeKeywords_objects w _ _ Hd Hcu).
  assert (Nc : NoDup (map fst customs)) by now apply enumerated_NoDup.
  assert (Nc' : NoDup (map fst (obj_set customs keyword (JStr c))))
    by now apply enumerated_NoDup, obj_set_enumerated.
  split.
  - now rewrite assoc_spread2, assoc_obj_set_same by assumption.
  - intros k Hne.
    rewrite !assoc_spread2 by assumption.
    now rewrite assoc_obj_set_other by assumption.
Qed.

Lemma addCustomKeyword_adds_witness :
  let r := addCustomKeyword (Some "URGENT") (Some "#FF00FF") freshWorld in
  fst r = Some Normal
  /\ assoc "URGENT" (fst (safeMergeKeywords (snd r))) = Some (JStr "#FF00FF").
Proof.
  intros r.
  assert (Nd : NoDup (map fst getDefaultKeywords))
    by (apply enumerated_NoDup, getDefaultKeywords_enumerated).
  destruct (addCustomKeyword_adds "URGENT" "#FF00FF" getDefaultKeywords []
              freshWorld eq_refl eq_refl eq_refl eq_refl Nd I eq_refl)
    as (A & _ & _ & B & _).
  split; [exact A | exact B].
Defined.

(** What [removeKeyword] does for a keyword that has a custom color. *)
Lemma removeKeyword_custom_eq (keyword : string) (v : JSON)
  (defaults customs : Object_) (w : World) :
  setting w "keywords" (JObj []) = JObj defaults ->
  setting w "customKeywords" (JObj []) = JObj customs ->
  NoDup (map fst defaults) -> NoDup (map fst customs) ->
  assoc keyword customs = Some v -> truthy (Some v) = true ->
  String.eqb keyword "" = false ->
  removeKeyword (Some keyword) w
  = (Some Normal,
     snd (showToast (InformationMessage ("Removed keyword: " ++ keyword))
            (snd (config_update "customKeywords"
                    (JObj (obj_delete customs keyword)) w)))).
Proof.
  intros Hd Hc Nd Nc Hv Ht Hne.
  unfold removeKeyword, bind. unfold setting in Hd, Hc.
  unfold config_get in *. cbn [fst] in Hd, Hc. rewrite Hd, Hc.
  change (spread (JObj defaults) (JObj customs))
    with (spread2 (JObj defaults) (JObj customs)).
  assert (Hin : In keyword (map fst (spread2 (JObj defaults) (JObj customs)))).
  { apply In_keys_assoc. rewrite assoc_spread2, Hv by assumption.
    discriminate. }
  destruct (map fst (spread2 (JObj defaults) (JObj customs)))
    as [|k0 ks] eqn:E; [destruct Hin|].
  rewrite (showQuickPick_member _ _ Hin), Hne.
  unfold truthyProperty. rewrite Hv, Ht. reflexivity.
Qed.

(** X16.  Removing a keyword that has a custom color deletes it from
    the custom keywords only: the message says that the keyword was
    removed, but in the merged mapping it falls back to its built-in
    color if it has one, and every other keyword keeps its color. *)
Theorem removeKeyword_custom (keyword : string) (v : JSON)
  (defaults customs : Object_) (w : World) :
  setting w "keywords" (JObj []) = JObj defaults ->
  setting w "customKeywords" (JObj []) = JObj customs ->
  NoDup (map fst defaults) -> enumerated customs ->
  assoc keyword customs = Some v -> truthy (Some v) = true ->
  String.eqb keyword "" = false ->
  let r := removeKeyword (Some keyword) w in
  fst r = Some Normal
  /\ setting (snd r) "customKeywords" (JObj [])
     = JObj (obj_delete customs keyword)
  /\ setting (snd r) "keywords" (JObj []) = JObj defaults
  /\ toasts (snd r)
     = toasts w ++ [InformationMessage ("Removed keyword: " ++ keyword)]
  /\ assoc keyword (fst (safeMergeKeywords (snd r))) = assoc keyword defaults
  /\ forall k,
       String.eqb k keyword = false ->
       assoc k (fst (safeMergeKeywords (snd r)))
       = assoc k (fst (safeMergeKeywords w)).
Proof.
  intros Hd Hc Nd Ec Hv Ht Hne. cbv zeta.
  assert (Nc : NoDup (map fst customs)) by now apply enumerated_NoDup.
  rewrite (removeKeyword_custom_eq keyword v defaults customs w)
    by assumption.
  cbn [fst snd].
  set (w1 := snd (config_update "customKeywords" _ w)).
  set (w2 := snd (showToast _ w1)).
  assert (S1 : setting w2 "customKeywords" (JObj [])
               = JObj (obj_delete customs keyword))
    by apply setting_config_update.
  assert (S2 : setting w2 "keywords" (JObj []) = JObj defaults).
  { unfold w2, w1. rewrite setting_showToast.
    now rewrite setting_config_update_other by reflexivity. }
  split; [reflexivity|]. split; [exact S1|]. split; [exact S2|].
  split; [reflexivity|].
  rewrite (safeMergeKeywords_objects w2 _ _ S2 S1).
  rewrite (safeMergeKeywords_objects w _ _ Hd Hc).
  assert (Nc' : NoDup (map fst (obj_delete customs keyword)))
    by now apply enumerated_NoDup, enumerated_obj_delete.
  split.
  - now rewrite assoc_spread2, assoc_obj_delete_same by assumption.
  - intros k Hk. rewrite !assoc_spread2 by assumption.
    now rewrite assoc_obj_delete_other by assumption.
Qed.

Lemma removeKeyword_custom_witness :
  let w := withSetting "customKeywords" (JObj [("TODO", JStr "#111111")])
                       freshWorld in
  let r := removeKeyword (Some "TODO") w in
  assoc "TODO" (fst (safeMergeKeywords w)) = Some (JStr "#111111")
  /\ toasts (snd r) = [InformationMessage "Removed keyword: TODO"]
  /\ assoc "TODO" (fst (safeMergeKeywords (snd r))) = Some (JStr "#00BFFF").
Proof.
  intros w r.
  assert (Nd : NoDup (map fst getDefaultKeywords))
    by (apply enumerated_NoDup, getDefaultKeywords_enumerated).
  assert (Ec : enumerated [("TODO", JStr "#111111")])
    by (simpl; split; [intros e []|exact I]).
  destruct (removeKeyword_custom "TODO" (JStr "#111111") getDefaultKeywords
              [("TODO", JStr "#111111")] w
              eq_refl eq_refl Nd Ec eq_refl eq_refl eq_refl)
    as (_ & _ & _ & T & B & _).
  split; [reflexivity|]. split; [exact T | exact B].
Defined.

(** X17.  A keyword that has no custom color is not removed: the
    settings stay as they are, and a warning is shown. *)
Theorem removeKeyword_builtin (keyword : string)
  (defaults customs : Object_) (w : World) :
  setting w "keywords" (JObj []) = JObj defaults ->
  setting w "customKeywords" (JObj []) = JObj customs ->
  NoDup (map fst defaults) -> NoDup (map fst customs) ->
  assoc keyword customs = None -> assoc keyword defaults <> None ->
  inheritedProperty keyword = false ->
  String.eqb keyword "" = false ->
  let r := removeKeyword (Some keyword) w in
  fst r = Some Normal
  /\ config (snd r) = config w
  /\ toasts (snd r)
     = toasts w
       ++ [WarningMessage
             ("Cannot remove built-in keyword: " ++ keyword
              ++ ". You can override it by adding a custom keyword with the same name.")].
Proof.
  intros Hd Hc Nd Nc Hv Hb Hi Hne. cbv zeta.
  unfold removeKeyword, bind. unfold setting in Hd, Hc.
  unfold config_get in *. cbn [fst] in Hd, Hc. rewrite Hd, Hc.
  change (spread (JObj defaults) (JObj customs))
    with (spread2 (JObj defaults) (JObj customs)).
  assert (Hin : In keyword (map fst (spread2 (JObj defaults) (JObj customs)))).
  { apply In_keys_assoc. now rewrite assoc_spread2, Hv by assumption. }
  destruct (map fst (spread2 (JObj defaults) (JObj customs)))
    as [|k0 ks] eqn:E; [destruct Hin|].
  rewrite (showQuickPick_member _ _ Hin), Hne.
  unfold truthyProperty. rewrite Hv, Hi. repeat split.
Qed.

Lemma removeKeyword_builtin_witness :
  let r := removeKeyword (Some "FIXME") freshWorld in
  fst r = Some Normal /\ config (snd r) = config freshWorld.
Proof.
  intros r.
  assert (Nd : NoDup (map fst getDefaultKeywords))
    by (apply enumerated_NoDup, getDefaultKeywords_enumerated).
  destruct (removeKeyword_builtin "FIXME" getDefaultKeywords [] freshWorld
              eq_refl eq_refl Nd (NoDup_nil _) eq_refl
              ltac:(discriminate) eq_refl eq_refl)
    as (A & B & _).
  split; [exact A | exact B].
Defined.

Lemma highlighting_customKeywords (w w' : World) (customs : JSON) :
  setting w "customKeywords" (JObj []) = customs ->
  config w' = obj_set (config w) "customKeywords" customs ->
  highlighting w' = highlighting w.
Proof.
  intros Hs Hc. unfold highlighting, setting, config_get in *. cbn [fst] in *.
  rewrite Hc, assoc_obj_set_same, Hs.
  now rewrite !assoc_obj_set_other by reflexivity.
Qed.

Lemma obj_set_twice (o : Object_) (k : string) (v1 v2 : JSON) :
  obj_set (obj_set o k v1) k v2 = obj_set o k v2.
Proof.
  induction o as [|[k' v'] o IH]; simpl.
  - now rewrite String.eqb_refl.
  - destruct (String.eqb k k') eqn:E; simpl.
    + now rewrite String.eqb_refl.
    + destruct (keyBefore k k' && _) eqn:B; simpl.
      * now rewrite String.eqb_refl.
      * rewrite E. destruct (keyBefore k k') eqn:Kb; simpl in *.
        -- apply negb_false_iff in B.
           assert (X : existsb (fun e => String.eqb k (fst e))
                               (obj_set o k v1) = true).
           { apply existsb_exists. exists (k, v1). split.
             - apply assoc_In, assoc_obj_set_same.
             - apply String.eqb_refl. }
           rewrite X. simpl. now rewrite IH.
        -- now rewrite IH.
Qed.

(** X18.  Adding a keyword that has no custom color yet and removing it
    again gives back the settings of the highlighting, and with them
    the merged keyword mapping. *)
Theorem addCustomKeyword_removeKeyword (keyword c : string)
  (defaults customs : Object_) (w : World) :
  keywordInputError keyword = None ->
  isValidColor c = true ->
  setting w "keywords" (JObj []) = JObj defaults ->
  setting w "customKeywords" (JObj []) = JObj customs ->
  NoDup (map fst defaults) -> enumerated customs ->
  assoc keyword customs = None ->
  String.eqb keyword "__proto__" = false ->
  let w1 := snd (addCustomKeyword (Some keyword) (Some c) w) in
  let r := removeKeyword (Some keyword) w1 in
  fst r = Some Normal
  /\ highlighting (snd r) = highlighting w
  /\ fst (safeMergeKeywords (snd r)) = fst (safeMergeKeywords w).
Proof.
  intros Hk Hc Hd Hcu Nd Ec Hnew Hp. cbv zeta.
  rewrite (addCustomKeyword_eq keyword c customs w Hk Hc Hcu Hp).
  cbn [snd].
  set (w1 := snd (config_update "customKeywords" _ w)).
  set (w2 := snd (showToast _ w1)).
  assert (S1 : setting w2 "customKeywords" (JObj [])
               = JObj (obj_set customs keyword (JStr c)))
    by apply setting_config_update.
  assert (S2 : setting w2 "keywords" (JObj []) = JObj defaults).
  { unfold w2, w1. rewrite setting_showToast.
    now rewrite setting_config_update_other by reflexivity. }
  assert (Hl : String.eqb keyword "" = false).
  { apply keywordInputError_iff in Hk. destruct Hk as [Hl _].
    destruct keyword; [simpl in Hl; lia | reflexivity]. }
  rewrite (removeKeyword_custom_eq keyword (JStr c) defaults
             (obj_set customs keyword (JStr c)) w2 S2 S1 Nd);
    [ | now apply enumerated_NoDup, obj_set_enumerated
      | apply assoc_obj_set_same
      | cbn [truthy]; now rewrite (validColor_not_empty c Hc)
      | exact Hl ].
  cbn [fst snd]. rewrite (obj_delete_obj_set customs keyword _ Hnew).
  assert (Hh : highlighting
                 (snd (showToast
                         (InformationMessage ("Removed keyword: " ++ keyword))
                         (snd (config_update "customKeywords" (JObj customs)
                                 w2))))
               = highlighting w).
  { apply (highlighting_customKeywords w _ (JObj customs) Hcu).
    unfold w2, w1, config_update, showToast. cbn [snd config].
    apply obj_set_twice. }
  split; [reflexivity|]. split; [exact Hh|].
  now apply safeMergeKeywords_highlighting.
Qed.

Lemma addCustomKeyword_removeKeyword_witness :
  let w1 := snd (addCustomKeyword (Some "URGENT") (Some "#FF00FF")
                                  freshWorld) in
  let r := removeKeyword (Some "URGENT") w1 in
  fst r = Some Normal /\ highlighting (snd r) = highlighting freshWorld.
Proof.
  intros w1 r.
  assert (Nd : NoDup (map fst getDefaultKeywords))
    by (apply enumerated_NoDup, getDefaultKeywords_enumerated).
  destruct (addCustomKeyword_removeKeyword "URGENT" "#FF00FF"
              getDefaultKeywords [] freshWorld
              eq_refl eq_refl eq_refl eq_refl Nd I eq_refl eq_refl)
    as (A & B & _).
  split; [exact A | exact B].
Defined.

(** ** The commands: reset, import *)

Lemma resetToDefault_yes (w : World) :
  resetToDefault (Some "Yes") w
  = (Normal,
     mkWorld (logger w) (console w) (errorCount w)
       (obj_set (obj_set (obj_set (obj_set (obj_set (obj_set (obj_set
          (config w)
          "keywords" (JObj getDefaultKeywords))
          "customKeywords" (JObj []))
          "caseSensitive" (JBool false))
          "highlightStyle" (JStr "text"))
          "fontWeight" (JStr "bold"))
          "showIcons" (JBool false))
          "enableRegexKeywords" (JBool false))
       (decorationTypes w) (activeTextEditor w) (files w)
       (toasts w
        ++ [InformationMessage
              "Comment Wizard settings reset to default values"])
       (scanned w)).
Proof.
  unfold resetToDefault.
  change (showWarningMessage ["Yes"; "No"] (Some "Yes")) with (Some "Yes").
  change (String.eqb "Yes" "Yes") with true. cbv iota.
  reflexivity.
Qed.

(** X19.  With the answer [Yes], [resetToDefault] writes the declared
    defaults of the keywords, the custom keywords and the five settings
    of the highlighting, so that the merged mapping is the built-in one;
    it leaves every other setting ([enabled], [minKeywordLength],
    [maxKeywords], ...) as it is.  With any other answer it does
    nothing. *)
Theorem resetToDefault_resets (w : World) :
  let r := resetToDefault (Some "Yes") w in
  fst r = Normal
  /\ highlighting (snd r) = defaultHighlighting
  /\ fst (safeMergeKeywords (snd r)) = getDefaultKeywords
  /\ (forall key,
        existsb (String.eqb key) themeKeys = false ->
        assoc key (config (snd r)) = assoc key (config w))
  /\ toasts (snd r)
     = toasts w
       ++ [InformationMessage
             "Comment Wizard settings reset to default values"]
  /\ forall answer,
       answer <> Some "Yes" -> resetToDefault answer w = (Normal, w).
Proof.
  cbv zeta. rewrite resetToDefault_yes. cbn [fst snd].
  assert (Hh : highlighting
                 (mkWorld (logger w) (console w) (errorCount w)
                    (obj_set (obj_set (obj_set (obj_set (obj_set (obj_set
                       (obj_set (config w)
                       "keywords" (JObj getDefaultKeywords))
                       "customKeywords" (JObj []))
                       "caseSensitive" (JBool false))
                       "highlightStyle" (JStr "text"))
                       "fontWeight" (JStr "bold"))
                       "showIcons" (JBool false))
                       "enableRegexKeywords" (JBool false))
                    (decorationTypes w) (activeTextEditor w) (files w)
                    (toasts w
                     ++ [InformationMessage
                           "Comment Wizard settings reset to default values"])
                    (scanned w))
               = defaultHighlighting).
  { unfold highlighting, defaultHighlighting. f_equal; lookup_setting. }
  split; [reflexivity|]. split; [exact Hh|]. split; [|split; [|split]].
  - rewrite safeMergeKeywords_eq. cbv zeta.
    pose proof (f_equal h_keywords Hh) as Hk.
    pose proof (f_equal h_customKeywords Hh) as Hc.
    cbn [highlighting h_keywords h_customKeywords defaultHighlighting]
      in Hk, Hc.
    rewrite Hk, Hc. reflexivity.
  - intros key Hk. unfold themeKeys in Hk. cbn [existsb] in Hk.
    repeat (apply orb_false_elim in Hk; destruct Hk as [? Hk]).
    cbn [config].
    now repeat (rewrite assoc_obj_set_other by assumption).
  - reflexivity.
  - intros answer Ha. unfold resetToDefault, showWarningMessage, showQuickPick.
    destruct answer as [a|]; [|reflexivity].
    destruct (existsb (String.eqb a) ["Yes"; "No"]); [|reflexivity].
    destruct (String.eqb a "Yes") eqn:E; [|reflexivity].
    apply String.eqb_eq in E. subst a. now destruct Ha.
Qed.

(** No callback of a command lets an exception through. *)
Lemma commandCallback_catches (what failure : string)
  (command : M (option Completion)) (w : World) (e : JSError) :
  fst (commandCallback what failure command w) <> Some (Throws e).
Proof.
  unfold commandCallback, bind.
  destruct (command w) as [[[|e'| |]|] w1]; cbn [fst ret]; try discriminate.
  destruct (logError _ _ w1) as [u w2].
  destruct (showToast _ w2). discriminate.
Qed.

Lemma commandCallback_throws (what failure : string)
  (command : M (option Completion)) (w w1 : World) (error : JSError) :
  command w = (Some (Throws error), w1) ->
  commandCallback what failure command w
  = (Some Normal,
     snd (showToast
            (ErrorMessage
               ("Failed to " ++ failure ++ ". See output for details."))
            (snd (logError ("Error in " ++ what ++ " command") (Some error)
                           w1)))).
Proof.
  intros H. unfold commandCallback, bind. rewrite H.
  now destruct (logError _ (Some error) w1).
Qed.

(** X20.  An import that fails, because the file cannot be read, is not
    JSON, or holds [null], is reported twice: [importTheme] logs the
    error and shows a message, the callback of the command logs it again
    and shows another; the command returns, and no setting is
    written. *)
Theorem importThemeCommand_reports_twice (uri : string)
  (others : list string) (w : World) :
  assoc uri (files w) = None
  \/ assoc uri (files w) = Some None
  \/ assoc uri (files w) = Some (Some JNull) ->
  let r := importThemeCommand (Some (uri :: others)) w in
  fst r = Some Normal
  /\ config (snd r) = config w
  /\ errorCount (snd r) = errorCount w + 2
  /\ toasts (snd r)
     = toasts w
       ++ [ ErrorMessage
              "Failed to import theme. Please check the file format.";
            ErrorMessage "Failed to import theme. See output for details." ].
Proof.
  intros Hfile. cbv zeta.
  assert (Him : exists error,
             importTheme (Some (uri :: others)) w = importFailed error w).
  { unfold importTheme, bind, readFile.
    destruct Hfile as [-> | [-> | ->]]; eexists; reflexivity. }
  destruct Him as (error & Him).
  destruct (importFailed_spec error w) as (F & C & T).
  assert (X : errorCount (snd (importFailed error w)) = S (errorCount w)).
  { unfold importFailed, bind, showToast, ret.
    pose proof (logError_errorCount "Error importing theme" (Some error) w).
    now destruct (logError _ _ w). }
  destruct (importFailed error w) as [c w1] eqn:E.
  cbn [fst snd] in F, C, T, X. subst c.
  unfold importThemeCommand.
  rewrite (commandCallback_throws _ _ _ w w1 error)
    by (unfold total, bind; now rewrite Him).
  cbn [fst snd].
  pose proof (logError_logOnly ("Error in " ++ "import theme" ++ " command")
                (Some error) w1) as L.
  pose proof (logError_errorCount
                ("Error in " ++ "import theme" ++ " command")
                (Some error) w1) as X2.
  destruct L as (C2 & _ & _ & _ & T2 & _).
  unfold showToast at 1 2 3. cbn [snd config errorCount toasts].
  rewrite C2, C, X2, X, T2, T, <- app_assoc.
  repeat split. lia.
Qed.

Lemma importThemeCommand_reports_twice_witness :
  let r := importThemeCommand (Some ["/tmp/missing.json"]) freshWorld in
  fst r = Some Normal
  /\ config (snd r) = config freshWorld
  /\ errorCount (snd r) = 2.
Proof.
  intros r.
  destruct (importThemeCommand_reports_twice "/tmp/missing.json" []
              freshWorld (or_introl eq_refl)) as (A & B & C & _).
  split; [exact A|]. split; [exact B | exact C].
Defined.

Lemma config_importMapping (theme : JSON) (key key2 : string) (w : World) :
  String.eqb key2 key = false \/ truthy (getProp theme key) = false ->
  assoc key2 (config (snd (importMapping theme key w)))
  = assoc key2 (config w).
Proof.
  unfold importMapping. intros H.
  destruct (getProp theme key) as [v|]; [|reflexivity].
  destruct (truthy (Some v)); [|reflexivity].
  destruct H as [H|H]; [|discriminate].
  unfold config_update. cbn [snd config]. now apply assoc_obj_set_other.
Qed.

Lemma config_importSetting (settings : JSON) (key key2 : string) (w : World) :
  String.eqb key2 key = false \/ getProp settings key = None ->
  assoc key2 (config (snd (importSetting settings key w)))
  = assoc key2 (config w).
Proof.
  unfold importSetting. intros H.
  destruct (getProp settings key) as [v|]; [|reflexivity].
  destruct H as [H|H]; [|discriminate].
  unfold config_update. cbn [snd config]. now apply assoc_obj_set_other.
Qed.

Lemma carries_setting (theme settings : JSON) (key : string) :
  carries theme key = false ->
  getProp theme "settings" = Some settings ->
  truthy (Some settings) = true ->
  In key [ "caseSensitive"; "highlightStyle"; "fontWeight"; "showIcons";
           "enableRegexKeywords" ] ->
  getProp settings key = None.
Proof.
  intros Hc Hs Ht Hin. unfold carries in Hc.
  assert (E : existsb (String.eqb key)
                [ "caseSensitive"; "highlightStyle"; "fontWeight";
                  "showIcons"; "enableRegexKeywords" ] = true).
  { apply existsb_exists. exists key. split; [exact Hin|].
    apply String.eqb_refl. }
  assert (N : String.eqb key "keywords" || String.eqb key "customKeywords"
              = false).
  { simpl in Hin.
    repeat (destruct Hin as [<-|Hin]; [reflexivity|]). destruct Hin. }
  rewrite N, E, Hs, Ht in Hc. cbn [andb] in Hc.
  now destruct (getProp settings key).
Qed.

Lemma config_importSettings (theme : JSON) (key : string) (w : World) :
  carries theme key = false ->
  assoc key (config (snd (importSettings theme w))) = assoc key (config w).
Proof.
  intros Hc. unfold importSettings.
  destruct (getProp theme "settings") as [settings|] eqn:Hs; [|reflexivity].
  destruct (truthy (Some settings)) eqn:Ht; [|reflexivity].
  assert (Hstep : forall k w0,
             In k [ "caseSensitive"; "highlightStyle"; "fontWeight";
                    "showIcons"; "enableRegexKeywords" ] ->
             assoc key (config (snd (importSetting settings k w0)))
             = assoc key (config w0)).
  { intros k w0 Hin. apply config_importSetting.
    destruct (String.eqb key k) eqn:E; [|now left].
    right. apply String.eqb_eq in E. subst k.
    exact (carries_setting theme settings key Hc Hs Ht Hin). }
  unfold bind.
  destruct (importSetting settings "caseSensitive" w) as [u1 w1] eqn:E1.
  destruct (importSetting settings "highlightStyle" w1) as [u2 w2] eqn:E2.
  destruct (importSetting settings "fontWeight" w2) as [u3 w3] eqn:E3.
  destruct (importSetting settings "showIcons" w3) as [u4 w4] eqn:E4.
  pose proof (Hstep "caseSensitive" w) as H1. rewrite E1 in H1.
  pose proof (Hstep "highlightStyle" w1) as H2. rewrite E2 in H2.
  pose proof (Hstep "fontWeight" w2) as H3. rewrite E3 in H3.
  pose proof (Hstep "showIcons" w3) as H4. rewrite E4 in H4.
  pose proof (Hstep "enableRegexKeywords" w4) as H5.
  cbn [snd] in *.
  rewrite H5, H4, H3, H2, H1 by (simpl; tauto). reflexivity.
Qed.

Lemma carries_mapping (theme : JSON) (key key2 : string) :
  carries theme key2 = false ->
  key = "keywords" \/ key = "customKeywords" ->
  String.eqb key2 key = false \/ truthy (getProp theme key) = false.
Proof.
  intros Hc Hk. destruct (String.eqb key2 key) eqn:E; [|now left].
  right. apply String.eqb_eq in E. subst key2. unfold carries in Hc.
  destruct Hk as [-> | ->]; exact Hc.
Qed.

(** X21.  An import writes only what the theme carries: a setting that
    is none of the seven of a theme, a keyword mapping that the theme
    lacks, a setting that its [settings] lack, is after the import what
    it was before.  (So the custom keywords survive the import of a
    theme that has built-in keywords only.) *)
Theorem importTheme_writes_what_theme_carries (uri : string)
  (others : list string) (theme : JSON) (key : string) (w : World) :
  assoc uri (files w) = Some (Some theme) ->
  carries theme key = false ->
  assoc key (config (snd (importTheme (Some (uri :: others)) w)))
  = assoc key (config w).
Proof.
  intros Hfile Hc. unfold importTheme, bind, readFile. rewrite Hfile.
  assert (Ha : assoc key (config (snd (applyTheme theme w)))
               = assoc key (config w)).
  { unfold applyTheme.
    destruct (negb _ && negb _); [reflexivity|].
    unfold bind.
    pose proof (config_importMapping theme "keywords" key w
                  (carries_mapping theme "keywords" key Hc
                     (or_introl eq_refl))) as H1.
    destruct (importMapping theme "keywords" w) as [u1 w1].
    pose proof (config_importMapping theme "customKeywords" key w1
                  (carries_mapping theme "customKeywords" key Hc
                     (or_intror eq_refl))) as H2.
    destruct (importMapping theme "customKeywords" w1) as [u2 w2].
    pose proof (config_importSettings theme key w2 Hc) as H3.
    destruct (importSettings theme w2) as [u3 w3].
    cbn [snd] in *. unfold showToast, ret. cbn [snd config].
    now rewrite H3, H2, H1. }
  destruct theme as [|b|n|s|items|props]; try exact Ha.
  destruct (importFailed_spec (TypeError "Cannot read properties of null") w)
    as (_ & C & _).
  now rewrite C.
Qed.

Lemma importTheme_writes_what_theme_carries_witness :
  let theme := JObj [("keywords", JObj [("TODO", JStr "#123456")])] in
  let w := mkWorld (Some []) [] 0
                   (obj_set packageDefaults "customKeywords"
                            (JObj [("URGENT", JStr "#FF0000")]))
                   [] None [("/tmp/theme.json", Some theme)] [] [] in
  let w' := snd (importTheme (Some ["/tmp/theme.json"]) w) in
  assoc "customKeywords" (config w')
  = Some (JObj [("URGENT", JStr "#FF0000")])
  /\ assoc "keywords" (config w') = Some (JObj [("TODO", JStr "#123456")]).
Proof.
  intros theme w w'. split; [|reflexivity].
  unfold w'.
  rewrite (importTheme_writes_what_theme_carries "/tmp/theme.json" [] theme
             "customKeywords" w eq_refl eq_refl).
  reflexivity.
Defined.

(** ** The number of logged lines *)

Lemma logError_lines (message : string) (w : World) (ls : list string) :
  logger w = Some ls ->
  exists ls',
    logger (snd (logError message None w)) = Some ls'
    /\ List.length ls'
       = List.length ls + 1 + (if MAX_ERRORS <? S (errorCount w) then 1 else 0).
Proof.
  intros Hl.
  unfold logError, bind, appendLine, console_error, incrErrorCount, ret.
  cbn [fst snd logger errorCount]. rewrite Hl. cbn [option_map].
  destruct (MAX_ERRORS <? S (errorCount w)); cbn [snd logger option_map];
    eexists; (split; [reflexivity|]); rewrite ?length_app; simpl; lia.
Qed.

Lemma logErrors_lines_from (n : nat) :
  forall (w : World) (ls : list string),
    logger w = Some ls ->
    exists ls',
      logger (snd (logErrors n w)) = Some ls'
      /\ errorCount (snd (logErrors n w)) = errorCount w + n
      /\ List.length ls' + (errorCount w - MAX_ERRORS)
         = List.length ls + n + (errorCount w + n - MAX_ERRORS).
Proof.
  induction n as [|n IH]; intros w ls Hl.
  - exists ls. simpl. unfold ret. simpl. repeat split; auto; lia.
  - destruct (IH w ls Hl) as (ls1 & L1 & C1 & N1).
    assert (Hs : snd (logErrors (S n) w)
                 = snd (logError "failure" None (snd (logErrors n w))))
      by (cbn [logErrors]; unfold bind; now destruct (logErrors n w)).
    rewrite Hs. clear Hs.
    set (w1 := snd (logErrors n w)) in *.
    destruct (logError_lines "failure" w1 ls1 L1) as (ls2 & L2 & N2).
    pose proof (logError_errorCount "failure" None w1) as C2.
    exists ls2. split; [exact L2|]. split; [lia|].
    rewrite N2, C1. unfold MAX_ERRORS in *.
    destruct (10 <? S (errorCount w + n)) eqn:E;
      [apply Nat.ltb_lt in E | apply Nat.ltb_ge in E]; lia.
Qed.

(** X23.  After [n] error reports in a row, starting with the counter at
    0, the counter is [n] and the output channel has grown by
    [n + (n - 10)] lines: one line for every report, and from the
    eleventh on a second one. *)
Theorem logErrors_lines (n : nat) (w : World) (ls : list string) :
  logger w = Some ls -> errorCount w = 0 ->
  errorCount (snd (logErrors n w)) = n
  /\ List.length (loggerLines (snd (logErrors n w)))
     = List.length ls + n + (n - MAX_ERRORS).
Proof.
  intros Hl Hc.
  destruct (logErrors_lines_from n w ls Hl) as (ls' & L & C & N).
  unfold loggerLines. rewrite L, C, Hc. rewrite Hc in N. simpl in N.
  split; lia.
Qed.

Lemma logErrors_lines_witness :
  errorCount (snd (logErrors 15 freshWorld)) = 15
  /\ List.length (loggerLines (snd (logErrors 15 freshWorld))) = 20.
Proof.
  destruct (logErrors_lines 15 freshWorld [] eq_refl eq_refl) as [A B].
  split; [exact A|]. rewrite B. reflexivity.
Defined.

(** ** A theme carried to other settings *)

Lemma importTheme_reproduces_export_witness :
  let w := freshWorld in
  let wT := mkWorld (Some []) [] 0
                    (obj_set packageDefaults "showIcons" (JBool true))
                    [] None
                    [("/tmp/theme.json",
                      Some (fst (themeOf "2025-01-01" freshWorld)))]
                    [] [] in
  highlighting (snd (importTheme (Some ["/tmp/theme.json"]) wT))
  = highlighting w.
Proof.
  intros w wT.
  exact (proj1 (importTheme_reproduces_export "2025-01-01" "/tmp/theme.json"
                  [] w wT eq_refl eq_refl eq_refl)).
Defined.
